(** * Ghost content agent: agent loop, tool executor, duplicate matchers and
      response parser, embedded from the TypeScript sources.

    Strings are sequences of 8-bit characters; the character classes of the
    regular expressions and of [toLowerCase] / [trim] are those of the ASCII
    code points.  Promises are modelled by their settled outcome: a value,
    or a thrown JavaScript error. *)

From Stdlib Require Import Ascii String List ZArith Lia Bool DecimalString.
From stdpp Require Import base option list gmap strings.

Set Warnings "-register-all".
Local Open Scope nat_scope.

(* ===================================================================== *)
(** ** JavaScript string primitives *)
(* ===================================================================== *)

Module JsStr.

Definition code (c : ascii) : nat := nat_of_ascii c.

Definition LF : ascii := ascii_of_nat 10.
Definition CR : ascii := ascii_of_nat 13.
Definition dquote : ascii := ascii_of_nat 34.
Definition squote : ascii := ascii_of_nat 39.
Definition backslash : ascii := ascii_of_nat 92.

Definition between (lo hi : nat) (c : ascii) : bool :=
  (lo <=? code c) && (code c <=? hi).

Definition is_upper : ascii -> bool := between 65 90.
Definition is_lower : ascii -> bool := between 97 122.
Definition is_digit : ascii -> bool := between 48 57.

(** White space of [String.prototype.trim] and of the class [\s]:
    TAB, LF, VT, FF, CR and SPACE. *)
Definition is_space (c : ascii) : bool :=
  between 9 13 c || (code c =? 32).

(** The class [\w]. *)
Definition is_word (c : ascii) : bool :=
  is_upper c || is_lower c || is_digit c || (code c =? 95).

(** Line terminators: excluded by [.] and recognised by [^] and [$] under
    the flag [m]. *)
Definition is_line_terminator (c : ascii) : bool :=
  (code c =? 10) || (code c =? 13).

Definition lower_char (c : ascii) : ascii :=
  if is_upper c then ascii_of_nat (code c + 32) else c.

Fixpoint toLowerCase (s : string) : string :=
  match s with
  | EmptyString => EmptyString
  | String c r => String (lower_char c) (toLowerCase r)
  end.

Fixpoint trimStart (s : string) : string :=
  match s with
  | EmptyString => EmptyString
  | String c r => if is_space c then trimStart r else s
  end.

(** [trimEnd] keeps a character when it is not white space or when the
    trimmed remainder is not empty. *)
Fixpoint trimEnd (s : string) : string :=
  match s with
  | EmptyString => EmptyString
  | String c r =>
      match trimEnd r with
      | EmptyString => if is_space c then EmptyString else String c EmptyString
      | r' => String c r'
      end
  end.

Definition trim (s : string) : string := trimEnd (trimStart s).

Fixpoint startsWith (p s : string) : bool :=
  match p, s with
  | EmptyString, _ => true
  | String a p', String b s' => Ascii.eqb a b && startsWith p' s'
  | String _ _, EmptyString => false
  end.

(** [s.includes(sub)]. *)
Fixpoint includes (s sub : string) : bool :=
  startsWith sub s ||
  match s with
  | EmptyString => false
  | String _ r => includes r sub
  end.

(** [s.slice(0, n)] for a non-negative [n]. *)
Definition slice0 (n : nat) (s : string) : string := String.substring 0 n s.

(** Truthiness of a string: only the empty string is falsy. *)
Definition truthy (s : string) : bool :=
  match s with EmptyString => false | _ => true end.

Fixpoint join (sep : string) (l : list string) : string :=
  match l with
  | [] => EmptyString
  | [x] => x
  | x :: r => x +:+ sep +:+ join sep r
  end.

Definition mem (x : string) (l : list string) : bool :=
  existsb (String.eqb x) l.

End JsStr.

(* ===================================================================== *)
(** ** The fragment of ECMAScript regular expressions the sources use *)
(* ===================================================================== *)

(** Every pattern of the sources is an alternation of sequences of quantified
    character classes, with at most one capture group and the assertions
    [^] and [$].  Matching is the backtracking search of the language
    definition: alternatives left to right, a greedy quantifier longest
    first, a lazy one shortest first, and the leftmost start wins. *)

Module Regex.
Import JsStr.

Inductive item : Type :=
| Rep (p : ascii -> bool) (lo : nat) (hi : option nat) (greedy : bool)
| GOpen
| GClose
| Bol
| Eol.

Definition seq := list item.

Record regex : Type := mkRegex {
  alts : list seq;
  multiline : bool
}.

(** Positions of capture group 1. *)
Definition caps : Type := (option nat * option nat)%type.
Definition no_caps : caps := (None, None).

Definition dec_hi (hi : option nat) : option nat :=
  match hi with Some n => Some (pred n) | None => None end.

Definition orElse {A} (x y : option A) : option A :=
  match x with Some _ => x | None => y end.

Section Matcher.
Context {R : Type}.

(** [rep p lo hi greedy k pos prev s]: match between [lo] and [hi]
    characters of class [p] at the head of [s], then the continuation
    [k]. *)
Fixpoint rep (p : ascii -> bool) (lo : nat) (hi : option nat) (greedy : bool)
    (k : nat -> option ascii -> string -> option R)
    (pos : nat) (prev : option ascii) (s : string) {struct s} : option R :=
  let stop := match lo with 0 => k pos prev s | S _ => None end in
  let more :=
    match hi with
    | Some 0 => None
    | _ =>
        match s with
        | EmptyString => None
        | String c s' =>
            if p c then rep p (pred lo) (dec_hi hi) greedy k (S pos) (Some c) s'
            else None
        end
    end in
  if greedy then orElse more stop else orElse stop more.
End Matcher.

Definition at_bol (ml : bool) (prev : option ascii) : bool :=
  match prev with
  | None => true
  | Some c => ml && is_line_terminator c
  end.

Definition at_eol (ml : bool) (s : string) : bool :=
  match s with
  | EmptyString => true
  | String c _ => ml && is_line_terminator c
  end.

(** Match a sequence at position [pos]; the result is the end position and
    the captures. *)
Fixpoint mt (its : seq) (ml : bool) (pos : nat) (prev : option ascii)
    (s : string) (g : caps) {struct its} : option (nat * caps) :=
  match its with
  | [] => Some (pos, g)
  | Rep p lo hi gr :: r =>
      rep p lo hi gr (fun pos' prev' s' => mt r ml pos' prev' s' g) pos prev s
  | GOpen :: r => mt r ml pos prev s (Some pos, snd g)
  | GClose :: r => mt r ml pos prev s (fst g, Some pos)
  | Bol :: r => if at_bol ml prev then mt r ml pos prev s g else None
  | Eol :: r => if at_eol ml s then mt r ml pos prev s g else None
  end.

Fixpoint mt_alts (al : list seq) (ml : bool) (pos : nat) (prev : option ascii)
    (s : string) : option (nat * caps) :=
  match al with
  | [] => None
  | a :: r => orElse (mt a ml pos prev s no_caps) (mt_alts r ml pos prev s)
  end.

Definition match_at (re : regex) := mt_alts (alts re) (multiline re).

(** Leftmost match at or after [pos]: start, end and captures. *)
Fixpoint search (re : regex) (pos : nat) (prev : option ascii) (s : string)
    : option (nat * nat * caps) :=
  match match_at re pos prev s with
  | Some (e, g) => Some (pos, e, g)
  | None =>
      match s with
      | EmptyString => None
      | String c s' => search re (S pos) (Some c) s'
      end
  end.

(** The array returned by [String.prototype.match] for a pattern without
    the flag [g]: element 0 and element 1 ([None] is [undefined]). *)
Record MatchResult : Type := mkMatch {
  m0 : string;
  m1 : option string
}.

Definition sub (a b : nat) (s : string) : string := String.substring a (b - a) s.

Definition js_match (s : string) (re : regex) : option MatchResult :=
  match search re 0 None s with
  | None => None
  | Some (st, e, (gs, ge)) =>
      Some {| m0 := sub st e s;
              m1 := match gs, ge with
                    | Some a, Some b => Some (sub a b s)
                    | _, _ => None
                    end |}
  end.

(** [s.replace(re, repl)] for a pattern with the flag [g] and a replacement
    without [$] references.  [skip] counts the characters of the current
    match still to be dropped. *)
Fixpoint replace_go (re : regex) (repl : string) (skip : nat) (pos : nat)
    (prev : option ascii) (s : string) {struct s} : string :=
  match skip with
  | S k =>
      match s with
      | EmptyString => EmptyString
      | String c s' => replace_go re repl k (S pos) (Some c) s'
      end
  | 0 =>
      match match_at re pos prev s with
      | Some (e, _) =>
          repl +:+
          match s with
          | EmptyString => EmptyString
          | String c s' =>
              match e - pos with
              | 0 => String c (replace_go re repl 0 (S pos) (Some c) s')
              | S k => replace_go re repl k (S pos) (Some c) s'
              end
          end
      | None =>
          match s with
          | EmptyString => EmptyString
          | String c s' => String c (replace_go re repl 0 (S pos) (Some c) s')
          end
      end
  end.

Definition replace_all (s : string) (re : regex) (repl : string) : string :=
  replace_go re repl 0 0 None s.

(** [s.split(re)]: [cur] is the current piece, reversed. *)
Fixpoint split_go (re : regex) (skip : nat) (pos : nat) (prev : option ascii)
    (cur : string) (s : string) {struct s} : list string :=
  match s with
  | EmptyString => [String.rev cur]
  | String c s' =>
      match skip with
      | S k => split_go re k (S pos) (Some c) cur s'
      | 0 =>
          match match_at re pos prev s with
          | Some (e, _) =>
              match e - pos with
              | S k => String.rev cur :: split_go re k (S pos) (Some c) EmptyString s'
              | 0 =>
                  match cur with
                  | EmptyString => split_go re 0 (S pos) (Some c) (String c EmptyString) s'
                  | _ => String.rev cur ::
                         split_go re 0 (S pos) (Some c) (String c EmptyString) s'
                  end
              end
          | None => split_go re 0 (S pos) (Some c) (String c cur) s'
          end
      end
  end.

Definition split (s : string) (re : regex) : list string :=
  split_go re 0 0 None EmptyString s.

(** *** Pattern notation *)

Definition one (p : ascii -> bool) : item := Rep p 1 (Some 1) true.
Definition opt (p : ascii -> bool) : item := Rep p 0 (Some 1) true.
Definition star (p : ascii -> bool) : item := Rep p 0 None true.
Definition plus (p : ascii -> bool) : item := Rep p 1 None true.
Definition star_lazy (p : ascii -> bool) : item := Rep p 0 None false.

Definition ch (c : ascii) : ascii -> bool := Ascii.eqb c.
(** A literal character under the flag [i]. *)
Definition chi (c : ascii) : ascii -> bool :=
  fun x => Ascii.eqb (lower_char c) (lower_char x).
Definition any : ascii -> bool := fun _ => true.
(** The class [.]: any character but a line terminator. *)
Definition dot : ascii -> bool := fun c => negb (is_line_terminator c).
Definition oneof (cs : string) : ascii -> bool :=
  fun c => existsb (Ascii.eqb c) (list_ascii_of_string cs).
Definition noneof (cs : string) : ascii -> bool := fun c => negb (oneof cs c).

Fixpoint lits (s : string) : seq :=
  match s with
  | EmptyString => []
  | String c r => one (ch c) :: lits r
  end.

Fixpoint litsi (s : string) : seq :=
  match s with
  | EmptyString => []
  | String c r => one (chi c) :: litsi r
  end.

Definition re1 (a : seq) : regex := mkRegex [a] false.

End Regex.


(* ===================================================================== *)
(** ** JavaScript values, errors and settled outcomes *)
(* ===================================================================== *)

Module Js.
Import JsStr.

(** Values as the program meets them at run time: the tool input that the
    model sends is JSON, and the TypeScript casts ([as string]) check
    nothing.  Numbers are integers. *)
Inductive JsVal : Type :=
| VUndefined
| VNull
| VBool (b : bool)
| VNum (n : Z)
| VStr (s : string)
| VArr (l : list JsVal)
| VObj (fields : list (string * JsVal)).

Inductive JsError : Type :=
| ErrorObj (name message : string)   (* an instance of Error *)
| Thrown (v : JsVal).                (* any other thrown value *)

Inductive Result (A : Type) : Type :=
| Ok (a : A)
| Throw (e : JsError).
Arguments Ok {A} a.
Arguments Throw {A} e.

Definition rbind {A B} (r : Result A) (f : A -> Result B) : Result B :=
  match r with Ok a => f a | Throw e => Throw e end.

Definition TypeError (msg : string) : JsError := ErrorObj "TypeError" msg.
Definition Error (msg : string) : JsError := ErrorObj "Error" msg.

(** [error instanceof Error ? error.message : 'Unknown error'] *)
Definition error_message (e : JsError) : string :=
  match e with
  | ErrorObj _ m => m
  | Thrown _ => "Unknown error"
  end.

(** ToBoolean. *)
Definition truthy (v : JsVal) : bool :=
  match v with
  | VUndefined | VNull => false
  | VBool b => b
  | VNum n => negb (Z.eqb n 0)
  | VStr s => JsStr.truthy s
  | VArr _ | VObj _ => true
  end.

(** [a || b] *)
Definition or (a b : JsVal) : JsVal := if truthy a then a else b.

Definition Z_to_string (n : Z) : string :=
  DecimalString.NilZero.string_of_int (Z.to_int n).

(** ToString, as used by template literals. *)
Fixpoint toString (v : JsVal) : string :=
  match v with
  | VUndefined => "undefined"
  | VNull => "null"
  | VBool b => if b then "true" else "false"
  | VNum n => Z_to_string n
  | VStr s => s
  | VArr l =>
      join ","
        ((fix go (l : list JsVal) : list string :=
            match l with
            | [] => []
            | x :: r =>
                match x with
                | VUndefined | VNull => EmptyString
                | _ => toString x
                end :: go r
            end) l)
  | VObj _ => "[object Object]"
  end.

(** The receiver of a string method call such as [title.toLowerCase()]:
    a string, or a TypeError. *)
Definition string_receiver (v : JsVal) (method : string) : Result string :=
  match v with
  | VStr s => Ok s
  | VUndefined =>
      Throw (TypeError ("Cannot read properties of undefined (reading '" +:+ method +:+ "')"))
  | VNull =>
      Throw (TypeError ("Cannot read properties of null (reading '" +:+ method +:+ "')"))
  | _ => Throw (TypeError (method +:+ " is not a function"))
  end.

(** *** JSON.stringify *)

Definition hex_digit (n : nat) : ascii :=
  if n <? 10 then ascii_of_nat (48 + n) else ascii_of_nat (87 + n).

Definition quote_char (c : ascii) : string :=
  let n := code c in
  if n =? 34 then String backslash (String dquote EmptyString)
  else if n =? 92 then String backslash (String backslash EmptyString)
  else if n =? 8 then String backslash "b"
  else if n =? 12 then String backslash "f"
  else if n =? 10 then String backslash "n"
  else if n =? 13 then String backslash "r"
  else if n =? 9 then String backslash "t"
  else if n <? 32 then
    String backslash ("u00" +:+ String (hex_digit (n / 16)) (String (hex_digit (n mod 16)) EmptyString))
  else String c EmptyString.

Fixpoint quote_body (s : string) : string :=
  match s with
  | EmptyString => EmptyString
  | String c r => quote_char c +:+ quote_body r
  end.

(** QuoteJSONString. *)
Definition quote (s : string) : string :=
  String dquote (quote_body s +:+ String dquote EmptyString).

Definition wrap (o c gap stepback indent : string) (parts : list string) : string :=
  match parts with
  | [] => o +:+ c
  | _ =>
      if JsStr.truthy gap
      then o +:+ String LF indent +:+ join ("," +:+ String LF indent) parts
             +:+ String LF stepback +:+ c
      else o +:+ join "," parts +:+ c
  end.

(** SerializeJSONProperty with indentation unit [gap]; [None] is
    [undefined]. *)
Fixpoint serialize (gap indent : string) (v : JsVal) {struct v} : option string :=
  match v with
  | VUndefined => None
  | VNull => Some "null"
  | VBool b => Some (if b then "true" else "false")
  | VNum n => Some (Z_to_string n)
  | VStr s => Some (quote s)
  | VArr l =>
      let inner := indent +:+ gap in
      Some (wrap "[" "]" gap indent inner
        ((fix go (l : list JsVal) : list string :=
            match l with
            | [] => []
            | x :: r =>
                match serialize gap inner x with
                | Some t => t
                | None => "null"
                end :: go r
            end) l))
  | VObj fs =>
      let inner := indent +:+ gap in
      Some (wrap "{" "}" gap indent inner
        ((fix go (fs : list (string * JsVal)) : list string :=
            match fs with
            | [] => []
            | (k, x) :: r =>
                match serialize gap inner x with
                | Some t =>
                    (quote k +:+ ":" +:+ (if JsStr.truthy gap then " " else EmptyString) +:+ t)
                    :: go r
                | None => go r
                end
            end) fs))
  end.

(** [JSON.stringify(v)] and [JSON.stringify(v, null, 2)] of an object or
    array [v]: always a string. *)
Definition stringify (v : JsVal) : string :=
  match serialize EmptyString EmptyString v with Some t => t | None => "undefined" end.

Definition stringify2 (v : JsVal) : string :=
  match serialize "  " EmptyString v with Some t => t | None => "undefined" end.

Definition opt_str (o : option string) : JsVal :=
  match o with Some s => VStr s | None => VUndefined end.

(** [o.key] on the properties of an object literal. *)
Definition field (fs : list (string * JsVal)) (key : string) : JsVal :=
  match List.find (fun kv => String.eqb (fst kv) key) fs with
  | Some kv => snd kv
  | None => VUndefined
  end.

End Js.

(* ===================================================================== *)
(** ** utils/metadata *)
(* ===================================================================== *)

Module Metadata.
Import JsStr Regex.

(** [/[^\w\s-]/g] *)
Definition re_not_word_space_hyphen : regex :=
  re1 [one (fun c => negb (is_word c || is_space c || ch "-" c))].

(** [/[\s_-]+/g] *)
Definition re_separators : regex :=
  re1 [plus (fun c => is_space c || ch "_" c || ch "-" c)].

(** [/^-+|-+$/g] *)
Definition re_edge_hyphens : regex :=
  mkRegex [[Bol; plus (ch "-")]; [plus (ch "-"); Eol]] false.

Definition generateSlug (title : string) : string :=
  let s := trim (toLowerCase title) in
  let s := replace_all s re_not_word_space_hyphen EmptyString in
  let s := replace_all s re_separators "-" in
  replace_all s re_edge_hyphens EmptyString.

(** [maxLength] is at least 3 at every call site. *)
Definition truncateText (text : string) (maxLength : nat) : string :=
  if String.length text <=? maxLength then text
  else trim (slice0 (maxLength - 3) text) +:+ "...".

Definition generateMetaTitle (title : string) : string :=
  let suffix := " | Pretty's Perspectives" in
  let maxTitleLength := 60 - String.length suffix in
  truncateText title maxTitleLength +:+ suffix.

Definition generateMetaDescription (excerpt : string) : string :=
  truncateText excerpt 155.

(** [/<[^>]*>/g] *)
Definition re_tag : regex := re1 [one (ch "<"); star (noneof ">"); one (ch ">")].

(** [/\s+/g] *)
Definition re_spaces : regex := re1 [plus is_space].


(** [/[^a-z0-9\s-]/g] *)
Definition re_not_tag_char : regex :=
  re1 [one (fun c => negb (is_lower c || is_digit c || is_space c || ch "-" c))].

Definition normalizeTags (tags : list string) : list string :=
  List.filter (fun tag => 0 <? String.length tag)
    (map (fun tag =>
            replace_all
              (replace_all (trim (toLowerCase tag)) re_not_tag_char EmptyString)
              re_spaces "-")
         tags).

End Metadata.

Declare Scope result_scope.
Delimit Scope result_scope with result.
Notation "x <- m ;; k" := (Js.rbind m (fun x => k))
  (at level 100, m at next level, right associativity) : result_scope.

(* ===================================================================== *)
(** ** Shared record types (types/index) *)
(* ===================================================================== *)

(** An [Article] object.  Its fields hold whatever the caller stored: the
    type annotations are erased at run time. *)
Module Article.
Import Js.
Record t : Type := mk {
  title : JsVal;
  slug : JsVal;
  html : JsVal;
  excerpt : JsVal;
  tags : JsVal;
  metaTitle : JsVal;
  metaDescription : JsVal;
  featureImage : JsVal;
  status : JsVal
}.
Definition set_title (v : JsVal) (a : t) : t :=
  mk v (slug a) (html a) (excerpt a) (tags a) (metaTitle a) (metaDescription a)
     (featureImage a) (status a).
Definition set_slug (v : JsVal) (a : t) : t :=
  mk (title a) v (html a) (excerpt a) (tags a) (metaTitle a) (metaDescription a)
     (featureImage a) (status a).
Definition set_html (v : JsVal) (a : t) : t :=
  mk (title a) (slug a) v (excerpt a) (tags a) (metaTitle a) (metaDescription a)
     (featureImage a) (status a).
Definition set_tags (v : JsVal) (a : t) : t :=
  mk (title a) (slug a) (html a) (excerpt a) v (metaTitle a) (metaDescription a)
     (featureImage a) (status a).
Definition set_metaTitle (v : JsVal) (a : t) : t :=
  mk (title a) (slug a) (html a) (excerpt a) (tags a) v (metaDescription a)
     (featureImage a) (status a).
Definition set_metaDescription (v : JsVal) (a : t) : t :=
  mk (title a) (slug a) (html a) (excerpt a) (tags a) (metaTitle a) v
     (featureImage a) (status a).
End Article.

Module ArticleGenerationResult.
Record t : Type := mk {
  article : Article.t;
  suggestedTags : list string;
  metaTitle : string;
  metaDescription : string;
  excerpt : string
}.
Definition set_article (a : Article.t) (r : t) : t :=
  mk a (suggestedTags r) (metaTitle r) (metaDescription r) (excerpt r).
End ArticleGenerationResult.

Module ExistingArticle.
Record t : Type := mk {
  id : string;
  title : string;
  slug : string;
  publishedAt : option string
}.
End ExistingArticle.

(* ===================================================================== *)
(** ** daily-scheduler: the topic duplicate heuristic *)
(* ===================================================================== *)

Module Scheduler.
Import JsStr Regex.

Definition keyTerms : list string :=
  [ "instagram"; "tiktok"; "social media"; "marketing"; "pricing";
    "client experience"; "vendor relationships"; "wedding photography";
    "wedding planner"; "florist"; "venue"; "videography"; "catering";
    "referrals"; "booking"; "leads"; "seo"; "email marketing";
    "portfolio"; "branding"; "networking"; "collaboration"; "trends";
    "gen z"; "millennial"; "ai tools"; "automation"; "systems" ].

Definition extractKeyPhrases (text : string) : list string :=
  List.filter (fun term => includes text term) keyTerms.

(** [/\s+/] *)
Definition re_spaces : regex := re1 [plus is_space].

(** [s.split(/\s+/).filter(w => w.length > 4)] *)
Definition longWords (s : string) : list string :=
  List.filter (fun w => 4 <? String.length w) (split s re_spaces).

(** [tp === phrase || tp.includes(phrase) || phrase.includes(tp)] *)
Definition phrase_matches (phrase tp : string) : bool :=
  String.eqb tp phrase || includes tp phrase || includes phrase tp.

Definition matchingPhrases (topicKeyPhrases titleKeyPhrases : list string) : list string :=
  List.filter (fun phrase => existsb (phrase_matches phrase) titleKeyPhrases)
              topicKeyPhrases.

Definition wordMatches (topicWords titleWords : list string) : nat :=
  length (List.filter (fun w => mem w titleWords) topicWords).

(** [m / n > 0.6] on doubles, for counts [m <= n] with [0 < n]: the quotient
    of [3k] by [5k] rounds to the very double the literal [0.6] denotes, and
    every other quotient differs from three fifths by at least [1/(5n)], far
    above the rounding error; so the comparison is that of the exact
    fractions, [5m > 3n]. *)
Definition ratio_exceeds_0_6 (m n : nat) : bool := 3 * n <? 5 * m.

(** The body of the loop for one article: [true] when one of the two
    [return true] statements is reached. *)
Definition similarTo (topicLower : string) (topicKeyPhrases : list string)
    (article : ExistingArticle.t) : bool :=
  let titleLower := toLowerCase (ExistingArticle.title article) in
  let titleKeyPhrases := extractKeyPhrases titleLower in
  if 2 <=? length (matchingPhrases topicKeyPhrases titleKeyPhrases) then true
  else
    let topicWords := longWords topicLower in
    let titleWords := longWords titleLower in
    (0 <? length topicWords)
    && ratio_exceeds_0_6 (wordMatches topicWords titleWords) (length topicWords).

Fixpoint coveredBy (topicLower : string) (topicKeyPhrases : list string)
    (existingArticles : list ExistingArticle.t) : bool :=
  match existingArticles with
  | [] => false
  | article :: rest =>
      if similarTo topicLower topicKeyPhrases article then true
      else coveredBy topicLower topicKeyPhrases rest
  end.

Definition isTopicAlreadyCovered (topic : string)
    (existingArticles : list ExistingArticle.t) : bool :=
  let topicLower := toLowerCase topic in
  let topicKeyPhrases := extractKeyPhrases topicLower in
  coveredBy topicLower topicKeyPhrases existingArticles.

(** [researchCurrentTrends]: the choice of the search query.  The week
    number is a natural number (the counter of the runs): [weekNumber / 2]
    is then a whole number or a whole number and a half, and
    [Math.floor((weekNumber / 2) % queries.length)] is the integer quotient
    taken modulo the number of queries. *)
Definition generalQueries : list string :=
  [ "wedding industry marketing trends 2026";
    "Instagram algorithm changes wedding vendors 2026";
    "TikTok wedding business growth strategies";
    "wedding vendor SEO updates 2026";
    "AI tools for wedding professionals";
    "wedding client communication apps trends" ].

Definition vendorQueries : list string :=
  [ "wedding photography business trends 2026";
    "wedding planner software tools new";
    "florist business sustainability trends weddings";
    "wedding venue marketing digital strategies";
    "videography trends wedding films 2026" ].

Definition isVendorSpecificWeek (weekNumber : nat) : bool := weekNumber mod 2 =? 0.

Definition queries (weekNumber : nat) : list string :=
  if isVendorSpecificWeek weekNumber then vendorQueries else generalQueries.

Definition queryIndex (weekNumber : nat) : nat :=
  (weekNumber / 2) mod length (queries weekNumber).

(** [queries[queryIndex]]: [None] stands for [undefined]. *)
Definition query (weekNumber : nat) : option string :=
  nth_error (queries weekNumber) (queryIndex weekNumber).

End Scheduler.

(* ===================================================================== *)
(** ** daily-scheduler: matching ideas and interviews with articles *)
(* ===================================================================== *)

Module DailyScheduler.
Import JsStr Regex.

(** [/[()]/g] *)
Definition re_parens : regex := re1 [one (oneof "()")].

(** The class of the hyphen, the en dash and the em dash, under the flag
    [g]: of the three, the hyphen is the one among the 8-bit characters. *)
Definition re_dashes : regex := re1 [one (ch "-")].

(** [/\s+/] *)
Definition re_spaces : regex := re1 [plus is_space].

Definition stopWords : list string :=
  [ "piece"; "on"; "about"; "the"; "a"; "an"; "for"; "and"; "or"; "article" ].

Definition extractIdeaKeyTerms (ideaTitle : string) : list string :=
  let cleaned :=
    toLowerCase (replace_all (replace_all ideaTitle re_parens " ") re_dashes " ") in
  List.filter (fun word => (2 <? String.length word) && negb (mem word stopWords))
              (split cleaned re_spaces).

(** [matchCount >= Math.ceil(ideaKeyTerms.length / 2)] *)
Definition articleMatchesIdea (articleTitle : string) (ideaKeyTerms : list string) : bool :=
  let articleLower := toLowerCase articleTitle in
  let matchCount :=
    length (List.filter (fun term => includes articleLower term) ideaKeyTerms) in
  Nat.div2 (S (length ideaKeyTerms)) <=? matchCount.

Definition articleMatchesInterview (articleTitle : string)
    (interviewKeyTerms : list string) : bool :=
  let articleLower := toLowerCase articleTitle in
  existsb (fun term => includes articleLower term) interviewKeyTerms.

(** The test [hasExistingArticle] of [processNewIdeas] and of
    [processNewInterviews], for the key terms of a title. *)
Definition ideaHasExistingArticle (existingArticles : list ExistingArticle.t)
    (keyTerms : list string) : bool :=
  existsb (fun article => articleMatchesIdea (ExistingArticle.title article) keyTerms)
          existingArticles.

Definition interviewHasExistingArticle (existingArticles : list ExistingArticle.t)
    (keyTerms : list string) : bool :=
  existsb (fun article => articleMatchesInterview (ExistingArticle.title article) keyTerms)
          existingArticles.

End DailyScheduler.

(* ===================================================================== *)
(** ** services/ai: the response parser *)
(* ===================================================================== *)

Module Parser.
Import JsStr Regex Js.
Local Open Scope result_scope.

Definition is_quote (c : ascii) : bool := Ascii.eqb c dquote || Ascii.eqb c squote.
(** The class excluding both quote characters and the line feed. *)
Definition not_quote_nl (c : ascii) : bool := negb (is_quote c || Ascii.eqb c LF).
(** The class of both quote characters and the asterisk. *)
Definition is_quote_star (c : ascii) : bool := is_quote c || ch "*" c.

(** The common tail of the label patterns: white space, an optional quote
    character, the captured run of characters that are neither quotes nor
    line feeds, an optional quote character. *)
Definition label_value : seq :=
  [star is_space; opt is_quote; GOpen; plus not_quote_nl; GClose; opt is_quote].

(** [/```html\s*([\s\S]*?)```/] *)
Definition re_html_fence : regex :=
  re1 (lits "```html" ++ [star is_space; GOpen; star_lazy any; GClose] ++ lits "```").

(** [/<[^>]+>[\s\S]*<\/[^>]+>/] *)
Definition re_html_direct : regex :=
  re1 [one (ch "<"); plus (noneof ">"); one (ch ">"); star any;
       one (ch "<"); one (ch "/"); plus (noneof ">"); one (ch ">")].

(** The four entries of [titlePatterns]. *)
Definition re_title_bold : regex :=
  re1 (litsi "**Title" ++ [star (oneof ":*")] ++ lits "**" ++ label_value).
Definition re_title_label : regex :=
  re1 (litsi "Title:" ++ label_value).
Definition re_title_heading : regex :=
  mkRegex [[Bol; one (ch "#"); plus is_space; GOpen; plus dot; GClose; Eol]] true.
Definition re_title_suggested : regex :=
  re1 (litsi "Suggested " ++ [one (chi "t")] ++ litsi "itle:" ++ label_value).

Definition titlePatterns : list regex :=
  [re_title_bold; re_title_label; re_title_heading; re_title_suggested].

(** [/<h1[^>]*>(.*?)<\/h1>/i] and [/<h2[^>]*>(.*?)<\/h2>/i] *)
Definition re_heading (level : string) : regex :=
  re1 (litsi ("<h" +:+ level) ++ [star (noneof ">"); one (ch ">");
       GOpen; star_lazy dot; GClose] ++ litsi ("</h" +:+ level +:+ ">")).
Definition re_h1 : regex := re_heading "1".
Definition re_h2 : regex := re_heading "2".

(** [/<[^>]*>/g] *)
Definition re_tag : regex := re1 [one (ch "<"); star (noneof ">"); one (ch ">")].

(** [/\*\*([A-Z][^*\n]{10,80})\*\*/] *)
Definition re_strong : regex :=
  re1 (lits "**" ++ [GOpen; one is_upper;
       Rep (fun c => negb (ch "*" c || Ascii.eqb c LF)) 10 (Some 80) true; GClose]
       ++ lits "**").

(** The three edge-stripping patterns: leading or trailing asterisks, one
    leading or trailing quote character, leading or trailing quote
    characters and asterisks. *)
Definition re_edge_stars : regex :=
  mkRegex [[Bol; plus (ch "*")]; [plus (ch "*"); Eol]] false.
Definition re_edge_quote : regex :=
  mkRegex [[Bol; one is_quote]; [one is_quote; Eol]] false.
Definition re_edge_quote_stars : regex :=
  mkRegex [[Bol; plus is_quote_star]; [plus is_quote_star; Eol]] false.

(** A backslash followed by the character [c]. *)
Definition re_escaped (c : ascii) : regex := re1 [one (ch backslash); one (ch c)].

(** [/Tags?:\s*(.+)/i] *)
Definition re_tags : regex :=
  re1 (litsi "Tag" ++ [opt (chi "s"); one (ch ":"); star is_space;
       GOpen; plus dot; GClose]).

Definition metaPatterns : list regex :=
  [ re1 (litsi "Meta" ++ [star is_space; one (chi "d")] ++ litsi "escription:"
         ++ label_value);
    re1 (litsi "**Meta " ++ [one (chi "d")] ++ litsi "escription"
         ++ [star (oneof ":*")] ++ lits "**" ++ label_value) ].

Definition excerptPatterns : list regex :=
  [ re1 (litsi "Excerpt:" ++ label_value);
    re1 (litsi "**Excerpt" ++ [star (oneof ":*")] ++ lits "**" ++ label_value);
    re1 (litsi "Custom " ++ [one (chi "e")] ++ litsi "xcerpt:" ++ label_value) ].

(** [match[1]] used as the receiver of a string method: a TypeError when
    the group did not take part in the match. *)
Definition group1 (m : MatchResult) : Result string :=
  string_receiver (opt_str (m1 m)) "trim".

(** The HTML body: the fenced block, else the first tag span. *)
Definition extractHtml (text : string) : Result string :=
  match js_match text re_html_fence with
  | Some htmlMatch => g <- group1 htmlMatch ;; Ok (trim g)
  | None =>
      match js_match text re_html_direct with
      | Some directHtmlMatch => Ok (m0 directHtmlMatch)
      | None => Ok EmptyString
      end
  end.

(** The [for] loop over [titlePatterns]: the first pattern that matches
    with a capture that is not blank sets the title and breaks. *)
Fixpoint labelledTitle (patterns : list regex) (text : string) : Result string :=
  match patterns with
  | [] => Ok EmptyString
  | pattern :: rest =>
      match js_match text pattern with
      | Some m =>
          g <- group1 m ;;
          if JsStr.truthy (trim g)
          then Ok (replace_all (replace_all (trim g) re_edge_stars EmptyString)
                               re_edge_quote EmptyString)
          else labelledTitle rest text
      | None => labelledTitle rest text
      end
  end.

(** [hMatch[1].replace(/<[^>]*>/g, '').trim()] for a heading of the HTML. *)
Definition headingTitle (re : regex) (html : string) : Result (option string) :=
  match js_match html re with
  | Some m => g <- group1 m ;; Ok (Some (trim (replace_all g re_tag EmptyString)))
  | None => Ok None
  end.

Definition strongTitle (text : string) : Result (option string) :=
  match js_match text re_strong with
  | Some m => g <- group1 m ;; Ok (Some (trim g))
  | None => Ok None
  end.

(** [if (!title) { const m = ...; if (m) { title = ... } }] *)
Definition orFallback (title : string) (fallback : Result (option string))
    : Result string :=
  if JsStr.truthy title then Ok title
  else
    found <- fallback ;;
    match found with
    | Some t => Ok t
    | None => Ok title
    end.

(** The title before the final clean-up: the labelled patterns, then the
    first [h1] of the HTML, then a bold phrase of the text, then the first
    [h2] of the HTML. *)
Definition rawTitle (text html : string) : Result string :=
  title <- labelledTitle titlePatterns text ;;
  title <- orFallback title (headingTitle re_h1 html) ;;
  title <- orFallback title (strongTitle text) ;;
  orFallback title (headingTitle re_h2 html).

Definition cleanTitle (title : string) : string :=
  trim (replace_all (replace_all title re_edge_quote_stars EmptyString)
                    (re_escaped dquote) (String dquote EmptyString)).

Definition cleanHtml (html : string) : string :=
  let html := replace_all html (re_escaped dquote) (String dquote EmptyString) in
  let html := replace_all html (re_escaped squote) (String squote EmptyString) in
  let html := replace_all html (re_escaped "_") "_" in
  let html := replace_all html (re_escaped "*") "*" in
  let html := replace_all html (re_escaped "n") (String LF EmptyString) in
  let html := replace_all html (re1 (lits "&amp;quot;")) (String dquote EmptyString) in
  replace_all html (re1 (lits "&amp;#39;")) (String squote EmptyString).

Definition cleanTag (t : string) : string :=
  trim (replace_all (toLowerCase (trim t)) re_edge_quote_stars EmptyString).

Definition extractTags (text : string) : Result (list string) :=
  match js_match text re_tags with
  | Some tagsMatch =>
      g <- group1 tagsMatch ;;
      Ok (List.filter (fun t => 0 <? String.length t)
            (map cleanTag (split g (re1 [one (ch ",")]))))
  | None => Ok []
  end.

(** The loops over [metaPatterns] and [excerptPatterns]: the first pattern
    that matches sets the field and breaks. *)
Fixpoint firstLabel (patterns : list regex) (post : string -> string)
    (text : string) : Result string :=
  match patterns with
  | [] => Ok EmptyString
  | pattern :: rest =>
      match js_match text pattern with
      | Some m => g <- group1 m ;; Ok (post (trim g))
      | None => firstLabel rest post text
      end
  end.

(** [.replace(/^\*+|\*+$/g, '').trim()] on the trimmed capture. *)
Definition cleanExcerpt (s : string) : string :=
  trim (replace_all s re_edge_stars EmptyString).

Definition parseArticleResponse (text : string) : Result ArticleGenerationResult.t :=
  html <- extractHtml text ;;
  title <- rawTitle text html ;;
  let title := cleanTitle title in
  let html := cleanHtml html in
  suggestedTags <- extractTags text ;;
  metaDescription <- firstLabel metaPatterns (fun s => s) text ;;
  excerpt <- firstLabel excerptPatterns cleanExcerpt text ;;
  let metaTitle :=
    if JsStr.truthy title then title +:+ " | Style Me Pretty" else EmptyString in
  Ok {| ArticleGenerationResult.article :=
          {| Article.title := VStr title;
             Article.slug := VStr EmptyString;
             Article.html := VStr html;
             Article.excerpt := VStr excerpt;
             Article.tags := VArr (map VStr suggestedTags);
             Article.metaTitle := VStr metaTitle;
             Article.metaDescription := VStr metaDescription;
             Article.featureImage := VUndefined;
             Article.status := VStr "draft" |};
        ArticleGenerationResult.suggestedTags := suggestedTags;
        ArticleGenerationResult.metaTitle := metaTitle;
        ArticleGenerationResult.metaDescription := metaDescription;
        ArticleGenerationResult.excerpt := excerpt |}.

End Parser.

(* ===================================================================== *)
(** ** Number conversions of the language *)
(* ===================================================================== *)

Module JsNum.
Import JsStr Js.
Local Open Scope Z_scope.

Fixpoint digits (acc : Z) (s : string) : option Z :=
  match s with
  | EmptyString => Some acc
  | String c r =>
      if is_digit c then digits (10 * acc + Z.of_nat (code c - 48)) r else None
  end.

(** StringToNumber on the integers: the trimmed string is empty (zero) or
    an optionally signed run of decimal digits; anything else is NaN,
    [None]. *)
Definition stringToNumber (s : string) : option Z :=
  match trim s with
  | EmptyString => Some 0
  | String c r =>
      if Ascii.eqb c "-" then
        match r with EmptyString => None | _ => option_map Z.opp (digits 0 r) end
      else if Ascii.eqb c "+" then
        match r with EmptyString => None | _ => digits 0 r end
      else digits 0 (String c r)
  end.

(** ToNumber; [None] is NaN. *)
Definition toNumber (v : JsVal) : option Z :=
  match v with
  | VUndefined => None
  | VNull => Some 0
  | VBool b => Some (if b then 1 else 0)
  | VNum n => Some n
  | VStr s => stringToNumber s
  | VArr _ => stringToNumber (toString v)
  | VObj _ => None
  end.

(** [v > 0] *)
Definition gt_zero (v : JsVal) : bool :=
  match toNumber v with Some n => 0 <? n | None => false end.

(** ToIntegerOrInfinity. *)
Definition toInteger (v : JsVal) : Z :=
  match toNumber v with Some n => n | None => 0 end.

(** [l.slice(0, end)] *)
Definition slice_to {A} (l : list A) (e : JsVal) : list A :=
  let n := toInteger e in
  if n <? 0 then take (Z.to_nat (Z.of_nat (length l) + n)) l
  else take (Z.to_nat n) l.

(** [v.length] of a value that is not [undefined] or [null]. *)
Definition length_of (v : JsVal) : JsVal :=
  match v with
  | VStr s => VNum (Z.of_nat (String.length s))
  | VArr l => VNum (Z.of_nat (length l))
  | VObj fs => field fs "length"
  | _ => VUndefined
  end.

Definition nat_to_string (n : nat) : string := Z_to_string (Z.of_nat n).

End JsNum.

(* ===================================================================== *)
(** ** Messages of the model API, and records of the collaborators *)
(* ===================================================================== *)

Module Anthropic.
Import Js.

Inductive ContentBlock : Type :=
| TextBlock (text : string)
| ToolUseBlock (id name : string) (input : gmap string JsVal)
| OtherBlock (type : string).

(** [is_error] is [None] when the property is absent. *)
Record ToolResultBlockParam : Type := mkToolResult {
  tool_use_id : string;
  content : string;
  is_error : option bool
}.

Inductive Role : Type := user | assistant.

Inductive MessageContent : Type :=
| Text (s : string)
| Blocks (l : list ContentBlock)
| ToolResults (l : list ToolResultBlockParam).

Record MessageParam : Type := mkMessage {
  role : Role;
  body : MessageContent
}.

Record Message : Type := mkResponse {
  stop_reason : string;
  blocks : list ContentBlock
}.

End Anthropic.

Module Interview.
Record t : Type := mk {
  id : string;
  title : string;
  content : string;
  vendorName : option string;
  vendorType : option string;
  createdAt : option string   (* the date, as [toLocaleDateString] prints it *)
}.
End Interview.

Module ArticleIdea.
Record t : Type := mk {
  id : string;
  title : string;
  content : string;
  createdAt : option string
}.
End ArticleIdea.

Module ResearchResult.
Record t : Type := mk {
  title : string;
  url : string;
  snippet : string;
  source : string
}.
End ResearchResult.

Module Post.
Record t : Type := mk {
  id : string;
  title : string;
  slug : string;
  published_at : option string;
  url : string
}.
End Post.

(* ===================================================================== *)
(** ** The collaborators and the effect monad *)
(* ===================================================================== *)

Module Eff.
Import Js.

(** The services outside the core: each operation acts on the state [Ext]
    of the outside world and settles with a value or an error.

    - the document store (services/google-docs over the Drive and Docs
      clients);
    - the Ghost Admin API client: [posts_browse_pages] is the finite
      sequence of pages that the successive [posts.browse] calls of the
      page loop return, up to the first page without a next page;
    - the search request of [searchWeb] (the [fetch] call and the mapping
      and filtering of its response);
    - [messages_create], the model call of the agent loop;
    - [generate_content], the one-shot model call of services/ai for a
      prompt template and its substitutions: the first content block of
      the response;
    - [analyze_themes], the model call of [analyzeInterviewsForThemes] up
      to the parsed array of themes;
    - [sanitizeBlockedLinks] of utils/blocklist, over the blocklist file. *)
Class Collaborators : Type := {
  Ext : Type;
  listInterviews : JsVal -> Ext -> Result (list Interview.t) * Ext;
  getInterview : JsVal -> Ext -> Result Interview.t * Ext;
  listArticleIdeas : JsVal -> Ext -> Result (list ArticleIdea.t) * Ext;
  getIdea : JsVal -> Ext -> Result ArticleIdea.t * Ext;
  getAllInterviewsWithContent : JsVal -> Ext -> Result (list Interview.t) * Ext;
  posts_browse_pages : Ext -> Result (list (list Post.t)) * Ext;
  posts_add : list (string * JsVal) -> Ext -> Result Post.t * Ext;
  search_request : JsVal -> JsVal -> Ext -> Result (list ResearchResult.t) * Ext;
  messages_create : list Anthropic.MessageParam -> Ext -> Result Anthropic.Message * Ext;
  generate_content : string -> list JsVal -> Ext -> Result Anthropic.ContentBlock * Ext;
  analyze_themes : list Interview.t -> Ext -> Result (list JsVal) * Ext;
  sanitizeBlockedLinks : string -> string
}.

(** What the core asks of the collaborators, in order; a model call is
    recorded with the conversation sent and the way the call settled. *)
Inductive Event : Type :=
| EvModel (messages : list Anthropic.MessageParam) (outcome : Result Anthropic.Message)
| EvPostsAdd (postData : list (string * JsVal))
| EvCall (operation : string) (args : list JsVal).

Section Monad.
Context `{Collaborators}.

(** The module-level variables of the services, the environment, the
    outside world and the record of the calls made. *)
Record State : Type := mkState {
  ext : Ext;
  ghostClient : bool;                (* [ghostClient !== null] *)
  anthropicClient : bool;            (* [anthropicClient !== null] *)
  tavilyApiKey : option string;
  GOOGLE_IDEAS_FOLDER_ID : option string;
  log : list Event
}.

Definition M (A : Type) : Type := State -> Result A * State.

Definition ret {A} (a : A) : M A := fun s => (Ok a, s).
Definition throw {A} (e : JsError) : M A := fun s => (Throw e, s).

Definition bind {A B} (m : M A) (f : A -> M B) : M B :=
  fun s =>
    match m s with
    | (Ok a, s') => f a s'
    | (Throw e, s') => (Throw e, s')
    end.

(** [try { m } catch (error) { h error }] *)
Definition catch {A} (m : M A) (h : JsError -> M A) : M A :=
  fun s =>
    match m s with
    | (Ok a, s') => (Ok a, s')
    | (Throw e, s') => h e s'
    end.

Definition lift {A} (r : Result A) : M A := fun s => (r, s).

Definition gets {A} (f : State -> A) : M A := fun s => (Ok (f s), s).

(** A call to a collaborator: recorded, then settled by the outside
    world. *)
Definition perform {A} (ev : Event) (op : Ext -> Result A * Ext) : M A :=
  fun s =>
    let (r, e') := op (ext s) in
    (r, mkState e' (ghostClient s) (anthropicClient s) (tavilyApiKey s)
                (GOOGLE_IDEAS_FOLDER_ID s) (log s ++ [ev])).

End Monad.

End Eff.

Declare Scope eff_scope.
Delimit Scope eff_scope with eff.
Notation "x <- m ;; k" := (Eff.bind m (fun x => k))
  (at level 100, m at next level, right associativity) : eff_scope.

(* ===================================================================== *)
(** ** services/ghost *)
(* ===================================================================== *)

Module DuplicateCheckResult.
Record t : Type := mk {
  exactMatch : bool;
  similarArticles : list ExistingArticle.t
}.
End DuplicateCheckResult.

Module Ghost.
Import JsStr Js JsNum Eff.
Local Open Scope eff_scope.

Section WithCollaborators.
Context `{Collaborators}.

Definition toExisting (post : Post.t) : ExistingArticle.t :=
  {| ExistingArticle.id := Post.id post;
     ExistingArticle.title := Post.title post;
     ExistingArticle.slug := Post.slug post;
     ExistingArticle.publishedAt := Post.published_at post |}.

(** The page loop pushes the posts of each page in turn; an error of the
    client is logged and thrown again. *)
Definition getExistingArticles : M (list ExistingArticle.t) :=
  client <- gets ghostClient ;;
  if negb client then throw (Error "Ghost client not initialized")
  else
    catch
      (pages <- perform (EvCall "ghost.posts.browse" []) posts_browse_pages ;;
       ret (map toExisting (concat pages)))
      (fun error => throw error).

(** The two tests of [checkArticleExists] over the fetched articles. *)
Definition isExact (slug lowerTitle : string) (article : ExistingArticle.t) : bool :=
  String.eqb (ExistingArticle.slug article) slug
  || String.eqb (toLowerCase (ExistingArticle.title article)) lowerTitle.

Definition isSimilar (lowerTitle : string) (article : ExistingArticle.t) : bool :=
  includes (toLowerCase (ExistingArticle.title article)) lowerTitle
  || includes lowerTitle (toLowerCase (ExistingArticle.title article)).

Definition duplicateCheck (articles : list ExistingArticle.t) (title : string)
    : DuplicateCheckResult.t :=
  let slug := Metadata.generateSlug title in
  let lowerTitle := toLowerCase title in
  {| DuplicateCheckResult.exactMatch := existsb (isExact slug lowerTitle) articles;
     DuplicateCheckResult.similarArticles := List.filter (isSimilar lowerTitle) articles |}.

(** [title] is whatever value the caller passed: [generateSlug] calls
    [title.toLowerCase()] on it first. *)
Definition checkArticleExists (title : JsVal) : M DuplicateCheckResult.t :=
  articles <- getExistingArticles ;;
  t <- lift (string_receiver title "toLowerCase") ;;
  ret (duplicateCheck articles t).

(** [article.slug || generateSlug(article.title)] *)
Definition slugOf (article : Article.t) : Result JsVal :=
  if truthy (Article.slug article) then Ok (Article.slug article)
  else rbind (string_receiver (Article.title article) "toLowerCase")
             (fun t => Ok (VStr (Metadata.generateSlug t))).

Definition optionalField (key : string) (v : JsVal) : list (string * JsVal) :=
  if truthy v then [(key, v)] else [].

(** [article.tags && article.tags.length > 0], then [article.tags.map]. *)
Definition tagsField (tags : JsVal) : Result (list (string * JsVal)) :=
  if truthy tags && gt_zero (length_of tags) then
    match tags with
    | VArr l => Ok [("tags", VArr (map (fun tag => VObj [("name", tag)]) l))]
    | _ => Throw (TypeError "article.tags.map is not a function")
    end
  else Ok [].

Definition buildPostData (article : Article.t) : Result (list (string * JsVal)) :=
  rbind (slugOf article) (fun slug =>
  rbind (tagsField (Article.tags article)) (fun tags =>
  Ok ([ ("title", Article.title article);
        ("slug", slug);
        ("html", Article.html article);
        ("status", VStr "draft") ]
      ++ optionalField "custom_excerpt" (Article.excerpt article)
      ++ optionalField "meta_title" (Article.metaTitle article)
      ++ optionalField "meta_description" (Article.metaDescription article)
      ++ optionalField "feature_image" (Article.featureImage article)
      ++ tags))).

Definition createDraftArticle (article : Article.t) : M (string * string) :=
  client <- gets ghostClient ;;
  if negb client then throw (Error "Ghost client not initialized")
  else
    postData <- lift (buildPostData article) ;;
    post <- perform (EvPostsAdd postData) (posts_add postData) ;;
    ret (Post.id post, Post.url post).

(** [lowerQuery.replace(/\s+/g, '-')] *)
Definition searchExistingArticles (query : JsVal) : M (list ExistingArticle.t) :=
  articles <- getExistingArticles ;;
  q <- lift (string_receiver query "toLowerCase") ;;
  let lowerQuery := toLowerCase q in
  ret (List.filter
         (fun article =>
            includes (toLowerCase (ExistingArticle.title article)) lowerQuery
            || includes (ExistingArticle.slug article)
                 (Regex.replace_all lowerQuery Scheduler.re_spaces "-"))
         articles).

End WithCollaborators.
End Ghost.

(* ===================================================================== *)
(** ** services/research *)
(* ===================================================================== *)

Module Research.
Import JsStr Js JsNum Eff.
Local Open Scope eff_scope.

Section WithCollaborators.
Context `{Collaborators}.

Definition isResearchAvailable : M bool :=
  gets (fun s => match tavilyApiKey s with Some _ => true | None => false end).

(** Without a key the search is skipped; a failed request is logged and
    yields no results. *)
Definition searchWeb (query maxResults : JsVal) : M (list ResearchResult.t) :=
  available <- isResearchAvailable ;;
  if negb available then ret []
  else
    catch (perform (EvCall "tavily.search" [query; maxResults])
                   (search_request query maxResults))
          (fun _ => ret []).

Fixpoint sources (i : nat) (results : list ResearchResult.t) : list string :=
  match results with
  | [] => []
  | r :: rest =>
      ("[Source " +:+ nat_to_string (i + 1) +:+ ": " +:+ ResearchResult.source r
       +:+ "] (" +:+ ResearchResult.url r +:+ ")" +:+ String LF
       (ResearchResult.title r +:+ String LF (ResearchResult.snippet r)))
      :: sources (S i) rest
  end.

Definition separator : string :=
  String LF (String LF ("---" +:+ String LF (String LF EmptyString))).

Definition researchTopic (topic : JsVal) : M string :=
  results <- searchWeb topic (VNum 5) ;;
  match results with
  | [] => ret "No research results available."
  | _ =>
      ret ("Research findings on " +:+ String dquote (toString topic)
           +:+ String dquote (":" +:+ String LF (String LF
                 (join separator (sources 0 results)))))
  end.

End WithCollaborators.
End Research.

(* ===================================================================== *)
(** ** strands-agent/agent: tool registry, tool executor, agent loop *)
(* ===================================================================== *)

Module Agent.
Import JsStr Js JsNum Eff Anthropic.
Local Open Scope eff_scope.

(** An entry of [tools]: the name, the description, the declared
    properties with their types, and the required ones. *)
Record Tool : Type := mkTool {
  name : string;
  description : string;
  properties : list (string * string);
  required : list string
}.

Definition tools : list Tool :=
  [ mkTool "list_interviews"
      "List all interview documents from Google Drive. Returns id, title, vendor name, type, and date for each."
      [] [];
    mkTool "read_interview"
      "Read the full content of a specific interview document by its ID."
      [("documentId", "string")] ["documentId"];
    mkTool "list_articles"
      "List existing articles on the Ghost blog. Returns title, slug, and publish date."
      [("limit", "number")] [];
    mkTool "search_articles"
      "Search existing articles by title or slug to check for duplicates."
      [("query", "string")] ["query"];
    mkTool "check_duplicate"
      "Check if an article with similar title already exists. Returns exact match status and similar articles."
      [("title", "string")] ["title"];
    mkTool "create_draft"
      "Create a draft article in Ghost. Provide the complete HTML content ready to publish."
      [("title", "string"); ("html", "string"); ("excerpt", "string");
       ("metaDescription", "string"); ("tags", "array")]
      ["title"; "html"];
    mkTool "web_search"
      "Search the web for information on a topic. Useful for researching wedding industry trends, statistics, or background information for articles."
      [("query", "string"); ("maxResults", "number")] ["query"];
    mkTool "research_topic"
      "Research a topic and get a formatted summary of findings. Good for gathering background info before writing an article."
      [("topic", "string")] ["topic"];
    mkTool "list_ideas"
      ("List article ideas from the ideas folder in Google Drive. Each idea doc contains a topic/request like "
       +:+ String dquote ("Piece on AI - look for interview quotes" +:+ String dquote "."))
      [] [];
    mkTool "read_idea"
      "Read the full content of an idea document by its ID. The content contains instructions for what article to create."
      [("documentId", "string")] ["documentId"] ].

Definition findTool (n : string) : option Tool :=
  List.find (fun t => String.eqb (name t) n) tools.



(** [input.key]: [undefined] when the property is absent. *)
Definition prop (input : gmap string JsVal) (key : string) : JsVal :=
  default VUndefined (input !! key).

Section WithCollaborators.
Context `{Collaborators}.

Definition articleSummary (a : ExistingArticle.t) : JsVal :=
  VObj [ ("title", VStr (ExistingArticle.title a));
         ("slug", VStr (ExistingArticle.slug a));
         ("publishedAt", opt_str (ExistingArticle.publishedAt a)) ].

Definition executeTool (name : string) (input : gmap string JsVal)
    (folderId : string) (ideasFolderId : option string) : M string :=
  if String.eqb name "list_interviews" then
    interviews <- perform (EvCall "listInterviews" [VStr folderId])
                          (listInterviews (VStr folderId)) ;;
    ret (stringify2 (VArr (map (fun i =>
           VObj [ ("id", VStr (Interview.id i));
                  ("title", VStr (Interview.title i));
                  ("vendorName", opt_str (Interview.vendorName i));
                  ("vendorType", opt_str (Interview.vendorType i));
                  ("createdAt", opt_str (Interview.createdAt i)) ]) interviews)))
  else if String.eqb name "read_interview" then
    interview <- perform (EvCall "getInterview" [prop input "documentId"])
                         (getInterview (prop input "documentId")) ;;
    ret (stringify2 (VObj
           [ ("id", VStr (Interview.id interview));
             ("title", VStr (Interview.title interview));
             ("vendorName", opt_str (Interview.vendorName interview));
             ("vendorType", opt_str (Interview.vendorType interview));
             ("content", VStr (Interview.content interview)) ]))
  else if String.eqb name "list_articles" then
    articles <- Ghost.getExistingArticles ;;
    let limit := or (prop input "limit") (VNum 20) in
    ret (stringify2 (VArr (map articleSummary (slice_to articles limit))))
  else if String.eqb name "search_articles" then
    articles <- Ghost.searchExistingArticles (prop input "query") ;;
    ret (stringify2 (VArr (map articleSummary articles)))
  else if String.eqb name "check_duplicate" then
    check <- Ghost.checkArticleExists (prop input "title") ;;
    ret (stringify2 (VObj
           [ ("exactMatch", VBool (DuplicateCheckResult.exactMatch check));
             ("similarArticles",
              VArr (map (fun a => VStr (ExistingArticle.title a))
                        (take 5 (DuplicateCheckResult.similarArticles check)))) ]))
  else if String.eqb name "create_draft" then
    (* [generateSlug] calls [toLowerCase] on [input.title]: past it, the
       title is a string. *)
    title <- lift (string_receiver (prop input "title") "toLowerCase") ;;
    let slug := Metadata.generateSlug title in
    let metaTitle := Metadata.generateMetaTitle title in
    result <- Ghost.createDraftArticle
                {| Article.title := VStr title;
                   Article.slug := VStr slug;
                   Article.html := prop input "html";
                   Article.excerpt := prop input "excerpt";
                   Article.metaTitle := VStr metaTitle;
                   Article.metaDescription := prop input "metaDescription";
                   Article.tags := prop input "tags";
                   Article.featureImage := VUndefined;
                   Article.status := VStr "draft" |} ;;
    ret (stringify2 (VObj
           [ ("success", VBool true);
             ("id", VStr (fst result));
             ("url", VStr (snd result));
             ("message", VStr ("Draft created: " +:+ String dquote title
                               +:+ String dquote EmptyString)) ]))
  else if String.eqb name "web_search" then
    results <- Research.searchWeb (prop input "query")
                                  (or (prop input "maxResults") (VNum 5)) ;;
    ret (stringify2 (VArr (map (fun r =>
           VObj [ ("title", VStr (ResearchResult.title r));
                  ("url", VStr (ResearchResult.url r));
                  ("snippet", VStr (ResearchResult.snippet r));
                  ("source", VStr (ResearchResult.source r)) ]) results)))
  else if String.eqb name "research_topic" then
    Research.researchTopic (prop input "topic")
  else if String.eqb name "list_ideas" then
    envFolder <- gets GOOGLE_IDEAS_FOLDER_ID ;;
    let effectiveIdeasFolderId := or (opt_str ideasFolderId) (opt_str envFolder) in
    if negb (truthy effectiveIdeasFolderId) then
      ret (stringify (VObj [("error", VStr "Ideas folder not configured")]))
    else
      ideas <- perform (EvCall "listArticleIdeas" [effectiveIdeasFolderId])
                       (listArticleIdeas effectiveIdeasFolderId) ;;
      ret (stringify2 (VArr (map (fun i =>
             VObj [ ("id", VStr (ArticleIdea.id i));
                    ("title", VStr (ArticleIdea.title i));
                    ("createdAt", opt_str (ArticleIdea.createdAt i)) ]) ideas)))
  else if String.eqb name "read_idea" then
    idea <- perform (EvCall "getIdea" [prop input "documentId"])
                    (getIdea (prop input "documentId")) ;;
    ret (stringify2 (VObj
           [ ("id", VStr (ArticleIdea.id idea));
             ("title", VStr (ArticleIdea.title idea));
             ("content", VStr (ArticleIdea.content idea)) ]))
  else
    ret (stringify (VObj [("error", VStr ("Unknown tool: " +:+ name))])).

Definition maxIterations : nat := 15.

(** The body of the [for] loop for one content block: a [tool_use] block
    pushes one result, from the [try] or from the [catch]; any other block
    pushes nothing. *)
Definition runBlock (folderId : string) (ideasFolderId : option string)
    (block : ContentBlock) (toolResults : list ToolResultBlockParam)
    : M (list ToolResultBlockParam) :=
  match block with
  | ToolUseBlock id name input =>
      catch
        (result <- executeTool name input folderId ideasFolderId ;;
         ret (toolResults ++ [mkToolResult id result None]))
        (fun error =>
           ret (toolResults ++
                [mkToolResult id ("Error: " +:+ error_message error) (Some true)]))
  | _ => ret toolResults
  end.

Fixpoint runBlocks (folderId : string) (ideasFolderId : option string)
    (assistantContent : list ContentBlock) (toolResults : list ToolResultBlockParam)
    : M (list ToolResultBlockParam) :=
  match assistantContent with
  | [] => ret toolResults
  | block :: rest =>
      toolResults <- runBlock folderId ideasFolderId block toolResults ;;
      runBlocks folderId ideasFolderId rest toolResults
  end.

(** [client.messages.create] with the conversation as it stands. *)
Definition create (messages : list MessageParam) : M Message :=
  fun s =>
    let (r, e') := messages_create messages (ext s) in
    (r, mkState e' (ghostClient s) (anthropicClient s) (tavilyApiKey s)
                (GOOGLE_IDEAS_FOLDER_ID s) (log s ++ [EvModel messages r])).

(** The [while] loop.  [fuel] bounds the recursion; the loop leaves with
    the iteration count, the last response and the conversation, and
    [None] stands for fuel that ran out before the loop condition failed. *)
Fixpoint agentLoop (fuel : nat) (folderId : string) (ideasFolderId : option string)
    (iterations : nat) (response : Message) (messages : list MessageParam)
    : M (option (nat * Message * list MessageParam)) :=
  if String.eqb (stop_reason response) "tool_use" && (iterations <? maxIterations) then
    match fuel with
    | 0 => ret None
    | S fuel' =>
        let iterations := iterations + 1 in
        let assistantContent := blocks response in
        let messages := messages ++ [mkMessage assistant (Blocks assistantContent)] in
        toolResults <- runBlocks folderId ideasFolderId assistantContent [] ;;
        let messages := messages ++ [mkMessage user (ToolResults toolResults)] in
        response <- create messages ;;
        agentLoop fuel' folderId ideasFolderId iterations response messages
    end
  else ret (Some (iterations, response, messages)).

Definition textOf (content : list ContentBlock) : list string :=
  flat_map (fun b => match b with TextBlock t => [t] | _ => [] end) content.

Definition limitNote : string :=
  String LF (String LF "(Note: Agent reached iteration limit)").

Definition finalText (iterations : nat) (response : Message) : string :=
  let finalResponse := join (String LF EmptyString) (textOf (blocks response)) in
  if maxIterations <=? iterations then finalResponse +:+ limitNote
  else finalResponse.

Definition runContentAgent (request : string) (folderId : string)
    (ideasFolderId : option string) : M (option string) :=
  let messages := [mkMessage user (Text request)] in
  response <- create messages ;;
  exit <- agentLoop maxIterations folderId ideasFolderId 0 response messages ;;
  match exit with
  | Some (iterations, response, _) => ret (Some (finalText iterations response))
  | None => ret None
  end.

End WithCollaborators.
End Agent.

(* ===================================================================== *)
(** ** utils/metadata: tag suggestion *)
(* ===================================================================== *)

Module Tags.
Import JsStr.

Definition keywordMap : list (string * string) :=
  [ ("photographer", "photography"); ("photography", "photography");
    ("videographer", "videography"); ("videography", "videography");
    ("planner", "wedding-planning"); ("planning", "wedding-planning");
    ("florist", "florals"); ("flowers", "florals"); ("floral", "florals");
    ("venue", "venues"); ("catering", "catering"); ("caterer", "catering");
    ("dj", "entertainment"); ("band", "entertainment"); ("musician", "entertainment");
    ("makeup", "beauty"); ("hair", "beauty"); ("dress", "fashion");
    ("bridal", "bridal"); ("groom", "groom-style");
    ("invitation", "stationery"); ("stationery", "stationery");
    ("cake", "wedding-cakes"); ("dessert", "desserts"); ("decor", "decor");
    ("design", "design"); ("marketing", "vendor-tips"); ("business", "vendor-tips");
    ("tips", "vendor-tips"); ("advice", "advice") ].

(** [Set.prototype.add] on the insertion-ordered elements. *)
Definition add (x : string) (set : list string) : list string :=
  if mem x set then set else set ++ [x].

(** [[...new Set(l)]] *)
Definition unique (l : list string) : list string :=
  fold_left (fun set x => add x set) l [].

Definition suggestTags (content : string) (vendorType : option string) : list string :=
  let tags := match vendorType with
              | Some v => if JsStr.truthy v then [toLowerCase v] else []
              | None => []
              end in
  let lowerContent := toLowerCase content in
  let tags := fold_left (fun set kv =>
                           if includes lowerContent (fst kv) then add (snd kv) set else set)
                        keywordMap tags in
  take 8 (add "wedding-vendors" tags).

End Tags.

(* ===================================================================== *)
(** ** services/ai: the one-shot article generators *)
(* ===================================================================== *)

Module AI.
Import JsStr Js Eff Anthropic.
Local Open Scope eff_scope.

Section WithCollaborators.
Context `{Collaborators}.

(** The body shared by [generateInterviewArticle], [generateThemeArticle],
    [generateInsightArticle] and [generateSEOArticle]. *)
Definition generateArticle (template : string) (args : list JsVal)
    : M ArticleGenerationResult.t :=
  client <- gets anthropicClient ;;
  if negb client then throw (Error "AI client not initialized")
  else
    content <- perform (EvCall "anthropic.messages.create" (VStr template :: args))
                       (generate_content template args) ;;
    match content with
    | TextBlock text =>
        result <- lift (Parser.parseArticleResponse text) ;;
        let article := ArticleGenerationResult.article result in
        html <- lift (string_receiver (Article.html article) "replace") ;;
        ret (ArticleGenerationResult.set_article
               (Article.set_html (VStr (sanitizeBlockedLinks html)) article) result)
    | _ => throw (Error "Unexpected response type from Claude")
    end.

Fixpoint interviewsText (idx : nat) (interviews : list Interview.t) : list string :=
  match interviews with
  | [] => []
  | i :: rest =>
      ("--- Interview " +:+ JsNum.nat_to_string (idx + 1) +:+ ": "
       +:+ toString (or (opt_str (Interview.vendorName i)) (VStr (Interview.title i)))
       +:+ " ("
       +:+ toString (or (opt_str (Interview.vendorType i)) (VStr "Wedding Professional"))
       +:+ ") ---" +:+ String LF (Interview.content i))
      :: interviewsText (S idx) rest
  end.

Definition generateThemeArticle (interviews : list Interview.t) :=
  generateArticle "theme-roundup"
    [VStr (join (String LF (String LF EmptyString)) (interviewsText 0 interviews))].

Definition generateInsightArticle (insight vendorName researchContext : string) :=
  generateArticle "insight-article" [VStr insight; VStr vendorName; VStr researchContext].

Definition generateSEOArticle (topic : string) (keywords : list string)
    (researchContext : string) :=
  generateArticle "seo-content" [VStr topic; VStr (join ", " keywords); VStr researchContext].

Definition analyzeInterviewsForThemes (interviews : list Interview.t) : M (list JsVal) :=
  client <- gets anthropicClient ;;
  if negb client then throw (Error "AI client not initialized")
  else perform (EvCall "analyzeInterviewsForThemes" []) (analyze_themes interviews).

End WithCollaborators.
End AI.

(* ===================================================================== *)
(** ** generators: insight article, SEO content, theme roundup *)
(* ===================================================================== *)

Module GenResult.
Record t : Type := mk {
  success : bool;
  message : string;
  articleUrl : option string
}.
End GenResult.

Module Generators.
Import JsStr Js JsNum Eff.
Local Open Scope eff_scope.

(** SameValueZero on the values of a [Set]: primitives by value; the
    arrays and objects of a parsed response are distinct references. *)
Definition sameValueZero (a b : JsVal) : bool :=
  match a, b with
  | VUndefined, VUndefined | VNull, VNull => true
  | VBool x, VBool y => Bool.eqb x y
  | VNum x, VNum y => Z.eqb x y
  | VStr x, VStr y => String.eqb x y
  | _, _ => false
  end.

Definition addValue (x : JsVal) (set : list JsVal) : list JsVal :=
  if existsb (sameValueZero x) set then set else set ++ [x].

(** [[...new Set(l)]] *)
Definition uniqueValues (l : list JsVal) : list JsVal :=
  fold_left (fun set x => addValue x set) l [].

Fixpoint chars (s : string) : list JsVal :=
  match s with
  | EmptyString => []
  | String c r => VStr (String c EmptyString) :: chars r
  end.

(** The spread [...v] *)
Definition spread (v : JsVal) : Result (list JsVal) :=
  match v with
  | VArr l => Ok l
  | VStr s => Ok (chars s)
  | _ => Throw (TypeError "value is not iterable")
  end.

(** [[...new Set([...(article.tags || []), ...extra])]] *)
Definition mergeTags (tags : JsVal) (extra : list string) : Result JsVal :=
  rbind (spread (or tags (VArr []))) (fun l =>
  Ok (VArr (uniqueValues (l ++ map VStr extra)))).

(** [article.tags?.join(', ')] inside a template literal. *)
Definition joinTags (tags : JsVal) : string :=
  match tags with
  | VArr l =>
      join ", " (map (fun x => match x with
                               | VUndefined | VNull => EmptyString
                               | _ => toString x
                               end) l)
  | _ => toString VUndefined
  end.

(** The [exists] of the generators: the object that [checkArticleExists]
    resolves to. *)
Definition existingObject (a : ExistingArticle.t) : JsVal :=
  VObj [ ("id", VStr (ExistingArticle.id a));
         ("title", VStr (ExistingArticle.title a));
         ("slug", VStr (ExistingArticle.slug a));
         ("publishedAt", opt_str (ExistingArticle.publishedAt a)) ].

Definition checkObject (r : DuplicateCheckResult.t) : JsVal :=
  VObj [ ("exactMatch", VBool (DuplicateCheckResult.exactMatch r));
         ("similarArticles",
          VArr (map existingObject (DuplicateCheckResult.similarArticles r))) ].

Record GeneratorOptions : Type := mkOptions {
  dryRun : bool;
  verbose : bool
}.

Definition quoted (s : string) : string :=
  String dquote (s +:+ String dquote EmptyString).

(** The metadata steps shared by the three generators:
    [article.slug = generateSlug(slugSource)], then the defaults of
    [metaTitle] and [metaDescription]. *)
Definition enhance (article : Article.t) (slugSource : JsVal) (excerpt : string)
    : Result Article.t :=
  rbind (string_receiver slugSource "toLowerCase") (fun t =>
  let article := Article.set_slug (VStr (Metadata.generateSlug t)) article in
  rbind (if truthy (Article.metaTitle article) then Ok (Article.metaTitle article)
         else rbind (string_receiver (Article.title article) "length")
                    (fun t => Ok (VStr (Metadata.generateMetaTitle t))))
        (fun metaTitle =>
  let article := Article.set_metaTitle metaTitle article in
  let metaDescription :=
    or (Article.metaDescription article) (VStr (Metadata.generateMetaDescription excerpt)) in
  Ok (Article.set_metaDescription metaDescription article))).

Definition extractKeywordsFromTopic (topic : string) : list string :=
  let keywordPatterns : list (string * list string) :=
    [ ("marketing", ["wedding vendor marketing"; "wedding business marketing"; "marketing tips"]);
      ("pricing", ["wedding pricing"; "how to price wedding services"; "wedding vendor pricing"]);
      ("booking", ["booking more weddings"; "wedding leads"; "client booking"]);
      ("portfolio", ["wedding portfolio"; "portfolio tips"; "showcase work"]);
      ("social", ["wedding social media"; "instagram for weddings"; "social media marketing"]);
      ("networking", ["wedding vendor networking"; "wedding industry connections"; "vendor relationships"]);
      ("client", ["wedding client experience"; "client communication"; "client relationships"]);
      ("trends", ["wedding trends"; "wedding industry trends"; "upcoming trends"]) ] in
  let lowerTopic := toLowerCase topic in
  let keywords :=
    flat_map (fun kv => if includes lowerTopic (fst kv) then snd kv else []) keywordPatterns in
  let keywords := keywords ++ [toLowerCase topic] ++ ["wedding vendors"; "wedding business"] in
  take 5 (Tags.unique keywords).

Section WithCollaborators.
Context `{Collaborators}.

Fixpoint searchAll (keywords : list string) : M (list ResearchResult.t) :=
  match keywords with
  | [] => ret []
  | keyword :: rest =>
      results <- Research.searchWeb (VStr keyword) (VNum 3) ;;
      more <- searchAll rest ;;
      ret (results ++ more)
  end.

(** Keep a result when no earlier result has its URL. *)
Fixpoint uniqueByUrl (seen : list string) (l : list ResearchResult.t)
    : list ResearchResult.t :=
  match l with
  | [] => []
  | r :: rest =>
      if mem (ResearchResult.url r) seen then uniqueByUrl seen rest
      else r :: uniqueByUrl (ResearchResult.url r :: seen) rest
  end.

Definition researchKeywords (keywords : list string) : M string :=
  allResults <- searchAll (take 3 keywords) ;;
  match uniqueByUrl [] allResults with
  | [] => ret "No research results available."
  | uniqueResults =>
      ret ("Research findings:" +:+ String LF (String LF
             (join Research.separator (Research.sources 0 (take 8 uniqueResults)))))
  end.

Definition failed (what : string) (error : JsError) : M GenResult.t :=
  ret (GenResult.mk false ("Failed to generate " +:+ what +:+ ": " +:+ error_message error) None).

Definition generateFromInsight (insight vendorName : string)
    (options : GeneratorOptions) : M GenResult.t :=
  catch
    (exists_ <- Ghost.checkArticleExists (VStr (slice0 50 insight)) ;;
     if truthy (checkObject exists_) then
       ret (GenResult.mk false
              "A similar article may already exist. Check Ghost for duplicates." None)
     else
       available <- Research.isResearchAvailable ;;
       researchContext <-
         (if available then Research.researchTopic (VStr insight)
          else ret "No additional research available.") ;;
       result <- AI.generateInsightArticle insight vendorName researchContext ;;
       let article := ArticleGenerationResult.article result in
       article <- lift (enhance article
                          (or (Article.title article) (VStr (slice0 50 insight)))
                          (ArticleGenerationResult.excerpt result)) ;;
       html <- lift (string_receiver (Article.html article) "toLowerCase") ;;
       let autoTags := Tags.suggestTags html None in
       tags <- lift (mergeTags (Article.tags article) (autoTags ++ ["insights"])) ;;
       let article := Article.set_tags tags article in
       if dryRun options then
         ret (GenResult.mk true
                ("[DRY RUN] Would create insight article: "
                 +:+ quoted (toString (Article.title article))
                 +:+ String LF ("Based on insight from " +:+ vendorName
                 +:+ String LF ("Tags: " +:+ joinTags (Article.tags article))))
                None)
       else
         ghostResult <- Ghost.createDraftArticle article ;;
         ret (GenResult.mk true
                ("Created insight article: " +:+ quoted (toString (Article.title article)))
                (Some (snd ghostResult))))
    (failed "insight article").

Definition generateSEOContent (topic : string) (keywords : option (list string))
    (options : GeneratorOptions) : M GenResult.t :=
  catch
    (let targetKeywords :=
       match keywords with
       | Some k => k
       | None => extractKeywordsFromTopic topic
       end in
     exists_ <- Ghost.checkArticleExists (VStr topic) ;;
     if truthy (checkObject exists_) then
       ret (GenResult.mk false
              ("An article about " +:+ quoted topic
               +:+ " may already exist. Check Ghost for duplicates.") None)
     else
       available <- Research.isResearchAvailable ;;
       researchContext <-
         (if available then researchKeywords (topic :: targetKeywords)
          else ret "No additional research available.") ;;
       result <- AI.generateSEOArticle topic targetKeywords researchContext ;;
       let article := ArticleGenerationResult.article result in
       article <- lift (enhance article (or (Article.title article) (VStr topic))
                          (ArticleGenerationResult.excerpt result)) ;;
       html <- lift (string_receiver (Article.html article) "toLowerCase") ;;
       let autoTags := Tags.suggestTags html None in
       let keywordTags :=
         map (fun k => Regex.replace_all (toLowerCase k) Scheduler.re_spaces "-")
             targetKeywords in
       tags <- lift (mergeTags (Article.tags article) (autoTags ++ keywordTags)) ;;
       let article := Article.set_tags tags article in
       if dryRun options then
         ret (GenResult.mk true
                ("[DRY RUN] Would create SEO article: "
                 +:+ quoted (toString (Article.title article))
                 +:+ String LF ("Target keywords: " +:+ join ", " targetKeywords
                 +:+ String LF ("Tags: " +:+ joinTags (Article.tags article))))
                None)
       else
         ghostResult <- Ghost.createDraftArticle article ;;
         ret (GenResult.mk true
                ("Created SEO article: " +:+ quoted (toString (Article.title article)))
                (Some (snd ghostResult))))
    (failed "SEO article").

Definition generateThemeRoundup (folderId : string) (themeFocus : option string)
    (options : GeneratorOptions) : M GenResult.t :=
  catch
    (interviews <- perform (EvCall "getAllInterviewsWithContent" [VStr folderId])
                           (getAllInterviewsWithContent (VStr folderId)) ;;
     if length interviews <? 2 then
       ret (GenResult.mk false "Need at least 2 interviews to create a theme roundup." None)
     else
       (* [None] stands for the early return when no theme was found *)
       theme <-
         (if truthy (opt_str themeFocus) then ret (Some (opt_str themeFocus))
          else
            themes <- AI.analyzeInterviewsForThemes interviews ;;
            match themes with
            | [] => ret None
            | first :: _ => ret (Some first)
            end) ;;
       match theme with
       | None =>
           ret (GenResult.mk false
                  "Could not identify compelling themes from the interviews." None)
       | Some theme =>
           exists_ <- Ghost.checkArticleExists theme ;;
           if truthy (checkObject exists_) then
             ret (GenResult.mk false
                    ("An article about " +:+ quoted (toString theme)
                     +:+ " may already exist. Check Ghost for duplicates.") None)
           else
             result <- AI.generateThemeArticle interviews ;;
             let article := ArticleGenerationResult.article result in
             let article :=
               if truthy (Article.title article) then article
               else Article.set_title theme article in
             article <- lift (enhance article (Article.title article)
                                (ArticleGenerationResult.excerpt result)) ;;
             html <- lift (string_receiver (Article.html article) "toLowerCase") ;;
             let autoTags := Tags.suggestTags html (Some "industry-insights") in
             tags <- lift (mergeTags (Article.tags article) (autoTags ++ ["roundup"])) ;;
             let article := Article.set_tags tags article in
             let count := nat_to_string (length interviews) in
             if dryRun options then
               ret (GenResult.mk true
                      ("[DRY RUN] Would create theme roundup: "
                       +:+ quoted (toString (Article.title article))
                       +:+ String LF ("Based on " +:+ count +:+ " interviews"
                       +:+ String LF ("Tags: " +:+ joinTags (Article.tags article))))
                      None)
             else
               ghostResult <- Ghost.createDraftArticle article ;;
               ret (GenResult.mk true
                      ("Created theme roundup: " +:+ quoted (toString (Article.title article))
                       +:+ " (based on " +:+ count +:+ " interviews)")
                      (Some (snd ghostResult)))
       end)
    (failed "theme roundup").

End WithCollaborators.
End Generators.

(* ===================================================================== *)
(** ** Concrete collaborators for the examples *)
(* ===================================================================== *)

Module Fixtures.
Import JsStr Js Eff Anthropic.

Definition newTopicCorpus : list Post.t :=
  [ Post.mk "p2" "Completely Different Title" "completely-different-title" None
            "https://blog.example/completely-different-title/" ].

(** A model that asks for the tool [toolName] until the conversation holds
    [turns] messages, and then answers [done] with stop reason
    [end_turn]. *)
Definition scriptedModel (toolName : string) (turns : nat)
    (messages : list MessageParam) : Message :=
  if length messages <? turns
  then mkResponse "tool_use"
         [TextBlock "working"; ToolUseBlock "toolu_1" toolName ∅]
  else mkResponse "end_turn" [TextBlock "done"].

(** An outside world without state: a blog holding [posts], no documents,
    a search that finds nothing, and the scripted model. *)
Definition world (posts : list Post.t) (toolName : string) (turns : nat)
    : Collaborators :=
  {| Ext := unit;
     listInterviews := fun _ e => (Ok [], e);
     getInterview := fun _ e => (Throw (Error "File not found"), e);
     listArticleIdeas := fun _ e => (Ok [], e);
     getIdea := fun _ e => (Throw (Error "File not found"), e);
     getAllInterviewsWithContent := fun _ e => (Ok [], e);
     posts_browse_pages := fun e => (Ok [posts], e);
     posts_add := fun postData e =>
       (Ok (Post.mk "p9" "New post" "new-post" None "https://blog.example/p/p9/"), e);
     search_request := fun _ _ e => (Ok [], e);
     messages_create := fun messages e => (Ok (scriptedModel toolName turns messages), e);
     generate_content := fun _ _ e => (Ok (TextBlock "Title: Generated"), e);
     analyze_themes := fun _ e => (Ok [], e);
     sanitizeBlockedLinks := fun html => html |}.

(** Services initialised, no search key, no ideas folder, nothing
    recorded yet. *)
Definition start `{Collaborators} (e : Ext) : State :=
  mkState e true true None None [].

(** The blog of the examples: one article, and a model that asks twice for
    [research_topic] without a topic. *)
Definition blog : Collaborators := world newTopicCorpus "research_topic" 5.
Definition blogStart : @State blog := @start blog tt.
Definition blogWith (events : list Event) : @State blog :=
  @mkState blog tt true true None None events.

(** A model that asks for [list_interviews] in each of its first fifteen
    responses and stops by itself in the sixteenth. *)
Definition persistent : Collaborators := world newTopicCorpus "list_interviews" 31.
Definition persistentStart : @State persistent := @start persistent tt.

(** A model that asks for [list_interviews] in every response. *)
Definition insistent : Collaborators := world newTopicCorpus "list_interviews" 100.
Definition insistentStart : @State insistent := @start insistent tt.

End Fixtures.

(* ===================================================================== *)
(** * Properties *)
(* ===================================================================== *)

(** ** The duplicate matchers *)

Section DuplicateMatchers.
Import JsStr Js Eff.

Lemma isExact_iff (slug lowerTitle : string) (a : ExistingArticle.t) :
  Ghost.isExact slug lowerTitle a = true <->
  ExistingArticle.slug a = slug \/ toLowerCase (ExistingArticle.title a) = lowerTitle.
Proof.
  unfold Ghost.isExact. rewrite orb_true_iff, !String.eqb_eq. reflexivity.
Qed.

Lemma duplicateCheck_exact_iff (articles : list ExistingArticle.t) (title : string) :
  DuplicateCheckResult.exactMatch (Ghost.duplicateCheck articles title) = true <->
  exists a, In a articles /\
    (ExistingArticle.slug a = Metadata.generateSlug title
     \/ toLowerCase (ExistingArticle.title a) = toLowerCase title).
Proof.
  unfold Ghost.duplicateCheck; simpl. rewrite existsb_exists.
  split; intros (a & Hin & Ha); exists a; split; auto; now apply isExact_iff.
Qed.

Lemma filter_none {A} (f : A -> bool) (l : list A) :
  (forall x, In x l -> f x = false) -> List.filter f l = [].
Proof.
  induction l as [|x l IH]; intros Hall; [reflexivity|]. simpl.
  rewrite (Hall x (or_introl eq_refl)). apply IH. intros y Hy. apply Hall. now right.
Qed.

Lemma checkArticleExists_run `{Collaborators} (title : string)
    (articles : list ExistingArticle.t) (s s' : State) :
  Ghost.getExistingArticles s = (Ok articles, s') ->
  Ghost.checkArticleExists (VStr title) s = (Ok (Ghost.duplicateCheck articles title), s').
Proof.
  intros Hget. unfold Ghost.checkArticleExists, bind. rewrite Hget. reflexivity.
Qed.

(** C5.  Over the articles that [getExistingArticles] returns,
    [checkArticleExists] reports an exact match exactly when some article
    has the slug of the candidate or the candidate itself as lower-cased
    title.  The title Sarah Chen Floral Journey matches a corpus that holds
    the slug sarah-chen-floral-journey; New Topic against articles titled
    Completely Different Title (under another slug) gives no exact match
    and no similar article. *)
Theorem checkArticleExists_exact_match `{Collaborators} (title : string)
    (articles : list ExistingArticle.t) (s s' : State) :
  Ghost.getExistingArticles s = (Ok articles, s') ->
  exists r,
    Ghost.checkArticleExists (VStr title) s = (Ok r, s')
    /\ (DuplicateCheckResult.exactMatch r = true <->
        exists a, In a articles /\
          (ExistingArticle.slug a = Metadata.generateSlug title
           \/ toLowerCase (ExistingArticle.title a) = toLowerCase title))
    /\ (title = "Sarah Chen Floral Journey" ->
        (exists a, In a articles /\ ExistingArticle.slug a = "sarah-chen-floral-journey") ->
        DuplicateCheckResult.exactMatch r = true)
    /\ (title = "New Topic" ->
        (forall a, In a articles ->
           ExistingArticle.title a = "Completely Different Title"
           /\ ExistingArticle.slug a <> "new-topic") ->
        DuplicateCheckResult.exactMatch r = false
        /\ DuplicateCheckResult.similarArticles r = []).
Proof.
  intros Hget. exists (Ghost.duplicateCheck articles title).
  split; [now apply checkArticleExists_run|].
  split; [apply duplicateCheck_exact_iff|].
  split.
  - intros -> (a & Hin & Hslug). apply duplicateCheck_exact_iff.
    exists a. split; [assumption|]. left. rewrite Hslug. reflexivity.
  - intros -> Hall. split.
    + destruct (DuplicateCheckResult.exactMatch _) eqn:E; [|reflexivity].
      apply duplicateCheck_exact_iff in E as (a & Hin & Ha).
      destruct (Hall a Hin) as [Ht Hs]. rewrite Ht in Ha.
      destruct Ha as [Ha|Ha]; [|discriminate Ha].
      exfalso. apply Hs. rewrite Ha. reflexivity.
    + unfold Ghost.duplicateCheck; simpl.
      apply filter_none. intros a Hin. destruct (Hall a Hin) as [Ht _].
      unfold Ghost.isSimilar. rewrite Ht. reflexivity.
Qed.

Lemma checkArticleExists_exact_match_witness :
  @Ghost.getExistingArticles Fixtures.blog Fixtures.blogStart
  = (Ok (map Ghost.toExisting Fixtures.newTopicCorpus),
     Fixtures.blogWith [EvCall "ghost.posts.browse" []])
  /\ exists r,
       @Ghost.checkArticleExists Fixtures.blog (VStr "New Topic") Fixtures.blogStart
       = (Ok r, Fixtures.blogWith [EvCall "ghost.posts.browse" []])
       /\ DuplicateCheckResult.exactMatch r = false
       /\ DuplicateCheckResult.similarArticles r = [].
Proof.
  split; [reflexivity|].
  destruct (@checkArticleExists_exact_match Fixtures.blog "New Topic"
              (map Ghost.toExisting Fixtures.newTopicCorpus)
              Fixtures.blogStart
              (Fixtures.blogWith [EvCall "ghost.posts.browse" []])
              eq_refl) as (r & Hrun & _ & _ & Hnew).
  exists r. split; [exact Hrun|].
  apply Hnew; [reflexivity|].
  intros a [<-|[]]. split; [reflexivity|]. simpl. discriminate.
Defined.

End DuplicateMatchers.

(** ** The scheduling heuristic *)

Section TopicHeuristic.
Import JsStr Scheduler.

(** The two tests that [isTopicAlreadyCovered] makes against one title. *)
Definition keyPhraseHit (topic title : string) : Prop :=
  2 <= length (matchingPhrases (extractKeyPhrases (toLowerCase topic))
                               (extractKeyPhrases (toLowerCase title))).

Definition wordOverlapHit (topic title : string) : Prop :=
  let topicWords := longWords (toLowerCase topic) in
  0 < length topicWords
  /\ 3 * length topicWords
     < 5 * wordMatches topicWords (longWords (toLowerCase title)).

Lemma similarTo_iff (topic : string) (a : ExistingArticle.t) :
  similarTo (toLowerCase topic) (extractKeyPhrases (toLowerCase topic)) a = true <->
  keyPhraseHit topic (ExistingArticle.title a)
  \/ wordOverlapHit topic (ExistingArticle.title a).
Proof.
  unfold similarTo, keyPhraseHit, wordOverlapHit, ratio_exceeds_0_6.
  destruct (Nat.leb_spec 2
    (length (matchingPhrases (extractKeyPhrases (toLowerCase topic))
               (extractKeyPhrases (toLowerCase (ExistingArticle.title a)))))) as [Hk|Hk].
  - split; auto.
  - rewrite andb_true_iff, !Nat.ltb_lt. split.
    + intros Hw. right. exact Hw.
    + intros [Hc|Hw]; [lia|exact Hw].
Qed.

Lemma coveredBy_iff (topic : string) (articles : list ExistingArticle.t) :
  coveredBy (toLowerCase topic) (extractKeyPhrases (toLowerCase topic)) articles = true <->
  exists a, In a articles /\
    similarTo (toLowerCase topic) (extractKeyPhrases (toLowerCase topic)) a = true.
Proof.
  induction articles as [|a l IH]; simpl.
  - split; [discriminate|]. intros (a & [] & _).
  - destruct (similarTo _ _ a) eqn:E.
    + split; auto. intros _. exists a. auto.
    + rewrite IH. split.
      * intros (b & Hb & Hs). exists b. auto.
      * intros (b & [<-|Hb] & Hs); [congruence|]. exists b. auto.
Qed.

Lemma two_members_length {A} (x y : A) (l : list A) :
  x <> y -> In x l -> In y l -> 2 <= length l.
Proof.
  intros Hne Hx Hy. destruct l as [|a [|b l]]; simpl in *.
  - destruct Hx.
  - destruct Hx as [<-|[]], Hy as [<-|[]]. now destruct Hne.
  - lia.
Qed.

(** Two different key terms that occur in the topic and in the title are
    two matching key phrases. *)
Lemma shared_terms_hit (topic title t1 t2 : string) :
  t1 <> t2 -> In t1 keyTerms -> In t2 keyTerms ->
  includes (toLowerCase topic) t1 = true -> includes (toLowerCase title) t1 = true ->
  includes (toLowerCase topic) t2 = true -> includes (toLowerCase title) t2 = true ->
  keyPhraseHit topic title.
Proof.
  intros Hne Hk1 Hk2 Ho1 Hi1 Ho2 Hi2. unfold keyPhraseHit.
  assert (Hin : forall t, In t keyTerms ->
            includes (toLowerCase topic) t = true ->
            includes (toLowerCase title) t = true ->
            In t (matchingPhrases (extractKeyPhrases (toLowerCase topic))
                                  (extractKeyPhrases (toLowerCase title)))).
  { intros t Hk Ho Hi. unfold matchingPhrases, extractKeyPhrases.
    apply filter_In. split; [apply filter_In; auto|].
    apply existsb_exists. exists t. split; [apply filter_In; auto|].
    unfold phrase_matches. now rewrite String.eqb_refl. }
  apply (two_members_length t1 t2); auto.
Qed.

(** C6, as the code has it.  A topic is flagged exactly when, against some
    existing title, at least two of its key phrases match a key phrase of
    the title (equal, containing or contained), or more than 0.6 of its
    words longer than 4 characters occur among those of the title.  A topic
    with fewer than two matching key phrases against every title is
    therefore flagged exactly when the word overlap flags it.  A topic that
    shares two different key terms with an existing title is flagged. *)
Theorem isTopicAlreadyCovered_iff (topic : string) (articles : list ExistingArticle.t) :
  (isTopicAlreadyCovered topic articles = true <->
   exists a, In a articles /\
     (keyPhraseHit topic (ExistingArticle.title a)
      \/ wordOverlapHit topic (ExistingArticle.title a)))
  /\ ((forall a, In a articles -> ~ keyPhraseHit topic (ExistingArticle.title a)) ->
      (isTopicAlreadyCovered topic articles = true <->
       exists a, In a articles /\ wordOverlapHit topic (ExistingArticle.title a)))
  /\ (forall a t1 t2,
        In a articles -> t1 <> t2 -> In t1 keyTerms -> In t2 keyTerms ->
        includes (toLowerCase topic) t1 = true ->
        includes (toLowerCase (ExistingArticle.title a)) t1 = true ->
        includes (toLowerCase topic) t2 = true ->
        includes (toLowerCase (ExistingArticle.title a)) t2 = true ->
        isTopicAlreadyCovered topic articles = true).
Proof.
  assert (Hiff : isTopicAlreadyCovered topic articles = true <->
                 exists a, In a articles /\
                   (keyPhraseHit topic (ExistingArticle.title a)
                    \/ wordOverlapHit topic (ExistingArticle.title a))).
  { unfold isTopicAlreadyCovered. rewrite coveredBy_iff.
    split; intros (a & Hin & Ha); exists a; split; auto; now apply similarTo_iff. }
  split; [exact Hiff|]. split.
  - intros Hno. rewrite Hiff. split.
    + intros (a & Hin & [Hk|Hw]); [destruct (Hno a Hin Hk)|]. exists a. auto.
    + intros (a & Hin & Hw). exists a. auto.
  - intros a t1 t2 Hin Hne Hk1 Hk2 Ho1 Hi1 Ho2 Hi2. apply Hiff.
    exists a. split; [exact Hin|]. left. now apply (shared_terms_hit _ _ t1 t2).
Qed.

Definition instagramCorpus : list ExistingArticle.t :=
  [ ExistingArticle.mk "p1" "Pricing your services for Instagram clients"
      "pricing-your-services-for-instagram-clients" None ].

(** C6 as stated fails: the topic shares the single key phrase instagram
    with the one existing title, and is flagged all the same, by the word
    overlap (its one long word occurs in the title). *)
Lemma one_shared_key_phrase_is_flagged :
  matchingPhrases (extractKeyPhrases (toLowerCase "Instagram tips"))
    (extractKeyPhrases (toLowerCase "Pricing your services for Instagram clients"))
  = ["instagram"]
  /\ isTopicAlreadyCovered "Instagram tips" instagramCorpus = true.
Proof. split; reflexivity. Qed.

Lemma isTopicAlreadyCovered_iff_witness :
  (forall a, In a instagramCorpus ->
     ~ keyPhraseHit "Instagram tips" (ExistingArticle.title a))
  /\ (isTopicAlreadyCovered "Instagram tips" instagramCorpus = true <->
      exists a, In a instagramCorpus
                /\ wordOverlapHit "Instagram tips" (ExistingArticle.title a)).
Proof.
  assert (Hno : forall a, In a instagramCorpus ->
                  ~ keyPhraseHit "Instagram tips" (ExistingArticle.title a)).
  { intros a [<-|[]]. unfold keyPhraseHit. vm_compute. lia. }
  split; [exact Hno|].
  exact (proj1 (proj2 (isTopicAlreadyCovered_iff "Instagram tips" instagramCorpus)) Hno).
Defined.

End TopicHeuristic.

(** ** Reasoning about the calls a computation records *)

Section Emits.
Import Js Eff.
Context `{Collaborators}.

(** [emits P Q m]: from any state, [m] only appends events to the record,
    each of them satisfies [P], and the outcome satisfies [Q]. *)
Definition emits {A} (P : Event -> Prop) (Q : Result A -> Prop) (m : M A) : Prop :=
  forall s, exists evs,
    log (m s).2 = log s ++ evs /\ Forall P evs /\ Q (m s).1.

Definition any_outcome {A} : Result A -> Prop := fun _ => True.

Lemma emits_ret {A} P (Q : Result A -> Prop) (a : A) : Q (Ok a) -> emits P Q (ret a).
Proof. intros HQ s. exists []. simpl. rewrite app_nil_r. auto. Qed.

Lemma emits_throw {A} P (Q : Result A -> Prop) e : Q (Throw e) -> emits P Q (throw e).
Proof. intros HQ s. exists []. simpl. rewrite app_nil_r. auto. Qed.

Lemma emits_lift {A} P (Q : Result A -> Prop) (r : Result A) : Q r -> emits P Q (lift r).
Proof. intros HQ s. exists []. simpl. rewrite app_nil_r. auto. Qed.

Lemma emits_gets {A} P (Q : Result A -> Prop) (f : State -> A) :
  (forall s, Q (Ok (f s))) -> emits P Q (gets f).
Proof. intros HQ s. exists []. simpl. rewrite app_nil_r. auto. Qed.

Lemma emits_perform {A} (P : Event -> Prop) (Q : Result A -> Prop) ev
    (op : Ext -> Result A * Ext) :
  P ev -> (forall r, Q r) -> emits P Q (perform ev op).
Proof.
  intros HP HQ s. exists [ev]. unfold perform. destruct (op (ext s)) as [r e'].
  simpl. auto.
Qed.

Lemma emits_bind {A B} P (Q1 : Result A -> Prop) (Q : Result B -> Prop)
    (m : M A) (f : A -> M B) :
  emits P Q1 m ->
  (forall a, Q1 (Ok a) -> emits P Q (f a)) ->
  (forall e, Q1 (Throw e) -> Q (Throw e)) ->
  emits P Q (bind m f).
Proof.
  intros Hm Hf He s. destruct (Hm s) as (evs & Hlog & HP & HQ1).
  unfold bind. destruct (m s) as [[a|e] s1]; simpl in *.
  - destruct (Hf a HQ1 s1) as (evs' & Hlog' & HP' & HQ).
    exists (evs ++ evs'). rewrite Hlog', Hlog, app_assoc.
    split; [reflexivity|]. split; [apply Forall_app; auto|exact HQ].
  - exists evs. auto.
Qed.

Lemma emits_catch {A} P (Q1 Q : Result A -> Prop) (m : M A) (h : JsError -> M A) :
  emits P Q1 m ->
  (forall a, Q1 (Ok a) -> Q (Ok a)) ->
  (forall e, Q1 (Throw e) -> emits P Q (h e)) ->
  emits P Q (catch m h).
Proof.
  intros Hm Hok Hh s. destruct (Hm s) as (evs & Hlog & HP & HQ1).
  unfold catch. destruct (m s) as [[a|e] s1]; simpl in *.
  - exists evs. auto.
  - destruct (Hh e HQ1 s1) as (evs' & Hlog' & HP' & HQ).
    exists (evs ++ evs'). rewrite Hlog', Hlog, app_assoc.
    split; [reflexivity|]. split; [apply Forall_app; auto|exact HQ].
Qed.

Lemma emits_weaken {A} (P P' : Event -> Prop) (Q Q' : Result A -> Prop) (m : M A) :
  (forall ev, P ev -> P' ev) -> (forall r, Q r -> Q' r) ->
  emits P Q m -> emits P' Q' m.
Proof.
  intros HP HQ Hm s. destruct (Hm s) as (evs & Hlog & HPs & HQs).
  exists evs. split; [exact Hlog|]. split; [|auto].
  eapply Forall_impl; eauto.
Qed.

(** The events a tool or a generator may record: never a call of the
    agent loop's model, and a payload for [posts.add] only with the status
    draft. *)
Definition serviceEvent (ev : Event) : Prop :=
  match ev with
  | EvModel _ _ => False
  | EvPostsAdd postData => field postData "status" = VStr "draft"
  | EvCall _ _ => True
  end.

Definition quiet {A} (m : M A) : Prop := emits serviceEvent any_outcome m.

Lemma quiet_ret {A} (a : A) : quiet (ret a).
Proof. now apply emits_ret. Qed.

Lemma quiet_throw {A} e : quiet (@throw _ A e).
Proof. now apply emits_throw. Qed.

Lemma quiet_lift {A} (r : Result A) : quiet (lift r).
Proof. now apply emits_lift. Qed.

Lemma quiet_gets {A} (f : State -> A) : quiet (gets f).
Proof. now apply emits_gets. Qed.

Lemma quiet_call {A} name args (op : Ext -> Result A * Ext) :
  quiet (perform (EvCall name args) op).
Proof. apply emits_perform; [exact I|intros; exact I]. Qed.

Lemma quiet_bind {A B} (m : M A) (f : A -> M B) :
  quiet m -> (forall a, quiet (f a)) -> quiet (bind m f).
Proof.
  intros Hm Hf. eapply emits_bind; [exact Hm| |]; intros; [apply Hf|exact I].
Qed.

Lemma quiet_catch {A} (m : M A) (h : JsError -> M A) :
  quiet m -> (forall e, quiet (h e)) -> quiet (catch m h).
Proof.
  intros Hm Hh. eapply emits_catch; [exact Hm| |]; intros; [exact I|apply Hh].
Qed.

End Emits.

Create HintDb quiet.

#[export] Hint Resolve quiet_ret quiet_throw quiet_lift quiet_gets quiet_call : quiet.

(** One step of a proof that a computation is [quiet]: split a bind, a
    catch, or a case distinction, or close the goal with a known fact. *)
Ltac quiet_step :=
  match goal with
  | |- quiet (Eff.bind _ _) => apply quiet_bind; [|intros]
  | |- quiet (Eff.catch _ _) => apply quiet_catch; [|intros]
  | |- quiet (if ?b then _ else _) => destruct b
  | |- quiet (match ?x with _ => _ end) => destruct x
  | |- quiet _ => solve [auto with quiet]
  end.

Ltac quiet_auto := repeat quiet_step.

(** ** The services record only service events *)

Section Services.
Import Js Eff.
Context `{Collaborators}.

Lemma buildPostData_fields (article : Article.t) (postData : list (string * JsVal)) :
  Ghost.buildPostData article = Ok postData ->
  field postData "status" = VStr "draft"
  /\ field postData "title" = Article.title article
  /\ field postData "html" = Article.html article.
Proof.
  unfold Ghost.buildPostData, rbind.
  destruct (Ghost.slugOf article) as [slug|e]; [|discriminate].
  destruct (Ghost.tagsField (Article.tags article)) as [tags|e]; [|discriminate].
  intros [= <-]. repeat split.
Qed.

Lemma quiet_getExistingArticles : quiet Ghost.getExistingArticles.
Proof. unfold Ghost.getExistingArticles. quiet_auto. Qed.

Lemma quiet_checkArticleExists title : quiet (Ghost.checkArticleExists title).
Proof.
  unfold Ghost.checkArticleExists. pose proof quiet_getExistingArticles. quiet_auto.
Qed.

Lemma quiet_searchExistingArticles query : quiet (Ghost.searchExistingArticles query).
Proof.
  unfold Ghost.searchExistingArticles. pose proof quiet_getExistingArticles. quiet_auto.
Qed.

Lemma quiet_createDraftArticle article : quiet (Ghost.createDraftArticle article).
Proof.
  unfold Ghost.createDraftArticle. quiet_step; [quiet_auto|].
  destruct (negb a); [quiet_auto|].
  eapply emits_bind with (Q1 := fun r => forall pd, r = Ok pd -> serviceEvent (EvPostsAdd pd)).
  - apply emits_lift. intros pd Hpd. simpl. now apply buildPostData_fields in Hpd.
  - intros pd Hpd. apply quiet_bind; [|intros; quiet_auto].
    apply emits_perform; [now apply Hpd|intros; exact I].
  - intros; exact I.
Qed.

Lemma quiet_isResearchAvailable : quiet Research.isResearchAvailable.
Proof. unfold Research.isResearchAvailable. quiet_auto. Qed.

Lemma quiet_searchWeb query maxResults : quiet (Research.searchWeb query maxResults).
Proof.
  unfold Research.searchWeb. pose proof quiet_isResearchAvailable. quiet_auto.
Qed.

Lemma quiet_researchTopic topic : quiet (Research.researchTopic topic).
Proof.
  unfold Research.researchTopic. pose proof (quiet_searchWeb topic (VNum 5)). quiet_auto.
Qed.

End Services.

#[export] Hint Resolve quiet_getExistingArticles quiet_checkArticleExists
  quiet_searchExistingArticles quiet_createDraftArticle quiet_isResearchAvailable
  quiet_searchWeb quiet_researchTopic : quiet.

Section ToolsAndGenerators.
Import Js Eff.
Context `{Collaborators}.

Lemma quiet_executeTool name input folderId ideasFolderId :
  quiet (Agent.executeTool name input folderId ideasFolderId).
Proof. unfold Agent.executeTool. quiet_auto. Qed.

Lemma quiet_generateArticle template args : quiet (AI.generateArticle template args).
Proof. unfold AI.generateArticle. quiet_auto. Qed.

Lemma quiet_analyzeInterviewsForThemes interviews :
  quiet (AI.analyzeInterviewsForThemes interviews).
Proof. unfold AI.analyzeInterviewsForThemes. quiet_auto. Qed.

Lemma quiet_searchAll keywords : quiet (Generators.searchAll keywords).
Proof. induction keywords; simpl; quiet_auto. Qed.

Lemma quiet_researchKeywords keywords : quiet (Generators.researchKeywords keywords).
Proof.
  unfold Generators.researchKeywords. pose proof (quiet_searchAll (take 3 keywords)).
  quiet_auto.
Qed.

End ToolsAndGenerators.

#[export] Hint Resolve quiet_executeTool quiet_generateArticle
  quiet_analyzeInterviewsForThemes quiet_researchKeywords : quiet.

Section GeneratorsQuiet.
Import Js Eff.
Context `{Collaborators}.

Lemma quiet_generateFromInsight insight vendorName options :
  quiet (Generators.generateFromInsight insight vendorName options).
Proof.
  unfold Generators.generateFromInsight, Generators.failed,
    AI.generateInsightArticle. quiet_auto.
Qed.

Lemma quiet_generateSEOContent topic keywords options :
  quiet (Generators.generateSEOContent topic keywords options).
Proof.
  unfold Generators.generateSEOContent, Generators.failed, AI.generateSEOArticle.
  quiet_auto.
Qed.

Lemma quiet_generateThemeRoundup folderId themeFocus options :
  quiet (Generators.generateThemeRoundup folderId themeFocus options).
Proof.
  unfold Generators.generateThemeRoundup, Generators.failed, AI.generateThemeArticle.
  quiet_auto.
Qed.

End GeneratorsQuiet.

(** ** The agent loop: what it records *)

Section LoopEvents.
Import Js Eff Anthropic.
Context `{Collaborators}.

Lemma emits_create (P : Event -> Prop) (Q : Result Message -> Prop) messages :
  (forall r, P (EvModel messages r)) -> (forall r, Q r) ->
  emits P Q (Agent.create messages).
Proof.
  intros HP HQ s. unfold Agent.create.
  destruct (messages_create messages (ext s)) as [r e'] eqn:E.
  exists [EvModel messages r]. simpl. auto.
Qed.

Lemma quiet_runBlock folderId ideasFolderId block toolResults :
  quiet (Agent.runBlock folderId ideasFolderId block toolResults).
Proof. unfold Agent.runBlock. quiet_auto. Qed.

Lemma quiet_runBlocks folderId ideasFolderId content toolResults :
  quiet (Agent.runBlocks folderId ideasFolderId content toolResults).
Proof.
  revert toolResults. induction content as [|b l IH]; intros; simpl.
  - quiet_auto.
  - apply quiet_bind; [apply quiet_runBlock|]. intros. apply IH.
Qed.

(** No payload leaves for [posts.add] with a status other than draft. *)
Definition draftOnly (ev : Event) : Prop :=
  match ev with
  | EvPostsAdd postData => field postData "status" = VStr "draft"
  | _ => True
  end.

Lemma serviceEvent_draftOnly ev : serviceEvent ev -> draftOnly ev.
Proof. destruct ev; simpl; auto. Qed.

Lemma quiet_draftOnly {A} (m : M A) : quiet m -> emits draftOnly any_outcome m.
Proof. apply emits_weaken; auto using serviceEvent_draftOnly. Qed.

Lemma agentLoop_draftOnly fuel folderId ideasFolderId iterations response messages :
  emits draftOnly any_outcome
    (Agent.agentLoop fuel folderId ideasFolderId iterations response messages).
Proof.
  revert iterations response messages.
  induction fuel as [|fuel IH]; intros; simpl;
    destruct (_ && _); try (apply emits_ret; exact I).
  eapply emits_bind with (Q1 := any_outcome);
    [apply quiet_draftOnly, quiet_runBlocks| |intros; exact I].
  intros toolResults _.
  eapply emits_bind with (Q1 := any_outcome);
    [apply emits_create; intros; exact I| |intros; exact I].
  intros response' _. apply IH.
Qed.

Lemma runContentAgent_draftOnly request folderId ideasFolderId :
  emits draftOnly any_outcome (Agent.runContentAgent request folderId ideasFolderId).
Proof.
  unfold Agent.runContentAgent.
  eapply emits_bind with (Q1 := any_outcome);
    [apply emits_create; intros; exact I| |intros; exact I].
  intros response _.
  eapply emits_bind with (Q1 := any_outcome);
    [apply agentLoop_draftOnly| |intros; exact I].
  intros [[[? ?] ?]|] _; apply emits_ret; exact I.
Qed.

(** C10.  Whatever the article object holds, its [status] included,
    [createDraftArticle] submits at most one payload to [posts.add], and
    that payload has the status draft (with the title and the HTML of the
    article); a successful call has submitted exactly that payload.  The
    tool executor, the agent loop and the three generators likewise never
    submit a payload with another status. *)
Theorem createDraftArticle_status_is_draft (article : Article.t) (s : State) :
  (exists evs,
     log (Ghost.createDraftArticle article s).2 = log s ++ evs
     /\ Forall draftOnly evs
     /\ (forall r, (Ghost.createDraftArticle article s).1 = Ok r ->
         exists postData,
           evs = [EvPostsAdd postData]
           /\ field postData "status" = VStr "draft"
           /\ field postData "title" = Article.title article
           /\ field postData "html" = Article.html article))
  /\ (forall name input folderId ideasFolderId,
        emits draftOnly any_outcome (Agent.executeTool name input folderId ideasFolderId))
  /\ (forall request folderId ideasFolderId,
        emits draftOnly any_outcome (Agent.runContentAgent request folderId ideasFolderId))
  /\ (forall insight vendorName options,
        emits draftOnly any_outcome (Generators.generateFromInsight insight vendorName options))
  /\ (forall topic keywords options,
        emits draftOnly any_outcome (Generators.generateSEOContent topic keywords options))
  /\ (forall folderId themeFocus options,
        emits draftOnly any_outcome (Generators.generateThemeRoundup folderId themeFocus options)).
Proof.
  split.
  - unfold Ghost.createDraftArticle, bind, gets, throw, lift, perform, ret.
    destruct (ghostClient s); simpl.
    + destruct (Ghost.buildPostData article) as [postData|e] eqn:Hbuild; simpl.
      * apply buildPostData_fields in Hbuild as (Hstatus & Htitle & Hhtml).
        destruct (posts_add postData (ext s)) as [[post|e] e'] eqn:Hadd; simpl;
          exists [EvPostsAdd postData]; (split; [reflexivity|]);
          (split; [constructor; [exact Hstatus|constructor]|]).
        -- intros r _. exists postData. auto.
        -- intros r [=].
      * exists []. rewrite app_nil_r. split; [reflexivity|].
        split; [constructor|]. intros r [=].
    + exists []. rewrite app_nil_r. split; [reflexivity|].
      split; [constructor|]. intros r [=].
  - repeat split; intros.
    + apply quiet_draftOnly, quiet_executeTool.
    + apply runContentAgent_draftOnly.
    + apply quiet_draftOnly, quiet_generateFromInsight.
    + apply quiet_draftOnly, quiet_generateSEOContent.
    + apply quiet_draftOnly, quiet_generateThemeRoundup.
Qed.

End LoopEvents.

(** ** The agent loop: tool results and model calls *)

Section AgentLoop.
Import JsStr Js Eff Anthropic.
Context `{Collaborators}.

(** The identifiers of the tool-use blocks of a turn, in order. *)
Definition toolUseIds (content : list ContentBlock) : list string :=
  flat_map (fun b => match b with ToolUseBlock id _ _ => [id] | _ => [] end) content.

(** The model calls among recorded events: conversation sent and outcome. *)
Definition modelCalls (evs : list Event) : list (list MessageParam * Result Message) :=
  flat_map (fun ev => match ev with EvModel m r => [(m, r)] | _ => [] end) evs.

(** The turn that answers [response]: its content as assistant turn, then
    one user turn with the tool results. *)
Definition answered (messages : list MessageParam) (response : Message)
    (results : list ToolResultBlockParam) : list MessageParam :=
  messages ++ [mkMessage assistant (Blocks (blocks response));
               mkMessage user (ToolResults results)].

(** Successive model calls: each call after a response extends the
    conversation of the call before by the assistant turn and by a single
    user turn that holds one result per tool-use block, in order. *)
Inductive chained : list (list MessageParam * Result Message) -> Prop :=
| chained_nil : chained []
| chained_one call : chained [call]
| chained_cons messages response results next rest :
    map tool_use_id results = toolUseIds (blocks response) ->
    chained ((answered messages response results, next) :: rest) ->
    chained ((messages, Ok response) :: (answered messages response results, next) :: rest).

Lemma modelCalls_app evs evs' : modelCalls (evs ++ evs') = modelCalls evs ++ modelCalls evs'.
Proof. unfold modelCalls. apply flat_map_app. Qed.

Lemma modelCalls_service evs : Forall serviceEvent evs -> modelCalls evs = [].
Proof.
  induction 1 as [|ev evs Hev _ IH]; [reflexivity|].
  destruct ev; simpl in *; [destruct Hev|exact IH|exact IH].
Qed.

(** One block: the outcome is never an error, and a tool-use block adds
    exactly one result, carrying its identifier. *)
Lemma runBlock_spec folderId ideasFolderId block toolResults :
  emits serviceEvent
    (fun r => exists added,
       r = Ok (toolResults ++ added)
       /\ map tool_use_id added = toolUseIds [block])
    (Agent.runBlock folderId ideasFolderId block toolResults).
Proof.
  destruct block as [text|id name input|type]; simpl.
  - apply emits_ret. exists []. rewrite app_nil_r. auto.
  - eapply emits_catch with
      (Q1 := fun r => forall l, r = Ok l -> exists added,
               l = toolResults ++ added /\ map tool_use_id added = [id]).
    + eapply emits_bind with (Q1 := any_outcome); [apply quiet_executeTool| |].
      * intros result _. apply emits_ret. intros l [= <-]. eexists. split; reflexivity.
      * intros e _ l [=].
    + intros l Hl. destruct (Hl l eq_refl) as (added & -> & Hids). exists added. auto.
    + intros e _. apply emits_ret. eexists. split; reflexivity.
  - apply emits_ret. exists []. rewrite app_nil_r. auto.
Qed.

Lemma runBlocks_spec folderId ideasFolderId content toolResults :
  emits serviceEvent
    (fun r => exists added,
       r = Ok (toolResults ++ added)
       /\ map tool_use_id added = toolUseIds content)
    (Agent.runBlocks folderId ideasFolderId content toolResults).
Proof.
  revert toolResults. induction content as [|b l IH]; intros; simpl.
  - apply emits_ret. exists []. rewrite app_nil_r. auto.
  - eapply emits_bind; [apply runBlock_spec| |].
    + intros a (added & [= ->] & Hids).
      eapply emits_weaken; [intros ev Hev; exact Hev| |apply IH].
      intros r (added' & -> & Hids'). exists (added ++ added').
      rewrite app_assoc, map_app, Hids, Hids'. simpl. rewrite app_nil_r.
      split; [reflexivity|].
      destruct b; reflexivity.
    + intros e (added & [=] & _).
Qed.

(** The same, as a run from a state. *)
Lemma runBlocks_run folderId ideasFolderId content (s : State) :
  exists results s1 evs,
    Agent.runBlocks folderId ideasFolderId content [] s = (Ok results, s1)
    /\ log s1 = log s ++ evs
    /\ Forall serviceEvent evs
    /\ map tool_use_id results = toolUseIds content.
Proof.
  destruct (runBlocks_spec folderId ideasFolderId content [] s)
    as (evs & Hlog & Hev & added & Hres & Hids).
  destruct (Agent.runBlocks folderId ideasFolderId content [] s) as [r s1].
  simpl in *. subst r. exists added, s1, evs. auto.
Qed.

End AgentLoop.

Section AgentLoopRuns.
Import JsStr Js Eff Anthropic.
Context `{Collaborators}.

Definition continues (iterations : nat) (response : Message) : bool :=
  String.eqb (stop_reason response) "tool_use" && (iterations <? Agent.maxIterations).

(** One turn of the loop from state [s]: the tools of the response, then
    the next model call. *)
Lemma agentLoop_turn fuel folderId ideasFolderId iterations response messages (s : State) :
  continues iterations response = true ->
  exists results s1 evs1,
    Agent.runBlocks folderId ideasFolderId (blocks response) [] s = (Ok results, s1)
    /\ log s1 = log s ++ evs1
    /\ Forall serviceEvent evs1
    /\ map tool_use_id results = toolUseIds (blocks response)
    /\ Agent.agentLoop (S fuel) folderId ideasFolderId iterations response messages s
       = bind (Agent.create (answered messages response results))
              (fun response' =>
                 Agent.agentLoop fuel folderId ideasFolderId (iterations + 1) response'
                   (answered messages response results)) s1.
Proof.
  intros Hc.
  destruct (runBlocks_run folderId ideasFolderId (blocks response) s)
    as (results & s1 & evs1 & Hrun & Hlog & Hev & Hids).
  exists results, s1, evs1. repeat (split; [assumption|]).
  unfold continues in Hc. cbn [Agent.agentLoop]. rewrite Hc.
  unfold bind at 1. rewrite Hrun. unfold answered. rewrite <- app_assoc. reflexivity.
Qed.

Lemma agentLoop_stop fuel folderId ideasFolderId iterations response messages (s : State) :
  continues iterations response = false ->
  Agent.agentLoop fuel folderId ideasFolderId iterations response messages s
  = (Ok (Some (iterations, response, messages)), s).
Proof.
  intros Hc. unfold continues in Hc. destruct fuel; cbn [Agent.agentLoop]; rewrite Hc;
    reflexivity.
Qed.

Lemma last_cons_some {A} (x y : A) (l : list A) :
  last l = Some y -> last (x :: l) = Some y.
Proof. intros Hl. rewrite last_cons, Hl. reflexivity. Qed.

(** The loop from any state: the model calls it records are chained to the
    call that produced [response]; there are at most as many as iterations
    remain; the loop leaves with the count of iterations made and with the
    response of the last call; only a failed model call makes it fail; and
    the fuel suffices. *)
Lemma agentLoop_spec fuel folderId ideasFolderId :
  forall iterations response messages (s : State),
    iterations <= Agent.maxIterations ->
    Agent.maxIterations - iterations <= fuel ->
    exists evs,
      log (Agent.agentLoop fuel folderId ideasFolderId iterations response messages s).2
      = log s ++ evs
      /\ Forall draftOnly evs
      /\ chained ((messages, Ok response) :: modelCalls evs)
      /\ length (modelCalls evs) <= Agent.maxIterations - iterations
      /\ match (Agent.agentLoop fuel folderId ideasFolderId iterations response messages s).1 with
         | Ok None => False
         | Ok (Some (n, last_response, conversation)) =>
             n = iterations + length (modelCalls evs)
             /\ last ((messages, Ok response) :: modelCalls evs)
                = Some (conversation, Ok last_response)
             /\ (stop_reason last_response = "tool_use" -> n = Agent.maxIterations)
         | Throw e => exists conversation, last (modelCalls evs) = Some (conversation, Throw e)
         end.
Proof.
  induction fuel as [|fuel IH]; intros iterations response messages s Hle Hfuel.
  - assert (Hc : continues iterations response = false).
    { unfold continues. replace (iterations <? Agent.maxIterations) with false.
      - apply andb_false_r.
      - symmetry. apply Nat.ltb_ge. lia. }
    rewrite (agentLoop_stop _ _ _ _ _ _ _ Hc). exists []. simpl. rewrite app_nil_r.
    split; [reflexivity|]. split; [constructor|]. split; [constructor|].
    split; [lia|]. split; [lia|]. split; [reflexivity|]. intros _. lia.
  - destruct (continues iterations response) eqn:Hc.
    + destruct (agentLoop_turn fuel folderId ideasFolderId iterations response messages s Hc)
        as (results & s1 & evs1 & _ & Hlog1 & Hev1 & Hids & ->).
      assert (Hlt : iterations < Agent.maxIterations).
      { unfold continues in Hc. apply andb_true_iff in Hc as [_ Hc].
        now apply Nat.ltb_lt in Hc. }
      unfold bind, Agent.create.
      destruct (messages_create (answered messages response results) (ext s1))
        as [[response'|e] e'] eqn:Hcreate.
      * match goal with
        | |- context [Agent.agentLoop fuel _ _ _ _ _ ?st] =>
            assert (Hlog_s2 : log st
                    = log s1 ++ [EvModel (answered messages response results) (Ok response')])
              by reflexivity;
            generalize dependent st; intros s2 Hlog_s2
        end.
        destruct (IH (iterations + 1) response' (answered messages response results) s2)
          as (evs2 & Hlog2 & Hd2 & Hch2 & Hlen2 & Hres2); [lia|lia|].
        exists (evs1 ++ EvModel (answered messages response results) (Ok response') :: evs2).
        assert (Hcalls : modelCalls
                  (evs1 ++ EvModel (answered messages response results) (Ok response') :: evs2)
                = (answered messages response results, Ok response') :: modelCalls evs2).
        { rewrite modelCalls_app, (modelCalls_service _ Hev1). reflexivity. }
        rewrite Hcalls.
        split; [rewrite Hlog2, Hlog_s2, Hlog1, <- !app_assoc; reflexivity|].
        split.
        { apply Forall_app. split.
          - eapply Forall_impl; [exact Hev1|apply serviceEvent_draftOnly].
          - constructor; [exact I|exact Hd2]. }
        split; [now apply chained_cons|].
        split; [simpl; lia|].
        destruct (Agent.agentLoop fuel _ _ _ _ _ s2).1 as [[[[n r] c]|]|e0].
        -- destruct Hres2 as (Hn & Hlast & Hstop).
           split; [simpl; lia|]. split; [exact Hlast|exact Hstop].
        -- exact Hres2.
        -- destruct Hres2 as (c & Hlast). exists c. now apply last_cons_some.
      * exists (evs1 ++ [EvModel (answered messages response results) (Throw e)]).
        simpl. rewrite Hlog1, modelCalls_app, (modelCalls_service _ Hev1). simpl.
        split; [rewrite <- app_assoc; reflexivity|].
        split.
        { apply Forall_app. split.
          - eapply Forall_impl; [exact Hev1|apply serviceEvent_draftOnly].
          - repeat constructor. }
        split; [apply chained_cons; [exact Hids|constructor]|].
        split; [lia|]. eexists. reflexivity.
    + rewrite (agentLoop_stop _ _ _ _ _ _ _ Hc). exists []. simpl. rewrite app_nil_r.
      split; [reflexivity|]. split; [constructor|]. split; [constructor|].
      split; [lia|]. split; [lia|]. split; [reflexivity|].
      intros Hstop. unfold continues in Hc. rewrite Hstop in Hc. simpl in Hc.
      apply Nat.ltb_ge in Hc. lia.
Qed.

End AgentLoopRuns.

Section AgentClaims.
Import JsStr Js Eff Anthropic.
Context `{Collaborators}.

(** The text blocks of a response, joined by line feeds. *)
Definition responseText (response : Message) : string :=
  join (String LF EmptyString) (Agent.textOf (blocks response)).

(** A run of the agent: the record of its model calls, and its outcome. *)
Lemma runContentAgent_spec request folderId ideasFolderId (s : State) :
  exists evs first rest,
    log (Agent.runContentAgent request folderId ideasFolderId s).2 = log s ++ evs
    /\ modelCalls evs = ([mkMessage user (Text request)], first) :: rest
    /\ chained (modelCalls evs)
    /\ length (modelCalls evs) <= Agent.maxIterations + 1
    /\ match (Agent.runContentAgent request folderId ideasFolderId s).1 with
       | Ok None => False
       | Ok (Some text) =>
           exists conversation response,
             last (modelCalls evs) = Some (conversation, Ok response)
             /\ text = Agent.finalText (length (modelCalls evs) - 1) response
             /\ (stop_reason response = "tool_use" ->
                 length (modelCalls evs) = Agent.maxIterations + 1)
       | Throw e => exists conversation, last (modelCalls evs) = Some (conversation, Throw e)
       end.
Proof.
  unfold Agent.runContentAgent, bind, Agent.create.
  destruct (messages_create [mkMessage user (Text request)] (ext s))
    as [[response|e] e'] eqn:Hcreate.
  - match goal with
    | |- context [Agent.agentLoop _ _ _ _ _ _ ?st] =>
        assert (Hlog0 : log st
                = log s ++ [EvModel [mkMessage user (Text request)] (Ok response)])
          by reflexivity;
        generalize dependent st; intros s0 Hlog0
    end.
    destruct (agentLoop_spec Agent.maxIterations folderId ideasFolderId 0 response
                [mkMessage user (Text request)] s0)
      as (evs & Hlog & _ & Hch & Hlen & Hres); [lia|lia|].
    exists (EvModel [mkMessage user (Text request)] (Ok response) :: evs),
           (Ok response), (modelCalls evs).
    destruct (Agent.agentLoop Agent.maxIterations folderId ideasFolderId 0 response
                [mkMessage user (Text request)] s0) as [[[[[n r] c]|]|e] s1];
      simpl in Hlog, Hres; simpl.
    + destruct Hres as (-> & Hlast & Hstop).
      split; [rewrite Hlog, Hlog0, <- app_assoc; reflexivity|].
      split; [reflexivity|]. split; [exact Hch|].
      split; [unfold Agent.maxIterations in *; lia|].
      exists c, r. split; [exact Hlast|]. rewrite Nat.sub_0_r.
      split; [reflexivity|]. intros Hs. specialize (Hstop Hs).
      unfold Agent.maxIterations in *; lia.
    + destruct Hres.
    + destruct Hres as (c & Hlast).
      split; [rewrite Hlog, Hlog0, <- app_assoc; reflexivity|].
      split; [reflexivity|]. split; [exact Hch|].
      split; [unfold Agent.maxIterations in *; lia|].
      exists c. now apply last_cons_some.
  - exists [EvModel [mkMessage user (Text request)] (Throw e)], (Throw e), [].
    simpl. split; [reflexivity|]. split; [reflexivity|]. split; [constructor|].
    split; [unfold Agent.maxIterations; lia|]. eexists. reflexivity.
Qed.

(** The loop, turn by turn.  From a response on which the loop goes on
    (stop reason tool use, below the ceiling), the tools of the response
    are run, and the next model call receives the conversation extended by
    the assistant turn and by one user turn with the results of those
    tools; the loop leaves on the first response on which it does not go
    on, or with the error of a failed model call. *)
Inductive turns (folderId : string) (ideasFolderId : option string) :
    nat -> Message -> list MessageParam -> State ->
    Result (nat * Message * list MessageParam) -> State -> Prop :=
| turns_leave iterations response messages s :
    continues iterations response = false ->
    turns folderId ideasFolderId iterations response messages s
          (Ok (iterations, response, messages)) s
| turns_next iterations response messages s results s1 response' s2 exit s3 :
    continues iterations response = true ->
    Agent.runBlocks folderId ideasFolderId (blocks response) [] s = (Ok results, s1) ->
    map tool_use_id results = toolUseIds (blocks response) ->
    Agent.create (answered messages response results) s1 = (Ok response', s2) ->
    turns folderId ideasFolderId (iterations + 1) response'
          (answered messages response results) s2 exit s3 ->
    turns folderId ideasFolderId iterations response messages s exit s3
| turns_fail iterations response messages s results s1 e s2 :
    continues iterations response = true ->
    Agent.runBlocks folderId ideasFolderId (blocks response) [] s = (Ok results, s1) ->
    map tool_use_id results = toolUseIds (blocks response) ->
    Agent.create (answered messages response results) s1 = (Throw e, s2) ->
    turns folderId ideasFolderId iterations response messages s (Throw e) s2.

(** What the loop hands back for an exit of [turns]. *)
Definition loopOutcome (exit : Result (nat * Message * list MessageParam))
    : Result (option (nat * Message * list MessageParam)) :=
  match exit with
  | Ok leaving => Ok (Some leaving)
  | Throw e => Throw e
  end.

(** With fuel for the iterations that remain, the loop runs turn by
    turn. *)
Lemma agentLoop_turns fuel folderId ideasFolderId :
  forall iterations response messages (s : State),
    iterations <= Agent.maxIterations ->
    Agent.maxIterations - iterations <= fuel ->
    exists exit s',
      turns folderId ideasFolderId iterations response messages s exit s'
      /\ Agent.agentLoop fuel folderId ideasFolderId iterations response messages s
         = (loopOutcome exit, s').
Proof.
  induction fuel as [|fuel IH]; intros iterations response messages s Hle Hfuel.
  - assert (Hc : continues iterations response = false).
    { unfold continues. replace (iterations <? Agent.maxIterations) with false.
      - apply andb_false_r.
      - symmetry. apply Nat.ltb_ge. lia. }
    rewrite (agentLoop_stop _ _ _ _ _ _ _ Hc).
    exists (Ok (iterations, response, messages)), s. split; [now constructor|reflexivity].
  - destruct (continues iterations response) eqn:Hc.
    + destruct (agentLoop_turn fuel folderId ideasFolderId iterations response messages s Hc)
        as (results & s1 & evs1 & Hrun & _ & _ & Hids & ->).
      assert (Hlt : iterations < Agent.maxIterations).
      { unfold continues in Hc. apply andb_true_iff in Hc as [_ Hc].
        now apply Nat.ltb_lt in Hc. }
      unfold bind.
      destruct (Agent.create (answered messages response results) s1)
        as [[response'|e] s2] eqn:Hcreate.
      * destruct (IH (iterations + 1) response' (answered messages response results) s2)
          as (exit & s3 & Hturns & Hloop); [lia|lia|].
        exists exit, s3. split; [|exact Hloop].
        eapply turns_next; eauto.
      * exists (Throw e), s2. split; [|reflexivity].
        eapply turns_fail; eauto.
    + rewrite (agentLoop_stop _ _ _ _ _ _ _ Hc).
      exists (Ok (iterations, response, messages)), s. split; [now constructor|reflexivity].
Qed.

Lemma runBlocks_log folderId ideasFolderId content results (s s1 : State) :
  Agent.runBlocks folderId ideasFolderId content [] s = (Ok results, s1) ->
  exists evs, log s1 = log s ++ evs /\ modelCalls evs = [].
Proof.
  intros Hrun.
  destruct (runBlocks_run folderId ideasFolderId content s)
    as (results' & s1' & evs & Hrun' & Hlog & Hev & _).
  rewrite Hrun in Hrun'. injection Hrun' as _ <-.
  exists evs. split; [exact Hlog|now apply modelCalls_service].
Qed.

Lemma create_log messages outcome (s s' : State) :
  Agent.create messages s = (outcome, s') ->
  log s' = log s ++ [EvModel messages outcome].
Proof.
  unfold Agent.create. destruct (messages_create messages (ext s)) as [r e'].
  intros [= <- <-]. reflexivity.
Qed.

(** In the record of a run of [turns], every response with stop reason
    tool use that is not the one at the ceiling is followed by the model
    call that answers it. *)
Lemma turns_answered folderId ideasFolderId iterations response messages
    (s : State) exit s' :
  turns folderId ideasFolderId iterations response messages s exit s' ->
  exists evs,
    log s' = log s ++ evs
    /\ forall i conversation reply,
         ((messages, Ok response) :: modelCalls evs) !! i = Some (conversation, Ok reply) ->
         stop_reason reply = "tool_use" ->
         iterations + i < Agent.maxIterations ->
         exists results next,
           ((messages, Ok response) :: modelCalls evs) !! (S i)
           = Some (answered conversation reply results, next)
           /\ map tool_use_id results = toolUseIds (blocks reply).
Proof.
  induction 1 as [iterations response messages s Hc
                 |iterations response messages s results s1 response' s2 exit s3
                    Hc Hrun Hids Hcreate Hturns IH
                 |iterations response messages s results s1 e s2 Hc Hrun Hids Hcreate].
  - exists []. split; [now rewrite app_nil_r|].
    intros [|i] conversation reply Hi Hstop Hlt; [|discriminate].
    injection Hi as <- <-. unfold continues in Hc. rewrite Hstop in Hc. simpl in Hc.
    apply Nat.ltb_ge in Hc. lia.
  - destruct IH as (evs2 & Hlog2 & IH).
    destruct (runBlocks_log _ _ _ _ _ _ Hrun) as (evs1 & Hlog1 & Hcalls1).
    pose proof (create_log _ _ _ _ Hcreate) as Hlogc.
    exists (evs1 ++ EvModel (answered messages response results) (Ok response') :: evs2).
    split; [rewrite Hlog2, Hlogc, Hlog1, <- !app_assoc; reflexivity|].
    rewrite modelCalls_app, Hcalls1. cbn [app modelCalls flat_map].
    intros [|i] conversation reply Hi Hstop Hlt.
    + injection Hi as <- <-. exists results, (Ok response'). split; [reflexivity|exact Hids].
    + apply (IH i conversation reply Hi Hstop). lia.
  - destruct (runBlocks_log _ _ _ _ _ _ Hrun) as (evs1 & Hlog1 & Hcalls1).
    pose proof (create_log _ _ _ _ Hcreate) as Hlogc.
    exists (evs1 ++ [EvModel (answered messages response results) (Throw e)]).
    split; [rewrite Hlogc, Hlog1, <- !app_assoc; reflexivity|].
    rewrite modelCalls_app, Hcalls1. cbn [app modelCalls flat_map].
    intros [|[|i]] conversation reply Hi Hstop Hlt; try discriminate.
    injection Hi as <- <-. exists results, (Throw e). split; [reflexivity|exact Hids].
Qed.

(** C1, as the code has it.  For a turn with N tool-use blocks the
    executor loop yields exactly N results, without failing, and their
    identifiers are those of the tool-use blocks in order.  A run of the
    agent calls the model with the request and then proceeds turn by turn:
    from every response with stop reason tool use received below the
    ceiling, the tools of the response are run and the next model call is
    made, with the conversation extended by the assistant turn and by one
    user turn that holds all the results of those tools.  So in the record
    of the run, each of the first [maxIterations] model calls that is
    answered with stop reason tool use is followed by the model call that
    carries its results.  A run makes at most [maxIterations + 1] model
    calls: the response to the last of them is never taken up as a turn,
    and gets no results. *)
Theorem tool_use_below_the_ceiling_is_answered request folderId ideasFolderId (s : State) :
  (forall content (s0 : State),
     exists results s1,
       Agent.runBlocks folderId ideasFolderId content [] s0 = (Ok results, s1)
       /\ map tool_use_id results = toolUseIds content
       /\ length results = length (toolUseIds content))
  /\ (exists first s0,
        Agent.create [mkMessage user (Text request)] s = (first, s0)
        /\ match first with
           | Throw e =>
               Agent.runContentAgent request folderId ideasFolderId s = (Throw e, s0)
           | Ok response =>
               exists exit s',
                 turns folderId ideasFolderId 0 response
                       [mkMessage user (Text request)] s0 exit s'
                 /\ Agent.runContentAgent request folderId ideasFolderId s
                    = (match exit with
                       | Ok (n, last_response, _) =>
                           Ok (Some (Agent.finalText n last_response))
                       | Throw e => Throw e
                       end, s')
           end)
  /\ (exists evs,
        log (Agent.runContentAgent request folderId ideasFolderId s).2 = log s ++ evs
        /\ (exists first rest,
              modelCalls evs = ([mkMessage user (Text request)], first) :: rest)
        /\ length (modelCalls evs) <= Agent.maxIterations + 1
        /\ forall i conversation reply,
             modelCalls evs !! i = Some (conversation, Ok reply) ->
             stop_reason reply = "tool_use" ->
             i < Agent.maxIterations ->
             exists results next,
               modelCalls evs !! (S i) = Some (answered conversation reply results, next)
               /\ map tool_use_id results = toolUseIds (blocks reply)
               /\ length results = length (toolUseIds (blocks reply))).
Proof.
  split; [|split].
  - intros content s0.
    destruct (runBlocks_run folderId ideasFolderId content s0)
      as (results & s1 & evs & Hrun & _ & _ & Hids).
    exists results, s1. split; [exact Hrun|]. split; [exact Hids|].
    rewrite <- Hids. symmetry. apply length_map.
  - destruct (Agent.create [mkMessage user (Text request)] s) as [first s0] eqn:Hcreate.
    exists first, s0. split; [reflexivity|].
    unfold Agent.runContentAgent, bind. rewrite Hcreate.
    destruct first as [response|e]; [|reflexivity].
    destruct (agentLoop_turns Agent.maxIterations folderId ideasFolderId 0 response
                [mkMessage user (Text request)] s0) as (exit & s' & Hturns & ->); [lia|lia|].
    exists exit, s'. split; [exact Hturns|].
    destruct exit as [[[n r] c]|e]; reflexivity.
  - destruct (runContentAgent_spec request folderId ideasFolderId s)
      as (evs & first & rest & Hlog & Hfirst & _ & Hlen & _).
    exists evs. split; [exact Hlog|]. split; [eauto|]. split; [exact Hlen|].
    revert Hlog. unfold Agent.runContentAgent, bind.
    destruct (Agent.create [mkMessage user (Text request)] s) as [outcome s0] eqn:Hcreate.
    pose proof (create_log _ _ _ _ Hcreate) as Hlog0.
    destruct outcome as [response|e].
    + destruct (agentLoop_turns Agent.maxIterations folderId ideasFolderId 0 response
                  [mkMessage user (Text request)] s0) as (exit & s' & Hturns & Hloop);
        [lia|lia|].
      rewrite Hloop.
      destruct (turns_answered _ _ _ _ _ _ _ _ Hturns) as (evs' & Hlog' & Hanswered).
      intros Hlog.
      assert (Hevs : evs = EvModel [mkMessage user (Text request)] (Ok response) :: evs').
      { apply (app_inv_head (log s)). rewrite <- Hlog.
        destruct exit as [[[n l] c]|e]; simpl; rewrite Hlog', Hlog0, <- app_assoc;
          reflexivity. }
      subst evs. cbn [modelCalls flat_map app].
      intros i conversation reply Hi Hstop Hlt.
      destruct (Hanswered i conversation reply Hi Hstop) as (results & next & Hnext & Hids);
        [lia|].
      exists results, next. split; [exact Hnext|]. split; [exact Hids|].
      rewrite <- Hids. symmetry. apply length_map.
    + simpl. intros Hlog.
      assert (Hevs : evs = [EvModel [mkMessage user (Text request)] (Throw e)]).
      { apply (app_inv_head (log s)). now rewrite <- Hlog, Hlog0. }
      subst evs. intros [|i] conversation reply Hi; discriminate.
Qed.

(** C2, as the code has it.  A run calls the model at most
    [maxIterations + 1] times, and the loop always leaves within its fuel.
    A run that returns after fewer than [maxIterations + 1] calls ended on
    a stop reason other than tool use, and returns the text of the last
    response as it is; a run that returns after [maxIterations + 1] calls
    returns the text of the last response with the note appended, whatever
    the stop reason of that response.  A failed model call fails the run. *)
Theorem model_calls_are_bounded request folderId ideasFolderId (s : State) :
  exists evs,
    log (Agent.runContentAgent request folderId ideasFolderId s).2 = log s ++ evs
    /\ length (modelCalls evs) <= Agent.maxIterations + 1
    /\ match (Agent.runContentAgent request folderId ideasFolderId s).1 with
       | Ok None => False
       | Ok (Some text) =>
           exists conversation response,
             last (modelCalls evs) = Some (conversation, Ok response)
             /\ (length (modelCalls evs) = Agent.maxIterations + 1 ->
                 text = responseText response +:+ Agent.limitNote)
             /\ (length (modelCalls evs) <= Agent.maxIterations ->
                 text = responseText response
                 /\ stop_reason response <> "tool_use")
       | Throw e => exists conversation, last (modelCalls evs) = Some (conversation, Throw e)
       end.
Proof.
  destruct (runContentAgent_spec request folderId ideasFolderId s)
    as (evs & first & rest & Hlog & Hfirst & _ & Hlen & Hres).
  exists evs. split; [exact Hlog|]. split; [exact Hlen|].
  destruct (Agent.runContentAgent request folderId ideasFolderId s).1 as [[text|]|e].
  - destruct Hres as (c & r & Hlast & -> & Hstop). exists c, r.
    split; [exact Hlast|]. unfold Agent.finalText, responseText. split.
    + intros ->. reflexivity.
    + intros Hle.
      destruct (Nat.leb_spec Agent.maxIterations (length (modelCalls evs) - 1)) as [Hge|Hlt].
      * rewrite Hfirst in Hle, Hge. simpl in Hle, Hge. lia.
      * split; [reflexivity|]. intros Hs. specialize (Hstop Hs). lia.
  - exact Hres.
  - exact Hres.
Qed.

End AgentClaims.

Section AgentExamples.
Import JsStr Js Eff Anthropic.

(** C2 as stated fails: the model stops by itself (stop reason end_turn)
    in its sixteenth response, and the returned text still ends with the
    note. *)
Lemma natural_stop_at_the_ceiling_gets_the_note :
  (@Agent.runContentAgent Fixtures.persistent "go" "folder" None
     Fixtures.persistentStart).1
  = Ok (Some ("done" +:+ Agent.limitNote))
  /\ option_map snd
       (last (modelCalls
                (log (@Agent.runContentAgent Fixtures.persistent "go" "folder" None
                        Fixtures.persistentStart).2)))
     = Some (Ok (mkResponse "end_turn" [TextBlock "done"]))
  /\ length (modelCalls
               (log (@Agent.runContentAgent Fixtures.persistent "go" "folder" None
                       Fixtures.persistentStart).2))
     = Agent.maxIterations + 1.
Proof. vm_compute. repeat split. Qed.

End AgentExamples.

(** ** The tool executor: failures and unknown tools *)

Section ToolFailures.
Import JsStr Js Eff Anthropic.
Context `{Collaborators}.

Definition unknownToolMessage (name : string) : string :=
  stringify (VObj [("error", VStr ("Unknown tool: " +:+ name))]).

Lemma findTool_none (name : string) :
  Agent.findTool name = None ->
  forall input folderId ideasFolderId,
    Agent.executeTool name input folderId ideasFolderId = ret (unknownToolMessage name).
Proof.
  unfold Agent.findTool, Agent.tools. cbn [List.find Agent.name].
  intros Hfind input folderId ideasFolderId. unfold Agent.executeTool.
  repeat match type of Hfind with
         | (if String.eqb ?a name then _ else _) = None =>
             rewrite (String.eqb_sym a name) in Hfind;
             destruct (String.eqb name a) eqn:?; [discriminate Hfind|]
         end.
  reflexivity.
Qed.

Lemma error_text_not_empty (message : string) : "Error: " +:+ message <> EmptyString.
Proof. discriminate. Qed.

Lemma unknownToolMessage_not_empty (name : string) : unknownToolMessage name <> EmptyString.
Proof. discriminate. Qed.

(** C3, as the code has it.  For a tool-use block the loop body never
    fails: an error thrown by the executor becomes a result flagged
    [is_error] whose content starts with Error and is not empty; a value
    becomes a result without the flag.  A name that is not in the registry
    throws nothing and touches nothing: its result is the JSON error
    message, not empty, and carries no [is_error] flag.  The executor loop
    over a turn never fails, and the next model call follows it. *)
Theorem tool_failures_become_results folderId ideasFolderId id name input toolResults
    (s : State) :
  (Agent.runBlock folderId ideasFolderId (ToolUseBlock id name input) toolResults s).2
  = (Agent.executeTool name input folderId ideasFolderId s).2
  /\ match (Agent.executeTool name input folderId ideasFolderId s).1 with
     | Throw e =>
         (Agent.runBlock folderId ideasFolderId (ToolUseBlock id name input) toolResults s).1
         = Ok (toolResults ++
               [mkToolResult id ("Error: " +:+ error_message e) (Some true)])
         /\ "Error: " +:+ error_message e <> EmptyString
     | Ok result =>
         (Agent.runBlock folderId ideasFolderId (ToolUseBlock id name input) toolResults s).1
         = Ok (toolResults ++ [mkToolResult id result None])
     end
  /\ (Agent.findTool name = None ->
      Agent.runBlock folderId ideasFolderId (ToolUseBlock id name input) toolResults s
      = (Ok (toolResults ++ [mkToolResult id (unknownToolMessage name) None]), s)
      /\ unknownToolMessage name <> EmptyString)
  /\ (forall content (s0 : State),
        exists results s1,
          Agent.runBlocks folderId ideasFolderId content [] s0 = (Ok results, s1))
  /\ (forall fuel iterations response messages (s0 : State),
        continues iterations response = true ->
        exists results outcome,
          (Agent.runBlocks folderId ideasFolderId (blocks response) [] s0).1 = Ok results
          /\ In (EvModel (answered messages response results) outcome)
                (log (Agent.agentLoop (S fuel) folderId ideasFolderId iterations
                        response messages s0).2)).
Proof.
  split; [|split; [|split; [|split]]].
  - unfold Agent.runBlock, catch, bind, ret.
    destruct (Agent.executeTool name input folderId ideasFolderId s) as [[r|e] s1];
      reflexivity.
  - unfold Agent.runBlock, catch, bind, ret.
    destruct (Agent.executeTool name input folderId ideasFolderId s) as [[r|e] s1];
      simpl; [reflexivity|]. split; [reflexivity|discriminate].
  - intros Hnone. split; [|apply unknownToolMessage_not_empty].
    unfold Agent.runBlock. rewrite (findTool_none name Hnone). reflexivity.
  - intros content s0.
    destruct (runBlocks_run folderId ideasFolderId content s0)
      as (results & s1 & _ & Hrun & _).
    exists results, s1. exact Hrun.
  - intros fuel iterations response messages s0 Hc.
    destruct (agentLoop_turn fuel folderId ideasFolderId iterations response messages s0 Hc)
      as (results & s1 & evs1 & Hrun & Hlog1 & _ & _ & ->).
    unfold bind, Agent.create.
    destruct (messages_create (answered messages response results) (ext s1))
      as [outcome e'] eqn:Hcreate.
    exists results, outcome. rewrite Hrun. split; [reflexivity|].
    destruct outcome as [response'|e].
    + match goal with
      | |- context [Agent.agentLoop fuel _ _ _ _ _ ?st] =>
          destruct (agentLoop_draftOnly fuel folderId ideasFolderId (iterations + 1)
                      response' (answered messages response results) st)
            as (evs2 & -> & _)
      end.
      simpl. apply in_or_app. left. apply in_or_app. right. now left.
    + simpl. apply in_or_app. right. now left.
Qed.

End ToolFailures.

Section ToolExamples.
Import JsStr Js Eff Anthropic.

(** C3 as stated fails for unknown tool names: the result of a tool-use
    block that names no tool of the registry carries no [is_error] flag. *)
Lemma unknown_tool_result_is_not_flagged :
  Agent.findTool "frobnicate" = None
  /\ @Agent.runBlock Fixtures.blog "folder" None
       (ToolUseBlock "toolu_1" "frobnicate" ∅) [] Fixtures.blogStart
     = (Ok [mkToolResult "toolu_1" (unknownToolMessage "frobnicate") None],
        Fixtures.blogStart).
Proof. split; reflexivity. Qed.

Lemma tool_failures_become_results_witness :
  Agent.findTool "frobnicate" = None
  /\ @Agent.runBlock Fixtures.blog "folder" None
       (ToolUseBlock "toolu_1" "frobnicate" ∅) [] Fixtures.blogStart
     = (Ok ([] ++ [mkToolResult "toolu_1" (unknownToolMessage "frobnicate") None]),
        Fixtures.blogStart)
  /\ unknownToolMessage "frobnicate" <> EmptyString.
Proof.
  split; [reflexivity|].
  exact (proj1 (proj2 (proj2 (@tool_failures_become_results Fixtures.blog "folder" None
                                "toolu_1" "frobnicate" ∅ [] Fixtures.blogStart)))
               eq_refl).
Defined.

End ToolExamples.

(** ** The tool executor and the schemas *)

Section ToolInputs.
Import JsStr Js Eff Anthropic.
Context `{Collaborators}.









End ToolInputs.

Section ToolInputExamples.
Import JsStr Js Eff Anthropic.



End ToolInputExamples.

(** ** The generators and the duplicate check *)

Section GeneratorsBlock.
Import JsStr Js Eff.
Context `{Collaborators}.

(** The object that [checkArticleExists] resolves to is truthy, whatever
    it holds. *)
Lemma checkObject_truthy (check : DuplicateCheckResult.t) :
  truthy (Generators.checkObject check) = true.
Proof. reflexivity. Qed.

Lemma checkArticleExists_log title check (s s' : State) :
  Ghost.checkArticleExists title s = (Ok check, s') ->
  log s' = log s ++ [EvCall "ghost.posts.browse" []].
Proof.
  unfold Ghost.checkArticleExists, Ghost.getExistingArticles, bind, gets, catch,
    perform, throw, lift, ret.
  destruct (ghostClient s); simpl; [|discriminate].
  destruct (posts_browse_pages (ext s)) as [[pages|e] e']; simpl; [|discriminate].
  destruct (string_receiver title "toLowerCase"); [|discriminate].
  intros [= _ <-]. reflexivity.
Qed.

Definition seoBlocked (topic : string) : GenResult.t :=
  GenResult.mk false
    ("An article about " +:+ Generators.quoted topic
     +:+ " may already exist. Check Ghost for duplicates.") None.

Definition insightBlocked : GenResult.t :=
  GenResult.mk false "A similar article may already exist. Check Ghost for duplicates." None.

(** C4 fails on the code.  Each of the three generators tests the object
    that [checkArticleExists] resolves to, not its [exactMatch] field:
    whenever the check returns, with or without an exact match, the
    generator answers that the article may already exist and stops, in the
    state the check left: only the listing of the blog has been asked for,
    and no draft is created. *)
Theorem generators_stop_after_any_duplicate_check (s : State) :
  (forall insight vendorName options check s',
     Ghost.checkArticleExists (VStr (slice0 50 insight)) s = (Ok check, s') ->
     Generators.generateFromInsight insight vendorName options s = (Ok insightBlocked, s')
     /\ log s' = log s ++ [EvCall "ghost.posts.browse" []])
  /\ (forall topic keywords options check s',
        Ghost.checkArticleExists (VStr topic) s = (Ok check, s') ->
        Generators.generateSEOContent topic keywords options s = (Ok (seoBlocked topic), s')
        /\ log s' = log s ++ [EvCall "ghost.posts.browse" []])
  /\ (forall folderId theme options interviews s1 check s',
        perform (EvCall "getAllInterviewsWithContent" [VStr folderId])
                (getAllInterviewsWithContent (VStr folderId)) s = (Ok interviews, s1) ->
        2 <= length interviews ->
        JsStr.truthy theme = true ->
        Ghost.checkArticleExists (VStr theme) s1 = (Ok check, s') ->
        Generators.generateThemeRoundup folderId (Some theme) options s
        = (Ok (seoBlocked theme), s')
        /\ log s' = log s1 ++ [EvCall "ghost.posts.browse" []]).
Proof.
  split; [|split].
  - intros insight vendorName options check s' Hcheck.
    split; [|now apply checkArticleExists_log in Hcheck].
    unfold Generators.generateFromInsight, catch, bind. rewrite Hcheck.
    rewrite checkObject_truthy. reflexivity.
  - intros topic keywords options check s' Hcheck.
    split; [|now apply checkArticleExists_log in Hcheck].
    unfold Generators.generateSEOContent, catch, bind. rewrite Hcheck.
    rewrite checkObject_truthy. reflexivity.
  - intros folderId theme options interviews s1 check s' Hload Hlen Htheme Hcheck.
    split; [|now apply checkArticleExists_log in Hcheck].
    unfold Generators.generateThemeRoundup, catch, bind. rewrite Hload.
    assert (Hlt : (length interviews <? 2) = false) by (apply Nat.ltb_ge; lia).
    rewrite Hlt. change (truthy (opt_str (Some theme))) with (JsStr.truthy theme).
    rewrite Htheme. cbv beta iota delta [ret opt_str].
    rewrite Hcheck. rewrite checkObject_truthy. reflexivity.
Qed.

End GeneratorsBlock.

Section GeneratorExamples.
Import JsStr Js Eff.

(** On a blog whose only article has another title and another slug, the
    check of New Topic finds no exact match, and the SEO generator still
    refuses to create the draft. *)
Lemma new_topic_is_refused :
  (exists check,
     @Ghost.checkArticleExists Fixtures.blog (VStr "New Topic") Fixtures.blogStart
     = (Ok check, Fixtures.blogWith [EvCall "ghost.posts.browse" []])
     /\ DuplicateCheckResult.exactMatch check = false)
  /\ @Generators.generateSEOContent Fixtures.blog "New Topic" None
       (Generators.mkOptions false false) Fixtures.blogStart
     = (Ok (seoBlocked "New Topic"), Fixtures.blogWith [EvCall "ghost.posts.browse" []]).
Proof.
  split.
  - eexists. split; reflexivity.
  - exact (proj1 (proj1 (proj2 (@generators_stop_after_any_duplicate_check
                                   Fixtures.blog Fixtures.blogStart))
                        "New Topic" None (Generators.mkOptions false false) _ _ eq_refl)).
Defined.

End GeneratorExamples.

(** ** Facts about the pattern matcher *)

Section RegexFacts.
Import JsStr Regex.

Lemma rep_eq {R} p lo hi greedy (k : nat -> option ascii -> string -> option R) pos prev s :
  rep p lo hi greedy k pos prev s
  = let stop := match lo with 0 => k pos prev s | S _ => None end in
    let more :=
      match hi with
      | Some 0 => None
      | _ =>
          match s with
          | EmptyString => None
          | String c s' =>
              if p c then rep p (pred lo) (dec_hi hi) greedy k (S pos) (Some c) s'
              else None
          end
      end in
    if greedy then orElse more stop else orElse stop more.
Proof. destruct s; reflexivity. Qed.

Lemma orElse_none {A} (x y : option A) : x = None -> y = None -> orElse x y = None.
Proof. intros -> ->. reflexivity. Qed.

Lemma orElse_some {A} (x y : option A) (r : A) :
  orElse x y = Some r -> x = Some r \/ y = Some r.
Proof. destruct x; simpl; auto. Qed.

(** A quantifier succeeds only through its continuation. *)
Lemma rep_some {R} p greedy (k : nat -> option ascii -> string -> option R) (r : R) s :
  forall lo hi pos prev,
    rep p lo hi greedy k pos prev s = Some r ->
    exists pos' prev' s', k pos' prev' s' = Some r.
Proof.
  induction s as [|c s IH]; intros lo hi pos prev; rewrite rep_eq; cbv zeta; intros Hrep.
  - assert (Hstop : match lo with 0 => k pos prev EmptyString | S _ => None end = Some r).
    { destruct greedy; apply orElse_some in Hrep as [Hr|Hr];
        destruct hi as [[|h]|]; try discriminate; assumption. }
    destruct lo; [eauto|discriminate].
  - assert (Hcases :
      match lo with 0 => k pos prev (String c s) | S _ => None end = Some r
      \/ rep p (pred lo) (dec_hi hi) greedy k (S pos) (Some c) s = Some r).
    { destruct greedy; apply orElse_some in Hrep as [Hr|Hr]; auto;
        destruct hi as [[|h]|]; try discriminate; destruct (p c); try discriminate; auto. }
    destruct Hcases as [Hstop|Hmore].
    + destruct lo; [eauto|discriminate].
    + eapply IH; eauto.
Qed.

(** [avoids bad s]: no character of [s] is in the class [bad]. *)
Fixpoint avoids (bad : ascii -> bool) (s : string) : bool :=
  match s with
  | EmptyString => true
  | String c r => negb (bad c) && avoids bad r
  end.

(** An item that consumes at least one character, all of whose characters
    are in [bad]. *)
Definition needs (bad : ascii -> bool) (it : item) : bool :=
  match it with
  | Rep p (S _) _ _ =>
      forallb (fun n => implb (p (ascii_of_nat n)) (bad (ascii_of_nat n))) (List.seq 0 256)
  | _ => false
  end.

Lemma needs_class bad p lo hi greedy (c : ascii) :
  needs bad (Rep p (S lo) hi greedy) = true -> p c = true -> bad c = true.
Proof.
  unfold needs. intros Hall Hp.
  assert (Hin : In (nat_of_ascii c) (List.seq 0 256)).
  { apply in_seq. pose proof (nat_ascii_bounded c). lia. }
  pose proof (proj1 (forallb_forall _ _) Hall _ Hin) as Himp.
  cbv beta in Himp. rewrite ascii_nat_embedding, Hp in Himp. exact Himp.
Qed.

Lemma rep_avoids {R} bad p lo hi greedy
    (k : nat -> option ascii -> string -> option R) s :
  needs bad (Rep p lo hi greedy) = true -> avoids bad s = true ->
  forall pos prev, rep p lo hi greedy k pos prev s = None.
Proof.
  intros Hneeds Havoid pos prev. destruct lo as [|lo]; [discriminate|].
  rewrite rep_eq. cbv zeta.
  assert (Hmore :
    match hi with
    | Some 0 => None
    | _ =>
        match s with
        | EmptyString => None
        | String c s' =>
            if p c then rep p (pred (S lo)) (dec_hi hi) greedy k (S pos) (Some c) s'
            else None
        end
    end = None).
  { destruct hi as [[|h]|]; try reflexivity; destruct s as [|c s']; try reflexivity;
      simpl in Havoid; apply andb_true_iff in Havoid as [Hc _];
      destruct (p c) eqn:Hp; try reflexivity;
      rewrite (needs_class bad p lo _ greedy c Hneeds Hp) in Hc; discriminate. }
  rewrite Hmore. destruct greedy; reflexivity.
Qed.

(** A quantifier fails when its continuation fails on every string that
    avoids [bad]. *)
Lemma rep_fails {R} bad p greedy (k : nat -> option ascii -> string -> option R) s :
  (forall pos prev s', avoids bad s' = true -> k pos prev s' = None) ->
  avoids bad s = true ->
  forall lo hi pos prev, rep p lo hi greedy k pos prev s = None.
Proof.
  intros Hk. induction s as [|c s IH]; intros Havoid lo hi pos prev;
    rewrite rep_eq; cbv zeta.
  - assert (Hstop : match lo with 0 => k pos prev EmptyString | S _ => None end = None).
    { destruct lo; [now apply Hk|reflexivity]. }
    rewrite Hstop. destruct hi as [[|h]|], greedy; reflexivity.
  - assert (Hstop : match lo with 0 => k pos prev (String c s) | S _ => None end = None).
    { destruct lo; [now apply Hk|reflexivity]. }
    simpl in Havoid. apply andb_true_iff in Havoid as [_ Hs].
    rewrite Hstop, (IH Hs). destruct hi as [[|h]|], greedy, (p c); reflexivity.
Qed.

(** A sequence with an item that needs a character of [bad] matches nowhere
    in a string that avoids [bad]. *)
Lemma mt_avoids bad (its : seq) :
  existsb (needs bad) its = true ->
  forall ml pos prev s g, avoids bad s = true -> mt its ml pos prev s g = None.
Proof.
  induction its as [|it its IH]; [discriminate|].
  intros Hex ml pos prev s g Havoid. cbn [existsb] in Hex.
  destruct (needs bad it) eqn:Hit.
  - destruct it as [p lo hi greedy| | | |]; try discriminate.
    cbn [mt]. now apply (rep_avoids bad).
  - cbn [orb] in Hex. specialize (IH Hex).
    destruct it as [p lo hi greedy| | | |]; simpl.
    + apply (rep_fails bad); [|exact Havoid]. intros; now apply IH.
    + now apply IH.
    + now apply IH.
    + destruct (at_bol ml prev); [now apply IH|reflexivity].
    + destruct (at_eol ml s); [now apply IH|reflexivity].
Qed.

Definition needsAll (bad : ascii -> bool) (re : regex) : bool :=
  forallb (existsb (needs bad)) (alts re).

Lemma match_at_avoids bad re pos prev s :
  needsAll bad re = true -> avoids bad s = true -> match_at re pos prev s = None.
Proof.
  unfold needsAll, match_at. generalize (multiline re) as ml.
  induction (alts re) as [|a al IH]; intros ml Hall Havoid; [reflexivity|].
  cbn [forallb mt_alts] in *. apply andb_true_iff in Hall as [Ha Hal].
  rewrite (mt_avoids bad a Ha), (IH ml Hal Havoid) by assumption. reflexivity.
Qed.

Lemma search_avoids bad re s :
  needsAll bad re = true -> avoids bad s = true ->
  forall pos prev, search re pos prev s = None.
Proof.
  intros Hall. induction s as [|c s IH]; intros Havoid pos prev; simpl.
  - now rewrite (match_at_avoids bad).
  - rewrite (match_at_avoids bad) by assumption.
    simpl in Havoid. apply andb_true_iff in Havoid as [_ Hs]. now apply IH.
Qed.

(** No match in a text that avoids a class of which every alternative of
    the pattern needs a character. *)
Lemma js_match_avoids bad re s :
  needsAll bad re = true -> avoids bad s = true -> js_match s re = None.
Proof.
  intros Hall Havoid. unfold js_match. now rewrite (search_avoids bad).
Qed.

End RegexFacts.

Section CaptureFacts.
Import JsStr Regex Js.

Definition isOpen (it : item) : bool := match it with GOpen => true | _ => false end.
Definition isClose (it : item) : bool := match it with GClose => true | _ => false end.

(** Every alternative of the pattern opens and closes the capture group. *)
Definition grouped (re : regex) : bool :=
  forallb (fun a => existsb isOpen a && existsb isClose a) (alts re).

Lemma mt_caps (its : seq) :
  forall ml pos prev s g e g',
    mt its ml pos prev s g = Some (e, g') ->
    (existsb isOpen its = true \/ is_Some g.1 -> is_Some g'.1)
    /\ (existsb isClose its = true \/ is_Some g.2 -> is_Some g'.2).
Proof.
  induction its as [|it its IH]; intros ml pos prev s g e g' Hmt.
  - simpl in Hmt. injection Hmt as _ <-.
    split; intros [Hex|Hsome]; try discriminate; assumption.
  - destruct it as [p lo hi greedy| | | |]; cbn [mt existsb isOpen isClose orb] in *.
    + apply rep_some in Hmt as (pos' & prev' & s' & Hmt). exact (IH _ _ _ _ _ _ _ Hmt).
    + destruct (IH _ _ _ _ _ _ _ Hmt) as [Ho Hc]. split.
      * intros _. apply Ho. right. simpl. eauto.
      * intros Hx. apply Hc. exact Hx.
    + destruct (IH _ _ _ _ _ _ _ Hmt) as [Ho Hc]. split.
      * intros Hx. apply Ho. exact Hx.
      * intros _. apply Hc. right. simpl. eauto.
    + destruct (at_bol ml prev); [|discriminate]. exact (IH _ _ _ _ _ _ _ Hmt).
    + destruct (at_eol ml s); [|discriminate]. exact (IH _ _ _ _ _ _ _ Hmt).
Qed.

Lemma mt_alts_caps (al : list seq) ml pos prev s e g :
  forallb (fun a => existsb isOpen a && existsb isClose a) al = true ->
  mt_alts al ml pos prev s = Some (e, g) ->
  is_Some g.1 /\ is_Some g.2.
Proof.
  induction al as [|a al IH]; [discriminate|].
  cbn [forallb mt_alts]. intros Hall Hmt. apply andb_true_iff in Hall as [Ha Hal].
  apply andb_true_iff in Ha as [Ho Hc].
  apply orElse_some in Hmt as [Hmt|Hmt]; [|now apply IH].
  destruct (mt_caps a _ _ _ _ _ _ _ Hmt) as [H1 H2]. split; auto.
Qed.

Lemma search_caps re s :
  grouped re = true ->
  forall pos prev st e g,
    search re pos prev s = Some (st, e, g) -> is_Some g.1 /\ is_Some g.2.
Proof.
  intros Hg. induction s as [|c s IH]; intros pos prev st e g; simpl;
    destruct (match_at re pos prev _) as [[e0 g0]|] eqn:Hm; intros Hs;
    try discriminate; try (injection Hs as _ _ <-; now apply (mt_alts_caps _ _ _ _ _ _ _ Hg Hm)).
  eapply IH; eauto.
Qed.

(** A match of a grouped pattern has its capture. *)
Lemma js_match_group re s m :
  grouped re = true -> js_match s re = Some m -> exists g, m1 m = Some g.
Proof.
  intros Hg. unfold js_match.
  destruct (search re 0 None s) as [[[st e] [gs ge]]|] eqn:Hs; [|discriminate].
  destruct (search_caps re s Hg _ _ _ _ _ Hs) as [[a Ha] [b Hb]]. simpl in Ha, Hb. subst.
  intros [= <-]. simpl. eauto.
Qed.

Lemma group1_ok re s m :
  grouped re = true -> js_match s re = Some m -> exists g, Parser.group1 m = Ok g.
Proof.
  intros Hg Hm. destruct (js_match_group re s m Hg Hm) as (g & Hg1).
  exists g. unfold Parser.group1. rewrite Hg1. reflexivity.
Qed.

End CaptureFacts.

(** ** The response parser *)

Section ParserTotal.
Import JsStr Regex Js Parser.

Lemma extractHtml_ok text : exists html, extractHtml text = Ok html.
Proof.
  unfold extractHtml. destruct (js_match text re_html_fence) as [m|] eqn:Hm.
  - destruct (group1_ok re_html_fence text m eq_refl Hm) as (g & ->). simpl. eauto.
  - destruct (js_match text re_html_direct); eauto.
Qed.

Lemma labelledTitle_ok patterns text :
  forallb grouped patterns = true -> exists title, labelledTitle patterns text = Ok title.
Proof.
  induction patterns as [|p ps IH]; cbn [forallb labelledTitle]; [eauto|].
  intros Hall. apply andb_true_iff in Hall as [Hp Hps].
  destruct (js_match text p) as [m|] eqn:Hm; [|now apply IH].
  destruct (group1_ok p text m Hp Hm) as (g & ->). simpl.
  destruct (JsStr.truthy (trim g)); [eauto|now apply IH].
Qed.

Lemma headingTitle_ok re html :
  grouped re = true -> exists found, headingTitle re html = Ok found.
Proof.
  intros Hg. unfold headingTitle. destruct (js_match html re) as [m|] eqn:Hm; [|eauto].
  destruct (group1_ok re html m Hg Hm) as (g & ->). simpl. eauto.
Qed.

Lemma strongTitle_ok text : exists found, strongTitle text = Ok found.
Proof.
  unfold strongTitle. destruct (js_match text re_strong) as [m|] eqn:Hm; [|eauto].
  destruct (group1_ok re_strong text m eq_refl Hm) as (g & ->). simpl. eauto.
Qed.

Lemma firstLabel_ok patterns post text :
  forallb grouped patterns = true -> exists v, firstLabel patterns post text = Ok v.
Proof.
  induction patterns as [|p ps IH]; cbn [forallb firstLabel]; [eauto|].
  intros Hall. apply andb_true_iff in Hall as [Hp Hps].
  destruct (js_match text p) as [m|] eqn:Hm; [|now apply IH].
  destruct (group1_ok p text m Hp Hm) as (g & ->). simpl. eauto.
Qed.

Lemma extractTags_ok text : exists tags, extractTags text = Ok tags.
Proof.
  unfold extractTags. destruct (js_match text re_tags) as [m|] eqn:Hm; [|eauto].
  destruct (group1_ok re_tags text m eq_refl Hm) as (g & ->). simpl. eauto.
Qed.

(** The first of the found titles that is not empty; the empty string when
    there is none. *)
Fixpoint firstNonEmpty (found : list (option string)) : string :=
  match found with
  | [] => EmptyString
  | Some t :: rest => if JsStr.truthy t then t else firstNonEmpty rest
  | None :: rest => firstNonEmpty rest
  end.

Lemma orFallback_ok title found :
  orFallback title (Ok found)
  = Ok (if JsStr.truthy title then title else firstNonEmpty [found; Some title]).
Proof.
  unfold orFallback. destruct (JsStr.truthy title) eqn:Ht; [reflexivity|].
  destruct title; [|discriminate].
  destruct found as [[|c t]|]; reflexivity.
Qed.

(** The stages of the title extraction, made explicit. *)
Lemma rawTitle_stages text html :
  exists labelled h1 strong h2,
    labelledTitle titlePatterns text = Ok labelled
    /\ headingTitle re_h1 html = Ok h1
    /\ strongTitle text = Ok strong
    /\ headingTitle re_h2 html = Ok h2
    /\ rawTitle text html = Ok (firstNonEmpty [Some labelled; h1; strong; h2]).
Proof.
  destruct (labelledTitle_ok titlePatterns text eq_refl) as (labelled & Hl).
  destruct (headingTitle_ok re_h1 html eq_refl) as (h1 & Hh1).
  destruct (strongTitle_ok text) as (strong & Hs).
  destruct (headingTitle_ok re_h2 html eq_refl) as (h2 & Hh2).
  exists labelled, h1, strong, h2. repeat (split; [assumption|]).
  unfold rawTitle. rewrite Hl, Hh1, Hs, Hh2. cbn [rbind].
  rewrite !orFallback_ok. cbn [rbind]. rewrite !orFallback_ok.
  destruct labelled as [|c l]; cbn [JsStr.truthy firstNonEmpty]; [|reflexivity].
  destruct h1 as [[|c1 t1]|]; cbn [JsStr.truthy firstNonEmpty];
    destruct strong as [[|c2 t2]|]; cbn [JsStr.truthy firstNonEmpty];
    destruct h2 as [[|c3 t3]|]; reflexivity.
Qed.

End ParserTotal.

Section ParserClaims.
Import JsStr Regex Js Parser.

(** The structure that the parser returns for the extracted fields. *)
Definition draftOf (title html : string) (tags : list string)
    (metaDescription excerpt : string) : ArticleGenerationResult.t :=
  let metaTitle :=
    if JsStr.truthy title then title +:+ " | Style Me Pretty" else EmptyString in
  {| ArticleGenerationResult.article :=
       {| Article.title := VStr title;
          Article.slug := VStr EmptyString;
          Article.html := VStr html;
          Article.excerpt := VStr excerpt;
          Article.tags := VArr (map VStr tags);
          Article.metaTitle := VStr metaTitle;
          Article.metaDescription := VStr metaDescription;
          Article.featureImage := VUndefined;
          Article.status := VStr "draft" |};
     ArticleGenerationResult.suggestedTags := tags;
     ArticleGenerationResult.metaTitle := metaTitle;
     ArticleGenerationResult.metaDescription := metaDescription;
     ArticleGenerationResult.excerpt := excerpt |}.

Lemma parse_stages text rawHtml rawT tags metaDescription excerpt :
  extractHtml text = Ok rawHtml ->
  rawTitle text rawHtml = Ok rawT ->
  extractTags text = Ok tags ->
  firstLabel metaPatterns (fun s => s) text = Ok metaDescription ->
  firstLabel excerptPatterns cleanExcerpt text = Ok excerpt ->
  parseArticleResponse text
  = Ok (draftOf (cleanTitle rawT) (cleanHtml rawHtml) tags metaDescription excerpt).
Proof.
  intros Hh Ht Hg Hm He. unfold parseArticleResponse.
  rewrite Hh. cbn [rbind]. rewrite Ht. cbn [rbind]. rewrite Hg. cbn [rbind].
  rewrite Hm. cbn [rbind]. rewrite He. reflexivity.
Qed.

Definition unmatched (text : string) (patterns : list regex) : Prop :=
  forall p, In p patterns -> js_match text p = None.

Lemma labelledTitle_unmatched patterns text :
  unmatched text patterns -> labelledTitle patterns text = Ok EmptyString.
Proof.
  induction patterns as [|p ps IH]; intros Hun; [reflexivity|]. cbn [labelledTitle].
  rewrite (Hun p (or_introl eq_refl)). apply IH. intros q Hq. apply Hun. now right.
Qed.

Lemma firstLabel_unmatched patterns post text :
  unmatched text patterns -> firstLabel patterns post text = Ok EmptyString.
Proof.
  induction patterns as [|p ps IH]; intros Hun; [reflexivity|]. cbn [firstLabel].
  rewrite (Hun p (or_introl eq_refl)). apply IH. intros q Hq. apply Hun. now right.
Qed.

(** The characters without which no pattern of the parser matches. *)
Definition isMarker : ascii -> bool := oneof ":#<*`".

Lemma unmatched_markers text patterns :
  forallb (needsAll isMarker) patterns = true ->
  avoids isMarker text = true ->
  unmatched text patterns.
Proof.
  intros Hall Havoid p Hin. apply (js_match_avoids isMarker); [|exact Havoid].
  exact (proj1 (forallb_forall _ _) Hall p Hin).
Qed.

Definition emptyDraft : ArticleGenerationResult.t :=
  draftOf EmptyString EmptyString [] EmptyString EmptyString.

(** C7.  For every text the parser returns, without throwing, a structure
    whose title, slug, HTML, excerpt, meta title and meta description are
    strings, whose tags are an array of strings and whose status is draft.
    A field none of whose patterns matches is the empty string (no tags
    for the tags): the HTML when neither the fence nor a tag span is
    found; the title and the meta title when no title pattern matches the
    text or the extracted HTML; likewise the meta description and the
    excerpt.  In particular a text without any of the characters colon,
    hash, angle bracket, asterisk and backquote yields the structure with
    all of them empty. *)
Theorem parseArticleResponse_is_total (text : string) :
  exists rawHtml rawT tags metaDescription excerpt,
    extractHtml text = Ok rawHtml
    /\ parseArticleResponse text
       = Ok (draftOf (cleanTitle rawT) (cleanHtml rawHtml) tags metaDescription excerpt)
    /\ (js_match text re_html_fence = None -> js_match text re_html_direct = None ->
        rawHtml = EmptyString /\ cleanHtml rawHtml = EmptyString)
    /\ (unmatched text titlePatterns -> js_match rawHtml re_h1 = None ->
        js_match text re_strong = None -> js_match rawHtml re_h2 = None ->
        cleanTitle rawT = EmptyString)
    /\ (js_match text re_tags = None -> tags = [])
    /\ (unmatched text metaPatterns -> metaDescription = EmptyString)
    /\ (unmatched text excerptPatterns -> excerpt = EmptyString)
    /\ (avoids isMarker text = true -> parseArticleResponse text = Ok emptyDraft).
Proof.
  destruct (extractHtml_ok text) as (rawHtml & Hh).
  destruct (rawTitle_stages text rawHtml) as (labelled & h1 & strong & h2 & Hl & Hh1 & Hs & Hh2 & Ht).
  destruct (extractTags_ok text) as (tags & Hg).
  destruct (firstLabel_ok metaPatterns (fun s => s) text eq_refl) as (meta & Hm).
  destruct (firstLabel_ok excerptPatterns cleanExcerpt text eq_refl) as (exc & He).
  pose proof (parse_stages text _ _ _ _ _ Hh Ht Hg Hm He) as Hparse.
  assert (Hhtml : js_match text re_html_fence = None ->
                  js_match text re_html_direct = None -> rawHtml = EmptyString).
  { intros Hf Hd. unfold extractHtml in Hh. rewrite Hf, Hd in Hh. congruence. }
  assert (Htitle : unmatched text titlePatterns -> js_match rawHtml re_h1 = None ->
                   js_match text re_strong = None -> js_match rawHtml re_h2 = None ->
                   firstNonEmpty [Some labelled; h1; strong; h2] = EmptyString).
  { intros Hun H1 H2 H3. rewrite (labelledTitle_unmatched _ _ Hun) in Hl.
    unfold headingTitle in Hh1, Hh2. unfold strongTitle in Hs.
    rewrite H1 in Hh1. rewrite H2 in Hs. rewrite H3 in Hh2.
    injection Hl as <-. injection Hh1 as <-. injection Hs as <-. injection Hh2 as <-.
    reflexivity. }
  assert (Htags : js_match text re_tags = None -> tags = []).
  { intros Hn. unfold extractTags in Hg. rewrite Hn in Hg. congruence. }
  assert (Hmeta : unmatched text metaPatterns -> meta = EmptyString).
  { intros Hun. rewrite (firstLabel_unmatched _ _ _ Hun) in Hm. congruence. }
  assert (Hexc : unmatched text excerptPatterns -> exc = EmptyString).
  { intros Hun. rewrite (firstLabel_unmatched _ _ _ Hun) in He. congruence. }
  exists rawHtml, (firstNonEmpty [Some labelled; h1; strong; h2]), tags, meta, exc.
  split; [exact Hh|]. split; [exact Hparse|].
  split; [intros Hf Hd; rewrite (Hhtml Hf Hd); split; reflexivity|].
  split; [intros Hun H1 H2 H3; rewrite (Htitle Hun H1 H2 H3); reflexivity|].
  split; [exact Htags|]. split; [exact Hmeta|]. split; [exact Hexc|].
  intros Havoid. rewrite Hparse.
  assert (Hraw : rawHtml = EmptyString).
  { apply Hhtml; apply (js_match_avoids isMarker); auto. }
  subst rawHtml.
  rewrite Htitle, Htags, Hmeta, Hexc; try reflexivity;
    try (apply (js_match_avoids isMarker); auto; fail);
    try (apply unmatched_markers; auto; fail).
Qed.

Lemma parseArticleResponse_is_total_witness :
  avoids isMarker "Thanks, the article is on its way." = true
  /\ parseArticleResponse "Thanks, the article is on its way." = Ok emptyDraft.
Proof.
  split; [reflexivity|].
  destruct (parseArticleResponse_is_total "Thanks, the article is on its way.")
    as (rawHtml & rawT & tags & meta & exc & _ & _ & _ & _ & _ & _ & _ & Hempty).
  exact (Hempty eq_refl).
Defined.

End ParserClaims.

(** ** What a match of the bold-phrase pattern captures *)

Section StrongPattern.
Import JsStr Regex Js Parser.

Fixpoint allIn (p : ascii -> bool) (w : string) : bool :=
  match w with
  | EmptyString => true
  | String c r => p c && allIn p r
  end.

Lemma append_nil (b : string) : EmptyString +:+ b = b.
Proof. reflexivity. Qed.

Lemma append_cons (c : ascii) (a b : string) : String c a +:+ b = String c (a +:+ b).
Proof. reflexivity. Qed.

Lemma length_append (a b : string) :
  String.length (a +:+ b) = String.length a + String.length b.
Proof.
  induction a as [|c a IH]; [reflexivity|]. rewrite append_cons. simpl. now rewrite IH.
Qed.

Lemma append_assoc (a b c : string) : (a +:+ b) +:+ c = a +:+ b +:+ c.
Proof.
  induction a as [|x a IH]; [reflexivity|]. rewrite !append_cons. now rewrite IH.
Qed.

Lemma substring_prefix (b c : string) :
  String.substring 0 (String.length b) (b +:+ c) = b.
Proof.
  induction b as [|x b IH].
  - rewrite append_nil. destruct c; reflexivity.
  - rewrite append_cons. simpl. now rewrite IH.
Qed.

Lemma substring_middle (a b c : string) :
  String.substring (String.length a) (String.length b) (a +:+ b +:+ c) = b.
Proof.
  induction a as [|x a IH]; [exact (substring_prefix b c)|].
  rewrite append_cons. simpl. exact IH.
Qed.

(** A single character of a class. *)
Lemma one_some {R} p (k : nat -> option ascii -> string -> option R) pos prev s (r : R) :
  rep p 1 (Some 1) true k pos prev s = Some r ->
  exists c s', s = String c s' /\ p c = true /\ k (S pos) (Some c) s' = Some r.
Proof.
  rewrite rep_eq. cbv zeta. destruct s as [|c s']; [discriminate|].
  destruct (p c) eqn:Hp; [|discriminate]. cbn [pred dec_hi].
  rewrite rep_eq. cbv zeta. cbn [orElse]. intros Hk.
  exists c, s'. split; [reflexivity|]. split; [exact Hp|].
  destruct (k (S pos) (Some c) s'); [exact Hk|discriminate].
Qed.

(** A bounded quantifier consumes between [lo] and [hi] characters of its
    class. *)
Lemma rep_bounded {R} p greedy (k : nat -> option ascii -> string -> option R) (r : R) s :
  forall lo hi pos prev,
    rep p lo (Some hi) greedy k pos prev s = Some r ->
    exists w s' prev',
      s = w +:+ s' /\ lo <= String.length w /\ String.length w <= hi
      /\ allIn p w = true /\ k (pos + String.length w) prev' s' = Some r.
Proof.
  induction s as [|c s IH]; intros lo hi pos prev; rewrite rep_eq; cbv zeta; intros Hrep.
  - assert (Hstop : match lo with 0 => k pos prev EmptyString | S _ => None end = Some r).
    { destruct greedy; apply orElse_some in Hrep as [Hr|Hr];
        destruct hi; try discriminate; assumption. }
    destruct lo; [|discriminate].
    exists EmptyString, EmptyString, prev. rewrite Nat.add_0_r. simpl.
    repeat split; auto; lia.
  - assert (Hcases :
      match lo with 0 => k pos prev (String c s) | S _ => None end = Some r
      \/ exists h, hi = S h /\ p c = true
           /\ rep p (pred lo) (Some h) greedy k (S pos) (Some c) s = Some r).
    { destruct greedy; apply orElse_some in Hrep as [Hr|Hr]; auto;
        destruct hi as [|h]; try discriminate; destruct (p c) eqn:Hp; try discriminate;
        right; exists h; auto. }
    destruct Hcases as [Hstop|(h & -> & Hp & Hmore)].
    + destruct lo; [|discriminate].
      exists EmptyString, (String c s), prev. rewrite Nat.add_0_r. simpl.
      repeat split; auto; lia.
    + destruct (IH _ _ _ _ Hmore) as (w & s' & prev' & -> & Hlo & Hhi & Hall & Hk).
      exists (String c w), s', prev'. simpl. rewrite Hp, Hall.
      replace (pos + S (String.length w)) with (S pos + String.length w) by lia.
      repeat split; auto; lia.
Qed.

(** The class of the bold phrase after its first letter: neither an
    asterisk nor a line feed. *)
Definition phraseChar (c : ascii) : bool := negb (ch "*" c || Ascii.eqb c LF).

Definition strongSeq : seq :=
  lits "**" ++ [GOpen; one is_upper; Rep phraseChar 10 (Some 80) true; GClose] ++ lits "**".

Lemma re_strong_alts : alts re_strong = [strongSeq] /\ multiline re_strong = false.
Proof. split; reflexivity. Qed.

Lemma ch_eq (c x : ascii) : ch c x = true -> x = c.
Proof. unfold ch. intros Hx. apply Ascii.eqb_eq in Hx. congruence. Qed.

Lemma mt_strong ml pos prev s g e g' :
  mt strongSeq ml pos prev s g = Some (e, g') ->
  exists c w s',
    s = "**" +:+ String c w +:+ "**" +:+ s'
    /\ is_upper c = true
    /\ 10 <= String.length w /\ String.length w <= 80
    /\ allIn phraseChar w = true
    /\ g' = (Some (pos + 2), Some (pos + 3 + String.length w)).
Proof.
  unfold strongSeq. cbn [lits app mt]. fold (one (ch "*")). intros Hmt.
  apply one_some in Hmt as (c1 & s1 & -> & Hc1 & Hmt).
  apply one_some in Hmt as (c2 & s2 & -> & Hc2 & Hmt).
  apply one_some in Hmt as (c & s3 & -> & Hc & Hmt).
  apply rep_bounded in Hmt as (w & s4 & prev4 & -> & Hlo & Hhi & Hall & Hmt).
  apply one_some in Hmt as (c5 & s5 & -> & Hc5 & Hmt).
  apply one_some in Hmt as (c6 & s6 & -> & Hc6 & Hmt).
  injection Hmt as _ <-.
  apply ch_eq in Hc1, Hc2, Hc5, Hc6. subst.
  exists c, w, s6. split; [reflexivity|].
  repeat split; auto. f_equal; f_equal; lia.
Qed.

(** A match found by the search starts after a prefix of the string. *)
Lemma search_sound re s :
  forall pos prev st e g,
    search re pos prev s = Some (st, e, g) ->
    exists pre s1 prev1,
      s = pre +:+ s1 /\ st = pos + String.length pre
      /\ match_at re st prev1 s1 = Some (e, g).
Proof.
  induction s as [|c s IH]; intros pos prev st e g; simpl;
    destruct (match_at re pos prev _) as [[e0 g0]|] eqn:Hm; intros Hs.
  - injection Hs as <- <- <-. exists EmptyString, EmptyString, prev.
    rewrite Nat.add_0_r. auto.
  - discriminate.
  - injection Hs as <- <- <-. exists EmptyString, (String c s), prev.
    rewrite Nat.add_0_r. auto.
  - destruct (IH _ _ _ _ _ Hs) as (pre & s1 & prev1 & -> & -> & Hm1).
    exists (String c pre), s1, prev1. simpl. split; [reflexivity|]. split; [lia|exact Hm1].
Qed.

(** The phrase that [strongTitle] finds: between two pairs of asterisks,
    an upper-case letter followed by 10 to 80 characters that are neither
    asterisks nor line feeds; it is trimmed. *)
Lemma strongTitle_shape text t :
  strongTitle text = Ok (Some t) ->
  exists pre c w post,
    text = pre +:+ "**" +:+ String c w +:+ "**" +:+ post
    /\ t = trim (String c w)
    /\ is_upper c = true
    /\ 10 <= String.length w /\ String.length w <= 80
    /\ allIn phraseChar w = true.
Proof.
  unfold strongTitle, js_match.
  destruct (search re_strong 0 None text) as [[[st e] [gs ge]]|] eqn:Hs; [|discriminate].
  apply search_sound in Hs as (pre & s1 & prev1 & -> & -> & Hm).
  unfold match_at in Hm. rewrite (proj1 re_strong_alts) in Hm. cbn [mt_alts] in Hm.
  apply orElse_some in Hm as [Hm|Hm]; [|discriminate].
  apply mt_strong in Hm as (c & w & post & -> & Hc & Hlo & Hhi & Hall & [= -> ->]).
  cbn [group1 m1 opt_str string_receiver rbind]. intros [= <-].
  exists pre, c, w, post. split; [reflexivity|]. split; [|auto].
  f_equal. unfold sub. cbn [Nat.add].
  assert (E1 : String.length pre + 2 = String.length (pre +:+ "**"))
    by (rewrite length_append; reflexivity).
  assert (E2 : String.length pre + 3 + String.length w - (String.length pre + 2)
               = String.length (String c w)) by (simpl; lia).
  rewrite E2, E1, <- (append_assoc pre "**"). apply substring_middle.
Qed.

End StrongPattern.

(** ** The order of the title fallbacks *)

Section TitleFallbacks.
Import JsStr Regex Js Parser.
Local Open Scope result_scope.

(** The fallbacks in the order in which the specification words them: the
    first h1 of the HTML, then the first h2, then the bold phrase. *)
Definition rawTitle_as_specified (text html : string) : Result string :=
  title <- labelledTitle titlePatterns text ;;
  title <- orFallback title (headingTitle re_h1 html) ;;
  title <- orFallback title (headingTitle re_h2 html) ;;
  orFallback title (strongTitle text).

Definition noneMatches (text : string) (patterns : list regex) : bool :=
  forallb (fun p => match js_match text p with None => true | Some _ => false end) patterns.

(** A bold phrase on its own line, then an h2 heading. *)
Definition boldThenHeading : string :=
  "**Bold Phrase Example**" +:+ String LF "<h2>Heading Two</h2>".

(** An h1 heading that holds only a blank, then a bold phrase. *)
Definition blankHeading : string := "<h1> </h1> **Abcdefghijk**".

(** C9, as the code has it.  When the labelled patterns leave the title
    empty (in particular when none of them matches the text), the title is
    the first that is not empty among: the first h1 of the extracted HTML,
    then the bold phrase of the text, then the first h2 of the extracted
    HTML; a fallback that matches with an empty title does not stop the
    later ones.  The bold phrase is an upper-case letter followed by 10 to
    80 characters that are neither asterisks nor line feeds, between two
    pairs of asterisks, trimmed. *)
Theorem title_fallbacks_in_order (text : string) :
  labelledTitle titlePatterns text = Ok EmptyString ->
  exists rawHtml h1 strong h2,
    extractHtml text = Ok rawHtml
    /\ headingTitle re_h1 rawHtml = Ok h1
    /\ strongTitle text = Ok strong
    /\ headingTitle re_h2 rawHtml = Ok h2
    /\ rawTitle text rawHtml = Ok (firstNonEmpty [h1; strong; h2])
    /\ (exists r,
          parseArticleResponse text = Ok r
          /\ Article.title (ArticleGenerationResult.article r)
             = VStr (cleanTitle (firstNonEmpty [h1; strong; h2])))
    /\ (forall t, strong = Some t ->
        exists pre c w post,
          text = pre +:+ "**" +:+ String c w +:+ "**" +:+ post
          /\ t = trim (String c w)
          /\ is_upper c = true
          /\ 10 <= String.length w /\ String.length w <= 80
          /\ allIn phraseChar w = true).
Proof.
  intros Hlabelled.
  destruct (extractHtml_ok text) as (rawHtml & Hhtml).
  destruct (rawTitle_stages text rawHtml)
    as (labelled & h1 & strong & h2 & Hl & Hh1 & Hs & Hh2 & Ht).
  rewrite Hlabelled in Hl. injection Hl as <-. cbn [firstNonEmpty JsStr.truthy] in Ht.
  exists rawHtml, h1, strong, h2.
  repeat (split; [assumption|]). split.
  - destruct (extractTags_ok text) as (tags' & Hg).
    destruct (firstLabel_ok metaPatterns (fun s => s) text eq_refl) as (meta' & Hm).
    destruct (firstLabel_ok excerptPatterns cleanExcerpt text eq_refl) as (exc' & He).
    eexists. split; [exact (parse_stages text _ _ _ _ _ Hhtml Ht Hg Hm He)|reflexivity].
  - intros t ->. now apply strongTitle_shape.
Qed.

Lemma title_fallbacks_in_order_witness :
  labelledTitle titlePatterns boldThenHeading = Ok EmptyString
  /\ exists rawHtml h1 strong h2,
       extractHtml boldThenHeading = Ok rawHtml
       /\ headingTitle re_h1 rawHtml = Ok h1
       /\ strongTitle boldThenHeading = Ok strong
       /\ headingTitle re_h2 rawHtml = Ok h2
       /\ rawTitle boldThenHeading rawHtml = Ok (firstNonEmpty [h1; strong; h2]).
Proof.
  split; [reflexivity|].
  destruct (title_fallbacks_in_order boldThenHeading eq_refl)
    as (rawHtml & h1 & strong & h2 & H1 & H2 & H3 & H4 & H5 & _).
  exists rawHtml, h1, strong, h2. auto.
Defined.

(** C9 as stated fails.  With no labelled pattern matching, a bold phrase
    in the text and an h2 in the HTML, the code takes the bold phrase,
    where the stated order takes the h2.  A bold phrase of 10 characters is
    not taken.  And an h1 that matches with a blank content does not win:
    the bold phrase after it gives the title. *)
Lemma bold_phrase_precedes_h2 :
  noneMatches boldThenHeading titlePatterns = true
  /\ extractHtml boldThenHeading = Ok "<h2>Heading Two</h2>"
  /\ rawTitle boldThenHeading "<h2>Heading Two</h2>" = Ok "Bold Phrase Example"
  /\ rawTitle_as_specified boldThenHeading "<h2>Heading Two</h2>" = Ok "Heading Two"
  /\ String.length "Abcdefghij" = 10
  /\ strongTitle "**Abcdefghij**" = Ok None
  /\ noneMatches blankHeading titlePatterns = true
  /\ extractHtml blankHeading = Ok "<h1> </h1>"
  /\ headingTitle re_h1 "<h1> </h1>" = Ok (Some EmptyString)
  /\ rawTitle blankHeading "<h1> </h1>" = Ok "Abcdefghijk".
Proof. vm_compute. repeat split. Qed.

End TitleFallbacks.

(** ** The claims on concrete runs *)

Section ConcreteRuns.
Import JsStr Js Eff Anthropic.

(** An article object that asks to be published. *)
Definition publishedArticle : Article.t :=
  {| Article.title := VStr "Hello World";
     Article.slug := VStr EmptyString;
     Article.html := VStr "<p>Hello</p>";
     Article.excerpt := VUndefined;
     Article.tags := VArr [VStr "news"];
     Article.metaTitle := VUndefined;
     Article.metaDescription := VUndefined;
     Article.featureImage := VUndefined;
     Article.status := VStr "published" |}.

Lemma createDraftArticle_status_is_draft_witness :
  Article.status publishedArticle = VStr "published"
  /\ (@Ghost.createDraftArticle Fixtures.blog publishedArticle Fixtures.blogStart).1
     = Ok ("p9", "https://blog.example/p/p9/")
  /\ exists postData,
       log (@Ghost.createDraftArticle Fixtures.blog publishedArticle Fixtures.blogStart).2
       = [EvPostsAdd postData]
       /\ field postData "status" = VStr "draft".
Proof.
  split; [reflexivity|]. split; [reflexivity|].
  destruct (proj1 (@createDraftArticle_status_is_draft Fixtures.blog publishedArticle
                     Fixtures.blogStart)) as (evs & Hlog & _ & Hok).
  destruct (Hok _ eq_refl) as (postData & -> & Hstatus & _).
  exists postData. split; [exact Hlog|exact Hstatus].
Defined.

Lemma model_calls_are_bounded_witness :
  length (modelCalls
            (log (@Agent.runContentAgent Fixtures.persistent "go" "folder" None
                    Fixtures.persistentStart).2))
  = Agent.maxIterations + 1
  /\ exists evs,
       log (@Agent.runContentAgent Fixtures.persistent "go" "folder" None
              Fixtures.persistentStart).2 = evs
       /\ length (modelCalls evs) <= Agent.maxIterations + 1.
Proof.
  split; [vm_compute; reflexivity|].
  destruct (@model_calls_are_bounded Fixtures.persistent "go" "folder" None
              Fixtures.persistentStart) as (evs & Hlog & Hlen & _).
  exists evs. split; [exact Hlog|exact Hlen].
Defined.

(** The first response of the model of the blog of the examples. *)
Definition askingResponse (toolName : string) : Message :=
  mkResponse "tool_use" [TextBlock "working"; ToolUseBlock "toolu_1" toolName ∅].

Lemma tool_use_below_the_ceiling_is_answered_witness :
  modelCalls (log (@Agent.runContentAgent Fixtures.blog "go" "folder" None
                     Fixtures.blogStart).2) !! 0
  = Some ([mkMessage user (Text "go")], Ok (askingResponse "research_topic"))
  /\ exists results next,
       modelCalls (log (@Agent.runContentAgent Fixtures.blog "go" "folder" None
                          Fixtures.blogStart).2) !! 1
       = Some (answered [mkMessage user (Text "go")] (askingResponse "research_topic")
                        results, next)
       /\ map tool_use_id results = ["toolu_1"]
       /\ length results = 1.
Proof.
  split; [vm_compute; reflexivity|].
  destruct (@tool_use_below_the_ceiling_is_answered Fixtures.blog "go" "folder" None
              Fixtures.blogStart) as (_ & _ & evs & Hlog & _ & _ & Hanswered).
  change (log Fixtures.blogStart ++ evs) with evs in Hlog. rewrite <- Hlog in Hanswered.
  destruct (Hanswered 0 [mkMessage user (Text "go")] (askingResponse "research_topic"))
    as (results & next & Hnext & Hids & Hlen);
    [vm_compute; reflexivity|reflexivity|unfold Agent.maxIterations; lia|].
  exists results, next. split; [exact Hnext|]. split; [exact Hids|exact Hlen].
Defined.

(** The run of the agent with the model that asks for a tool in every
    response. *)
Definition insistentRun : Result (option string) * @State Fixtures.insistent :=
  @Agent.runContentAgent Fixtures.insistent "go" "folder" None Fixtures.insistentStart.

Definition isToolCall (ev : Event) : bool :=
  match ev with EvCall _ _ => true | _ => false end.

(** C1 as stated fails at the ceiling: the sixteenth response of the model
    is an assistant turn with a tool-use block; the loop ends on it, so it
    is the last event of the record, no tool is run for it (fifteen tool
    calls for sixteen tool-use blocks) and no model call carries a result
    for it. *)
Lemma tool_use_at_the_ceiling_gets_no_result :
  length (modelCalls (log insistentRun.2)) = Agent.maxIterations + 1
  /\ option_map snd (last (modelCalls (log insistentRun.2)))
     = Some (Ok (askingResponse "list_interviews"))
  /\ toolUseIds (blocks (askingResponse "list_interviews")) = ["toolu_1"]
  /\ match last (log insistentRun.2) with
     | Some (EvModel _ outcome) => outcome = Ok (askingResponse "list_interviews")
     | _ => False
     end
  /\ length (List.filter isToolCall (log insistentRun.2)) = Agent.maxIterations
  /\ insistentRun.1 = Ok (Some ("working" +:+ Agent.limitNote)).
Proof. vm_compute. repeat split. Qed.

End ConcreteRuns.

(** ** The embedding on the examples of the specification *)

Section Examples.
Import JsStr Regex Js Parser.

Example generateSlug_of_a_title :
  Metadata.generateSlug "Sarah Chen Floral Journey" = "sarah-chen-floral-journey"
  /\ Metadata.generateSlug "  --Hello,   World__ & friends!-- " = "hello-world-friends".
Proof. split; reflexivity. Qed.

Example generateMetaTitle_truncates :
  Metadata.generateMetaTitle "A very long title that goes on and on and on forever"
  = "A very long title that goes on an... | Pretty's Perspectives".
Proof. reflexivity. Qed.

Example split_on_spaces :
  split "  a b   c " Scheduler.re_spaces = [""; "a"; "b"; "c"; ""]
  /\ split EmptyString Scheduler.re_spaces = [""].
Proof. split; reflexivity. Qed.

(** A response with a fenced HTML block, a title label and a tags label. *)
Definition fencedResponse : string :=
  "Title: X" +:+ String LF
  ("Tags: a, b, c" +:+ String LF
  ("```html" +:+ String LF
  ("<p>Hello \_ world</p>" +:+ String LF "```"))).

Example parse_fenced_response :
  parseArticleResponse fencedResponse
  = Ok (draftOf "X" "<p>Hello _ world</p>" ["a"; "b"; "c"] EmptyString EmptyString).
Proof. reflexivity. Qed.

Example stringify_unknown_tool :
  String.length (unknownToolMessage "frobnicate") = 36
  /\ startsWith (String "{" (String dquote "error")) (unknownToolMessage "frobnicate") = true.
Proof. split; reflexivity. Qed.

End Examples.

(* ===================================================================== *)
(** * Further properties: the utilities, the services and the schedulers *)
(* ===================================================================== *)

(** ** Replacement and splitting as functions on strings *)

Section Quantifiers.
Import JsStr Regex.

(** The length of the longest prefix whose characters are in [p], and what
    is left past it. *)
Fixpoint run (p : ascii -> bool) (s : string) : nat :=
  match s with
  | String c r => if p c then S (run p r) else 0
  | EmptyString => 0
  end.

Fixpoint past (p : ascii -> bool) (pos : nat) (prev : option ascii) (s : string)
    : nat * option ascii * string :=
  match s with
  | String c r => if p c then past p (S pos) (Some c) r else (pos, prev, s)
  | EmptyString => (pos, prev, s)
  end.

Lemma past_pos p s : forall pos prev, (past p pos prev s).1.1 = pos + run p s.
Proof.
  induction s as [|c s IH]; intros pos prev; simpl; [lia|].
  destruct (p c); simpl; [rewrite IH|]; lia.
Qed.

Lemma orElse_None_r {A} (x : option A) : orElse x None = x.
Proof. now destruct x. Qed.

(** A greedy quantifier without an upper bound that cannot take [lo]
    characters fails. *)
Lemma rep_short {R} p (k : nat -> option ascii -> string -> option R) s :
  forall lo pos prev, run p s < lo -> rep p lo None true k pos prev s = None.
Proof.
  induction s as [|c s IH]; intros lo pos prev Hlo; rewrite rep_eq; cbv zeta; cbn [dec_hi].
  - destruct lo; [lia|reflexivity].
  - simpl in Hlo. destruct (p c).
    + rewrite IH by lia. destruct lo; [lia|reflexivity].
    + destruct lo; [lia|reflexivity].
Qed.

(** It takes the longest run when the continuation accepts what is left
    past it. *)
Lemma rep_longest {R} p (k : nat -> option ascii -> string -> option R) (r : R) s :
  forall lo pos prev,
    lo <= run p s ->
    (let '(pos', prev', s') := past p pos prev s in k pos' prev' s') = Some r ->
    rep p lo None true k pos prev s = Some r.
Proof.
  induction s as [|c s IH]; intros lo pos prev Hlo Hk; rewrite rep_eq; cbv zeta; cbn [dec_hi].
  - simpl in *. destruct lo; [exact Hk|lia].
  - simpl in Hlo, Hk. destruct (p c).
    + rewrite (IH (pred lo) (S pos) (Some c)); [reflexivity|lia|exact Hk].
    + destruct lo; [exact Hk|lia].
Qed.

(** It takes the longest run or nothing when the continuation refuses
    every string that starts with a character of the class. *)
Lemma rep_commits {R} p (k : nat -> option ascii -> string -> option R) s :
  (forall pos prev c r, p c = true -> k pos prev (String c r) = None) ->
  forall lo pos prev,
    lo <= run p s ->
    rep p lo None true k pos prev s
    = let '(pos', prev', s') := past p pos prev s in k pos' prev' s'.
Proof.
  intros Hk. induction s as [|c s IH]; intros lo pos prev Hlo; rewrite rep_eq; cbv zeta; cbn [dec_hi].
  - simpl in *. destruct lo; [reflexivity|lia].
  - simpl in Hlo. simpl past. destruct (p c) eqn:Hp.
    + rewrite (IH (pred lo) (S pos) (Some c)) by lia.
      destruct lo; [rewrite (Hk _ _ _ _ Hp)|]; apply orElse_None_r.
    + destruct lo; [reflexivity|lia].
Qed.

(** A pattern of one character class. *)
Lemma match_one p pos prev s :
  match_at (re1 [one p]) pos prev s
  = match s with
    | String c _ => if p c then Some (S pos, no_caps) else None
    | EmptyString => None
    end.
Proof.
  unfold match_at, re1, one. cbn [alts multiline mt_alts mt].
  rewrite rep_eq. cbv zeta. destruct s as [|c s]; [reflexivity|].
  destruct (p c); [|reflexivity]. rewrite rep_eq. reflexivity.
Qed.

(** A pattern of one or more characters of a class. *)
Lemma match_plus p pos prev s :
  match_at (re1 [plus p]) pos prev s
  = if 1 <=? run p s then Some (pos + run p s, no_caps) else None.
Proof.
  unfold match_at, re1, plus. cbn [alts multiline mt_alts mt].
  destruct (1 <=? run p s) eqn:Hrun.
  - apply Nat.leb_le in Hrun. erewrite rep_longest; [reflexivity|exact Hrun|].
    pose proof (past_pos p s pos prev) as Hpos.
    destruct (past p pos prev s) as [[pos' prev'] s']. simpl in Hpos. now subst.
  - apply Nat.leb_gt in Hrun. rewrite rep_short by lia. reflexivity.
Qed.

End Quantifiers.

Section Replacing.
Import JsStr Regex.

(** [s.replace(/[class]/g, repl)]: each character of the class gives way
    to [repl]. *)
Fixpoint substitute (p : ascii -> bool) (repl : string) (s : string) : string :=
  match s with
  | EmptyString => EmptyString
  | String c r =>
      if p c then repl +:+ substitute p repl r else String c (substitute p repl r)
  end.

(** [s.replace(/[class]+/g, repl)]: each maximal run of the class gives way
    to [repl]; [inside] tells that the run has begun. *)
Fixpoint collapse (p : ascii -> bool) (repl : string) (inside : bool) (s : string)
    : string :=
  match s with
  | EmptyString => EmptyString
  | String c r =>
      if p c then
        if inside then collapse p repl true r else repl +:+ collapse p repl true r
      else String c (collapse p repl false r)
  end.

Lemma replace_go_one p repl s :
  forall pos prev, replace_go (re1 [one p]) repl 0 pos prev s = substitute p repl s.
Proof.
  induction s as [|c s IH]; intros pos prev; cbn [replace_go]; rewrite match_one.
  - reflexivity.
  - cbn [substitute]. destruct (p c).
    + replace (S pos - pos) with 1 by lia. now rewrite IH.
    + now rewrite IH.
Qed.

Lemma replace_one p repl s : replace_all s (re1 [one p]) repl = substitute p repl s.
Proof. apply replace_go_one. Qed.

Lemma replace_go_plus p repl s :
  (forall pos prev, replace_go (re1 [plus p]) repl 0 pos prev s = collapse p repl false s)
  /\ (forall pos prev,
        replace_go (re1 [plus p]) repl (run p s) pos prev s = collapse p repl true s).
Proof.
  induction s as [|c s [IH0 IH1]].
  - split; intros pos prev; cbn [run replace_go]; rewrite match_plus; reflexivity.
  - assert (H0 : forall pos prev,
      replace_go (re1 [plus p]) repl 0 pos prev (String c s)
      = collapse p repl false (String c s)).
    { intros pos prev. cbn [replace_go]. rewrite match_plus. cbn [run collapse].
      destruct (p c).
      - cbn [Nat.leb]. replace (pos + S (run p s) - pos) with (S (run p s)) by lia.
        now rewrite IH1.
      - cbn [Nat.leb]. now rewrite IH0. }
    split; [exact H0|]. intros pos prev. cbn [run]. destruct (p c) eqn:Hp.
    + cbn [replace_go collapse]. rewrite Hp. apply IH1.
    + rewrite H0. cbn [collapse]. now rewrite Hp.
Qed.

Lemma replace_plus p repl s :
  replace_all s (re1 [plus p]) repl = collapse p repl false s.
Proof. apply replace_go_plus. Qed.

End Replacing.

(** ** Character classes and the ends of a string *)

Section Classes.
Import JsStr Regex.

(** A property of every 8-bit character, by enumeration. *)
Lemma forall_ascii (f : ascii -> bool) :
  forallb (fun n => f (ascii_of_nat n)) (List.seq 0 256) = true ->
  forall c, f c = true.
Proof.
  intros Hall c.
  assert (Hin : In (nat_of_ascii c) (List.seq 0 256)).
  { apply in_seq. pose proof (nat_ascii_bounded c). lia. }
  pose proof (proj1 (forallb_forall _ _) Hall _ Hin) as Hc.
  cbv beta in Hc. now rewrite ascii_nat_embedding in Hc.
Qed.

Definition firstIs (p : ascii -> bool) (s : string) : bool :=
  match s with String c _ => p c | EmptyString => false end.

Fixpoint lastIs (p : ascii -> bool) (s : string) : bool :=
  match s with
  | EmptyString => false
  | String c EmptyString => p c
  | String _ r => lastIs p r
  end.

(** Two neighbours in the class. *)
Fixpoint adjacent (p : ascii -> bool) (s : string) : bool :=
  match s with
  | String a r => (p a && firstIs p r) || adjacent p r
  | EmptyString => false
  end.

Fixpoint dropStart (p : ascii -> bool) (s : string) : string :=
  match s with
  | String c r => if p c then dropStart p r else s
  | EmptyString => EmptyString
  end.

Fixpoint dropEnd (p : ascii -> bool) (s : string) : string :=
  match s with
  | EmptyString => EmptyString
  | String c r =>
      match dropEnd p r with
      | EmptyString => if p c then EmptyString else String c EmptyString
      | r' => String c r'
      end
  end.

Lemma trimStart_drop s : trimStart s = dropStart is_space s.
Proof. induction s as [|c s IH]; simpl; [|rewrite IH]; reflexivity. Qed.

Lemma trimEnd_drop s : trimEnd s = dropEnd is_space s.
Proof. induction s as [|c s IH]; simpl; [|rewrite IH]; reflexivity. Qed.

Lemma trim_drop s : trim s = dropEnd is_space (dropStart is_space s).
Proof. unfold trim. now rewrite trimStart_drop, trimEnd_drop. Qed.

Lemma allIn_weaken (p q : ascii -> bool) s :
  (forall c, p c = true -> q c = true) -> allIn p s = true -> allIn q s = true.
Proof.
  intros Hpq. induction s as [|c s IH]; simpl; [reflexivity|].
  intros H. apply andb_true_iff in H as [Hc Hs]. now rewrite (Hpq c Hc), IH.
Qed.

Lemma allIn_and (p q : ascii -> bool) s :
  allIn p s = true -> allIn q s = true -> allIn (fun c => p c && q c) s = true.
Proof.
  induction s as [|c s IH]; simpl; [reflexivity|].
  intros Hp Hq. apply andb_true_iff in Hp as [-> Hp]. apply andb_true_iff in Hq as [-> Hq].
  now rewrite IH.
Qed.

Lemma allIn_append p a b :
  allIn p (a +:+ b) = allIn p a && allIn p b.
Proof.
  induction a as [|c a IH]; [now rewrite append_nil|].
  rewrite append_cons. simpl. now rewrite IH, andb_assoc.
Qed.

Lemma dropEnd_empty p s : dropEnd p s = EmptyString <-> allIn p s = true.
Proof.
  induction s as [|c s IH]; simpl; [tauto|].
  destruct (dropEnd p s) eqn:Hd.
  - destruct (p c); simpl.
    + split; [intros _; now apply IH|reflexivity].
    + split; discriminate.
  - split; [discriminate|]. intros H. apply andb_true_iff in H as [_ Hs].
    apply IH in Hs. discriminate.
Qed.

(** Unless it is all in the class, a string keeps its first character. *)
Lemma dropEnd_cons p c s :
  allIn p (String c s) = false -> dropEnd p (String c s) = String c (dropEnd p s).
Proof.
  intros Hnot. simpl. destruct (dropEnd p s) eqn:Hd; [|reflexivity].
  apply dropEnd_empty in Hd. simpl in Hnot. rewrite Hd, andb_true_r in Hnot.
  now rewrite Hnot.
Qed.

Lemma allIn_dropStart p q s : allIn q s = true -> allIn q (dropStart p s) = true.
Proof.
  induction s as [|c s IH]; simpl; [reflexivity|]. intros H.
  destruct (p c); [|exact H]. apply andb_true_iff in H as [_ Hs]. now apply IH.
Qed.

Lemma allIn_dropEnd p q s : allIn q s = true -> allIn q (dropEnd p s) = true.
Proof.
  induction s as [|c s IH]; simpl; [reflexivity|]. intros H.
  apply andb_true_iff in H as [Hc Hs]. specialize (IH Hs).
  destruct (dropEnd p s) as [|d r]; [destruct (p c); simpl; [reflexivity|now rewrite Hc]|].
  change (q c && allIn q (String d r) = true). now rewrite Hc, IH.
Qed.

Lemma firstIs_dropStart p s : firstIs p (dropStart p s) = false.
Proof.
  induction s as [|c s IH]; simpl; [reflexivity|].
  destruct (p c) eqn:Hp; [exact IH|]. simpl. exact Hp.
Qed.

Lemma firstIs_dropEnd p s : firstIs p s = false -> firstIs p (dropEnd p s) = false.
Proof.
  destruct s as [|c s]; simpl; [reflexivity|]. intros Hc.
  destruct (dropEnd p s); [rewrite Hc|]; simpl; exact Hc.
Qed.

Lemma lastIs_dropEnd p s : lastIs p (dropEnd p s) = false.
Proof.
  induction s as [|c s IH]; simpl; [reflexivity|].
  destruct (dropEnd p s) as [|d r] eqn:Hd.
  - destruct (p c) eqn:Hp; simpl; [reflexivity|exact Hp].
  - cbn [lastIs]. exact IH.
Qed.

Lemma dropStart_fixed p s : firstIs p s = false -> dropStart p s = s.
Proof. destruct s as [|c s]; simpl; [reflexivity|]. now intros ->. Qed.

Lemma dropEnd_fixed p s : lastIs p s = false -> dropEnd p s = s.
Proof.
  induction s as [|c s IH]; [reflexivity|]. intros Hl. simpl.
  destruct s as [|d r].
  - simpl in *. now rewrite Hl.
  - rewrite IH by exact Hl. reflexivity.
Qed.

Lemma adjacent_dropStart p q s : adjacent q s = false -> adjacent q (dropStart p s) = false.
Proof.
  induction s as [|c s IH]; simpl; [reflexivity|]. intros H.
  destruct (p c); [|exact H]. apply orb_false_iff in H as [_ Hs]. now apply IH.
Qed.

Lemma firstIs_dropEnd_le p q s : firstIs q (dropEnd p s) = true -> firstIs q s = true.
Proof.
  destruct s as [|c s]; simpl; [discriminate|].
  destruct (dropEnd p s); [destruct (p c)|]; simpl; auto; discriminate.
Qed.

Lemma adjacent_dropEnd p q s : adjacent q s = false -> adjacent q (dropEnd p s) = false.
Proof.
  induction s as [|c s IH]; simpl; [reflexivity|]. intros H.
  apply orb_false_iff in H as [Hc Hs]. specialize (IH Hs).
  destruct (dropEnd p s) as [|d r] eqn:Hd.
  - destruct (p c); simpl; [reflexivity|]. now rewrite andb_false_r.
  - change (adjacent q (String c (String d r)))
      with ((q c && firstIs q (String d r)) || adjacent q (String d r)).
    rewrite IH, orb_false_r.
    destruct (q c); [|reflexivity]. rewrite andb_true_l in *.
    destruct (firstIs q (String d r)) eqn:Hf; [|reflexivity].
    rewrite <- Hd in Hf. apply firstIs_dropEnd_le in Hf. congruence.
Qed.

Lemma allIn_firstIs p q s :
  (forall c, p c = true -> q c = false) -> allIn p s = true -> firstIs q s = false.
Proof.
  intros Hpq. destruct s as [|c s]; simpl; [reflexivity|].
  intros H. apply andb_true_iff in H as [Hc _]. now apply Hpq.
Qed.

Lemma allIn_lastIs p q s :
  (forall c, p c = true -> q c = false) -> allIn p s = true -> lastIs q s = false.
Proof.
  intros Hpq. induction s as [|c s IH]; [reflexivity|]. intros H.
  simpl in H. apply andb_true_iff in H as [Hc Hs].
  destruct s as [|d r]; [simpl; now apply Hpq|]. cbn [lastIs]. now apply IH.
Qed.

End Classes.

(** ** utils/metadata: slugs *)

Section Slugs.
Import JsStr Regex Metadata.

Definition hyphen : ascii -> bool := ch "-".

(** The characters of a slug: lower-case letters, digits and the hyphen. *)
Definition slugChar (c : ascii) : bool := is_lower c || is_digit c || hyphen c.

Lemma past_eq p s :
  forall pos prev, exists prev', past p pos prev s = (pos + run p s, prev', dropStart p s).
Proof.
  induction s as [|c s IH]; intros pos prev; simpl.
  - exists prev. now rewrite Nat.add_0_r.
  - destruct (p c).
    + destruct (IH (S pos) (Some c)) as (prev' & ->). exists prev'.
      now rewrite Nat.add_succ_r.
    + exists prev. now rewrite Nat.add_0_r.
Qed.

Lemma dropStart_empty p s : dropStart p s = EmptyString <-> allIn p s = true.
Proof.
  induction s as [|c s IH]; simpl; [tauto|].
  destruct (p c); simpl; [exact IH|]. split; discriminate.
Qed.

Lemma run_all p s : allIn p s = true -> run p s = String.length s.
Proof.
  induction s as [|c s IH]; simpl; [reflexivity|]. intros H.
  apply andb_true_iff in H as [-> Hs]. now rewrite IH.
Qed.

(** Past the start of the string, the pattern of the edge hyphens matches
    only a run of hyphens that reaches the end. *)
Lemma match_edges_inner c0 pos s :
  match_at re_edge_hyphens pos (Some c0) s
  = if allIn hyphen s && (1 <=? String.length s)
    then Some (pos + String.length s, no_caps) else None.
Proof.
  unfold match_at, re_edge_hyphens, plus. cbn [alts multiline mt_alts mt at_bol andb orElse].
  fold hyphen. rewrite orElse_None_r.
  destruct (1 <=? run hyphen s) eqn:Hrun.
  - apply Nat.leb_le in Hrun. rewrite rep_commits; [|intros; reflexivity|exact Hrun].
    destruct (past_eq hyphen s pos (Some c0)) as (prev' & ->).
    destruct (allIn hyphen s) eqn:Hall.
    + rewrite (proj2 (dropStart_empty hyphen s) Hall). cbn [at_eol andb].
      rewrite <- (run_all _ _ Hall). now rewrite (proj2 (Nat.leb_le _ _) Hrun).
    + destruct (dropStart hyphen s) eqn:Hd; [|reflexivity].
      apply dropStart_empty in Hd. congruence.
  - apply Nat.leb_gt in Hrun. rewrite rep_short by lia.
    destruct s as [|c s]; [reflexivity|]. cbn [run allIn] in *.
    destruct (hyphen c); [lia|reflexivity].
Qed.

(** At the start, it matches the leading run of hyphens. *)
Lemma match_edges_start c s :
  match_at re_edge_hyphens 0 None (String c s)
  = if hyphen c then Some (S (run hyphen s), no_caps) else None.
Proof.
  unfold match_at, re_edge_hyphens, plus. cbn [alts multiline mt_alts mt at_bol andb orElse].
  fold hyphen. rewrite orElse_None_r.
  destruct (hyphen c) eqn:Hc.
  - erewrite rep_longest; [reflexivity|cbn [run]; rewrite Hc; lia|].
    destruct (past_eq hyphen (String c s) 0 None) as (prev' & ->).
    cbn [run]. now rewrite Hc.
  - rewrite !rep_short by (cbn [run]; rewrite Hc; lia). reflexivity.
Qed.

Lemma skip_to_end_edges s :
  forall pos c0, replace_go re_edge_hyphens EmptyString (String.length s) pos (Some c0) s
                 = EmptyString.
Proof.
  induction s as [|c s IH]; intros pos c0.
  - cbn [String.length replace_go]. rewrite match_edges_inner. reflexivity.
  - cbn [String.length replace_go]. apply IH.
Qed.

Lemma replace_edges_inner s :
  forall pos c0, replace_go re_edge_hyphens EmptyString 0 pos (Some c0) s
                 = dropEnd hyphen s.
Proof.
  induction s as [|c s IH]; intros pos c0.
  - cbn [replace_go]. rewrite match_edges_inner. reflexivity.
  - cbn [replace_go]. rewrite match_edges_inner.
    destruct (allIn hyphen (String c s)) eqn:Hall.
    + cbn [String.length Nat.leb andb]. rewrite append_nil.
      replace (pos + S (String.length s) - pos) with (S (String.length s)) by lia.
      rewrite skip_to_end_edges. symmetry. now apply dropEnd_empty.
    + cbn [andb]. rewrite IH. symmetry. now apply dropEnd_cons.
Qed.

Lemma replace_edges_run s :
  forall pos c0, replace_go re_edge_hyphens EmptyString (run hyphen s) pos (Some c0) s
                 = dropEnd hyphen (dropStart hyphen s).
Proof.
  induction s as [|c s IH]; intros pos c0.
  - cbn [run dropStart]. apply replace_edges_inner.
  - cbn [run dropStart]. destruct (hyphen c).
    + cbn [replace_go]. apply IH.
    + apply replace_edges_inner.
Qed.

(** [s.replace(/^-+|-+$/g, '')] strips the hyphens of the two ends. *)
Lemma replace_edges s :
  replace_all s re_edge_hyphens EmptyString = dropEnd hyphen (dropStart hyphen s).
Proof.
  unfold replace_all. destruct s as [|c s]; [reflexivity|].
  cbn [replace_go]. rewrite match_edges_start. cbn [dropStart].
  destruct (hyphen c) eqn:Hc.
  - rewrite append_nil. replace (S (run hyphen s) - 0) with (S (run hyphen s)) by lia.
    apply replace_edges_run.
  - rewrite replace_edges_inner. symmetry. apply dropEnd_cons. cbn [allIn]. now rewrite Hc.
Qed.

Definition notWordSpaceHyphen (c : ascii) : bool :=
  negb (is_word c || is_space c || ch "-" c).
Definition slugSeparator (c : ascii) : bool := is_space c || ch "_" c || ch "-" c.

(** [generateSlug] as a composition of functions on strings. *)
Lemma generateSlug_eq title :
  generateSlug title
  = dropEnd hyphen (dropStart hyphen
      (collapse slugSeparator "-" false
         (substitute notWordSpaceHyphen EmptyString (trim (toLowerCase title))))).
Proof.
  unfold generateSlug, re_not_word_space_hyphen, re_separators.
  now rewrite replace_edges, replace_plus, replace_one.
Qed.

Lemma substitute_delete p q s :
  allIn q s = true ->
  allIn (fun c => negb (p c) && q c) (substitute p EmptyString s) = true.
Proof.
  induction s as [|c s IH]; simpl; [reflexivity|]. intros H.
  apply andb_true_iff in H as [Hc Hs]. destruct (p c) eqn:Hp.
  - rewrite append_nil. now apply IH.
  - cbn [allIn]. now rewrite Hp, Hc, IH.
Qed.

Lemma collapse_class p q q' repl s :
  (forall c, q c = true -> p c = false -> q' c = true) ->
  allIn q' repl = true -> allIn q s = true ->
  forall inside, allIn q' (collapse p repl inside s) = true.
Proof.
  intros Hq Hrepl. induction s as [|c s IH]; simpl; [reflexivity|]. intros H inside.
  apply andb_true_iff in H as [Hc Hs]. destruct (p c) eqn:Hp.
  - destruct inside; [now apply IH|]. rewrite allIn_append, Hrepl. now apply IH.
  - cbn [allIn]. now rewrite (Hq c Hc Hp), IH.
Qed.

(** The hyphens that stand for runs of separators are never neighbours. *)
Lemma collapse_adjacent p s :
  p "-"%char = true ->
  forall inside,
    adjacent hyphen (collapse p "-" inside s) = false
    /\ (inside = true -> firstIs hyphen (collapse p "-" inside s) = false).
Proof.
  intros Hp. induction s as [|c s IH]; intros inside; simpl; [auto|].
  destruct (p c) eqn:Hc.
  - destruct inside; [apply IH|]. split; [|discriminate].
    rewrite append_cons, append_nil. cbn [adjacent].
    destruct (IH true) as [Ha Hf]. rewrite Ha, (Hf eq_refl). reflexivity.
  - assert (Hh : hyphen c = false).
    { unfold hyphen, ch. destruct (Ascii.eqb_spec "-" c) as [<-|]; congruence. }
    cbn [adjacent firstIs]. rewrite Hh. split; [|reflexivity]. apply IH.
Qed.

Lemma toLowerCase_lower s : allIn (fun c => negb (is_upper c)) (toLowerCase s) = true.
Proof.
  induction s as [|c s IH]; simpl; [reflexivity|]. rewrite IH, andb_true_r.
  revert c. apply forall_ascii. vm_compute. reflexivity.
Qed.

Lemma allIn_true s : allIn (fun _ => true) s = true.
Proof. induction s; simpl; auto. Qed.

Lemma slug_class c :
  (negb (notWordSpaceHyphen c) && negb (is_upper c)) = true ->
  slugSeparator c = false -> slugChar c = true.
Proof.
  intros H1 H2.
  assert (H : implb (negb (notWordSpaceHyphen c) && negb (is_upper c) && negb (slugSeparator c))
                    (slugChar c) = true).
  { revert c H1 H2. intros c _ _. revert c. apply forall_ascii. vm_compute. reflexivity. }
  now rewrite H1, H2 in H.
Qed.

Lemma startsWith_hyphen s : startsWith "-" s = firstIs hyphen s.
Proof. destruct s as [|c s]; simpl; [reflexivity|]. apply andb_true_r. Qed.

Lemma includes_double_hyphen s : includes s "--" = adjacent hyphen s.
Proof.
  induction s as [|c s IH]; [reflexivity|].
  cbn [includes adjacent]. rewrite IH. f_equal.
  destruct s as [|d r]; simpl; [reflexivity|]. now rewrite andb_true_r.
Qed.

Lemma slug_shape title :
  allIn slugChar (generateSlug title) = true
  /\ firstIs hyphen (generateSlug title) = false
  /\ lastIs hyphen (generateSlug title) = false
  /\ adjacent hyphen (generateSlug title) = false.
Proof.
  rewrite generateSlug_eq.
  set (s1 := trim (toLowerCase title)).
  set (s2 := substitute notWordSpaceHyphen EmptyString s1).
  set (s3 := collapse slugSeparator "-" false s2).
  assert (H1 : allIn (fun c => negb (is_upper c)) s1 = true).
  { unfold s1. rewrite trim_drop. apply allIn_dropEnd, allIn_dropStart, toLowerCase_lower. }
  assert (H2 : allIn (fun c => negb (notWordSpaceHyphen c) && negb (is_upper c)) s2 = true).
  { apply substitute_delete, H1. }
  assert (H3 : allIn slugChar s3 = true).
  { eapply collapse_class; [|reflexivity|exact H2]. intros c. apply slug_class. }
  destruct (collapse_adjacent slugSeparator s2 eq_refl false) as [H4 _]. fold s3 in H4.
  split; [apply allIn_dropEnd, allIn_dropStart, H3|].
  split; [apply firstIs_dropEnd, firstIs_dropStart|].
  split; [apply lastIs_dropEnd|].
  apply adjacent_dropEnd, adjacent_dropStart, H4.
Qed.

(** X1.  A slug is made of lower-case letters, digits and hyphens; it
    neither starts nor ends with a hyphen, and no two hyphens follow each
    other. *)
Theorem generateSlug_is_url_safe (title : string) :
  allIn slugChar (generateSlug title) = true
  /\ startsWith "-" (generateSlug title) = false
  /\ lastIs hyphen (generateSlug title) = false
  /\ includes (generateSlug title) "--" = false.
Proof.
  rewrite startsWith_hyphen, includes_double_hyphen. apply slug_shape.
Qed.

Lemma toLowerCase_fixed s :
  allIn (fun c => negb (is_upper c)) s = true -> toLowerCase s = s.
Proof.
  induction s as [|c s IH]; simpl; [reflexivity|]. intros H.
  apply andb_true_iff in H as [Hc Hs]. rewrite (IH Hs). unfold lower_char.
  now destruct (is_upper c).
Qed.

Lemma substitute_fixed p repl s :
  allIn (fun c => negb (p c)) s = true -> substitute p repl s = s.
Proof.
  induction s as [|c s IH]; simpl; [reflexivity|]. intros H.
  apply andb_true_iff in H as [Hc Hs]. rewrite (IH Hs). now destruct (p c).
Qed.

Lemma collapse_untouched p repl s :
  allIn (fun c => negb (p c)) s = true -> forall inside, collapse p repl inside s = s.
Proof.
  induction s as [|c s IH]; simpl; [reflexivity|]. intros H inside.
  apply andb_true_iff in H as [Hc Hs]. destruct (p c); [discriminate|].
  now rewrite IH.
Qed.

Lemma trim_fixed s : allIn (fun c => negb (is_space c)) s = true -> trim s = s.
Proof.
  intros H. rewrite trim_drop.
  rewrite (dropStart_fixed is_space s), (dropEnd_fixed is_space s); [reflexivity| |].
  - eapply allIn_lastIs; [|exact H]. intros c Hc. now apply negb_true_iff.
  - eapply allIn_firstIs; [|exact H]. intros c Hc. now apply negb_true_iff.
Qed.

Lemma slugChar_facts c :
  slugChar c = true ->
  is_upper c = false /\ is_space c = false /\ notWordSpaceHyphen c = false
  /\ slugSeparator c = hyphen c.
Proof.
  intros Hc.
  assert (H : implb (slugChar c)
                (negb (is_upper c) && negb (is_space c) && negb (notWordSpaceHyphen c)
                 && Bool.eqb (slugSeparator c) (hyphen c)) = true).
  { clear Hc. revert c. apply forall_ascii. vm_compute. reflexivity. }
  rewrite Hc in H. simpl in H.
  repeat (apply andb_true_iff in H as [H ?]).
  repeat split; try now apply negb_true_iff. now apply eqb_prop.
Qed.

Lemma hyphen_eq c : hyphen c = true -> c = "-"%char.
Proof. unfold hyphen, ch. now destruct (Ascii.eqb_spec "-" c). Qed.

(** Single hyphens between other characters are runs of separators that
    are replaced by themselves. *)
Lemma collapse_slug s :
  allIn slugChar s = true -> adjacent hyphen s = false ->
  collapse slugSeparator "-" false s = s
  /\ (firstIs hyphen s = false -> collapse slugSeparator "-" true s = s).
Proof.
  induction s as [|c s IH]; [auto|]. intros Hall Hadj.
  cbn [allIn] in Hall. apply andb_true_iff in Hall as [Hc Hs].
  cbn [adjacent] in Hadj. apply orb_false_iff in Hadj as [Hn Hrest].
  destruct (IH Hs Hrest) as [IH0 IH1].
  destruct (slugChar_facts c Hc) as (_ & _ & _ & Hsep).
  cbn [collapse firstIs]. rewrite Hsep. destruct (hyphen c) eqn:Hh.
  - rewrite andb_true_l in Hn. rewrite (IH1 Hn), append_cons, append_nil.
    rewrite (hyphen_eq c Hh). split; [reflexivity|discriminate].
  - now rewrite IH0.
Qed.

Lemma slug_fixed s :
  allIn slugChar s = true -> firstIs hyphen s = false -> lastIs hyphen s = false ->
  adjacent hyphen s = false -> generateSlug s = s.
Proof.
  intros Hall Hfirst Hlast Hadj. rewrite generateSlug_eq.
  rewrite toLowerCase_fixed, trim_fixed, substitute_fixed.
  - rewrite (proj1 (collapse_slug s Hall Hadj)).
    now rewrite (dropStart_fixed _ _ Hfirst), (dropEnd_fixed _ _ Hlast).
  - eapply allIn_weaken; [|exact Hall]. intros c Hc.
    destruct (slugChar_facts c Hc) as (_ & _ & -> & _). reflexivity.
  - eapply allIn_weaken; [|exact Hall]. intros c Hc.
    destruct (slugChar_facts c Hc) as (_ & -> & _ & _). reflexivity.
  - eapply allIn_weaken; [|exact Hall]. intros c Hc.
    destruct (slugChar_facts c Hc) as (-> & _ & _ & _). reflexivity.
Qed.

(** X2.  The slug of a slug is the slug itself. *)
Theorem generateSlug_idempotent (title : string) :
  generateSlug (generateSlug title) = generateSlug title.
Proof.
  destruct (slug_shape title) as (H1 & H2 & H3 & H4). now apply slug_fixed.
Qed.

End Slugs.

(** ** utils/metadata: truncation, excerpts and tags *)

Section Truncation.
Import JsStr Regex Metadata.

Lemma length_dropStart p s : String.length (dropStart p s) <= String.length s.
Proof.
  induction s as [|c s IH]; simpl; [lia|]. destruct (p c); simpl; lia.
Qed.

Lemma length_dropEnd p s : String.length (dropEnd p s) <= String.length s.
Proof.
  induction s as [|c s IH]; simpl; [lia|].
  destruct (dropEnd p s); [destruct (p c)|]; simpl in *; lia.
Qed.

Lemma length_trim s : String.length (trim s) <= String.length s.
Proof.
  rewrite trim_drop. pose proof (length_dropEnd is_space (dropStart is_space s)).
  pose proof (length_dropStart is_space s). lia.
Qed.

Lemma length_slice0 n s : String.length (slice0 n s) <= n.
Proof.
  unfold slice0. revert s. induction n as [|n IH]; intros s.
  - destruct s; simpl; lia.
  - destruct s as [|c s]; simpl; [lia|]. specialize (IH s). lia.
Qed.

(** The text that stands before the dots. *)
Definition stem (text : string) (maxLength : nat) : string :=
  trim (slice0 (maxLength - 3) text).

Lemma truncateText_length text maxLength :
  3 <= maxLength -> String.length (truncateText text maxLength) <= maxLength.
Proof.
  intros Hmax. unfold truncateText.
  pose proof (length_trim (slice0 (maxLength - 3) text)) as Ht.
  pose proof (length_slice0 (maxLength - 3) text) as Hs.
  destruct (String.length text <=? maxLength) eqn:Hlen.
  - now apply Nat.leb_le in Hlen.
  - rewrite length_append. cbn [String.length]. lia.
Qed.

(** X3.  For a limit of three or more, the truncated text is never longer
    than the limit: a text within the limit is returned as it is, and a
    longer one is cut to a stem that ends in three dots. *)
Theorem truncateText_within_limit (text : string) (maxLength : nat) :
  3 <= maxLength ->
  String.length (truncateText text maxLength) <= maxLength
  /\ (String.length text <= maxLength -> truncateText text maxLength = text)
  /\ (maxLength < String.length text ->
      truncateText text maxLength = stem text maxLength +:+ "..."
      /\ String.length (stem text maxLength) <= maxLength - 3).
Proof.
  intros Hmax. unfold truncateText, stem.
  pose proof (length_trim (slice0 (maxLength - 3) text)) as Ht.
  pose proof (length_slice0 (maxLength - 3) text) as Hs.
  destruct (String.length text <=? maxLength) eqn:Hlen.
  - apply Nat.leb_le in Hlen. repeat split; auto; lia.
  - apply Nat.leb_gt in Hlen. rewrite length_append. cbn [String.length].
    repeat split; auto; lia.
Qed.

Lemma truncateText_within_limit_witness :
  String.length (truncateText "The quick brown fox jumps" 12) <= 12
  /\ truncateText "The quick brown fox jumps" 12 = "The quick...".
Proof.
  destruct (truncateText_within_limit "The quick brown fox jumps" 12) as (H1 & _ & H3);
    [lia|].
  split; [exact H1|]. destruct H3 as [-> _]; [simpl; lia|reflexivity].
Defined.

(** X4.  A meta title is at most 60 characters long and ends with the name
    of the site; a meta description is at most 155 characters long. *)
Theorem meta_fields_fit (title excerpt : string) :
  String.length (generateMetaTitle title) <= 60
  /\ (exists head, generateMetaTitle title = head +:+ " | Pretty's Perspectives"
                   /\ String.length head <= 36)
  /\ String.length (generateMetaDescription excerpt) <= 155.
Proof.
  unfold generateMetaTitle, generateMetaDescription.
  change (60 - String.length " | Pretty's Perspectives") with 36.
  assert (H36 : String.length (truncateText title 36) <= 36)
    by (apply truncateText_length; lia).
  assert (H155 : String.length (truncateText excerpt 155) <= 155)
    by (apply truncateText_length; lia).
  rewrite length_append. change (String.length " | Pretty's Perspectives") with 24.
  split; [lia|]. split; [|exact H155]. eauto.
Qed.

End Truncation.

Section Excerpts.
Import JsStr Regex Metadata.






















End Excerpts.

Section TagNormalisation.
Import JsStr Regex Metadata.

Definition notTagChar (c : ascii) : bool :=
  negb (is_lower c || is_digit c || is_space c || ch "-" c).

Definition normalizeTag (tag : string) : string :=
  collapse is_space "-" false
    (substitute notTagChar EmptyString (trim (toLowerCase tag))).

Lemma normalizeTags_eq tags :
  normalizeTags tags
  = List.filter (fun tag => 0 <? String.length tag) (map normalizeTag tags).
Proof.
  unfold normalizeTags, normalizeTag, re_not_tag_char, re_spaces. f_equal.
  apply map_ext. intros tag. now rewrite replace_plus, replace_one.
Qed.

Lemma tag_class c : negb (notTagChar c) = true -> is_space c = false -> slugChar c = true.
Proof.
  intros H1 H2.
  assert (H : implb (negb (notTagChar c) && negb (is_space c)) (slugChar c) = true).
  { clear. revert c. apply forall_ascii. vm_compute. reflexivity. }
  now rewrite H1, H2 in H.
Qed.

Lemma slugChar_tag c : slugChar c = true -> notTagChar c = false.
Proof.
  intros Hc. assert (H : implb (slugChar c) (negb (notTagChar c)) = true).
  { clear. revert c. apply forall_ascii. vm_compute. reflexivity. }
  rewrite Hc in H. now apply negb_true_iff.
Qed.

Lemma normalizeTag_class tag : allIn slugChar (normalizeTag tag) = true.
Proof.
  unfold normalizeTag.
  apply (collapse_class is_space (fun c => negb (notTagChar c) && true) slugChar);
    [|reflexivity|].
  - intros c Hc. rewrite andb_true_r in Hc. now apply tag_class.
  - apply substitute_delete, allIn_true.
Qed.

Lemma normalizeTag_fixed tag : allIn slugChar tag = true -> normalizeTag tag = tag.
Proof.
  intros Hall. unfold normalizeTag.
  rewrite toLowerCase_fixed, trim_fixed, substitute_fixed.
  - apply collapse_untouched. eapply allIn_weaken; [|exact Hall]. intros c Hc.
    destruct (slugChar_facts c Hc) as (_ & -> & _ & _). reflexivity.
  - eapply allIn_weaken; [|exact Hall]. intros c Hc. now rewrite (slugChar_tag c Hc).
  - eapply allIn_weaken; [|exact Hall]. intros c Hc.
    destruct (slugChar_facts c Hc) as (_ & -> & _ & _). reflexivity.
  - eapply allIn_weaken; [|exact Hall]. intros c Hc.
    destruct (slugChar_facts c Hc) as (-> & _ & _ & _). reflexivity.
Qed.

(** X6.  Every normalised tag is a non-empty string of lower-case letters,
    digits and hyphens, in the order of the tags given; normalised tags
    are left as they are by a second normalisation. *)
Theorem normalizeTags_is_idempotent (tags : list string) :
  forallb (fun tag => (0 <? String.length tag) && allIn slugChar tag)
          (normalizeTags tags) = true
  /\ length (normalizeTags tags) <= length tags
  /\ normalizeTags (normalizeTags tags) = normalizeTags tags.
Proof.
  rewrite !normalizeTags_eq.
  assert (Hall : forall l,
    forallb (fun tag => (0 <? String.length tag) && allIn slugChar tag)
            (List.filter (fun tag => 0 <? String.length tag) (map normalizeTag l)) = true).
  { induction l as [|x l IH]; [reflexivity|]. cbn [map List.filter].
    destruct (0 <? String.length (normalizeTag x)) eqn:Hx; [|exact IH].
    cbn [forallb]. now rewrite Hx, normalizeTag_class, IH. }
  split; [apply Hall|]. split.
  - etransitivity; [apply filter_length_le|]. now rewrite length_map.
  - specialize (Hall tags).
    induction (List.filter (fun tag => 0 <? String.length tag) (map normalizeTag tags))
      as [|x l IH]; [reflexivity|].
    cbn [forallb] in Hall. apply andb_true_iff in Hall as [Hx Hl].
    apply andb_true_iff in Hx as [Hlen Hclass].
    cbn [map List.filter]. rewrite (normalizeTag_fixed x Hclass), Hlen.
    f_equal. now apply IH.
Qed.

End TagNormalisation.

(** ** utils/metadata and generators/seo-content: suggested tags and keywords *)

Section SuggestedTags.
Import JsStr Tags.

Lemma mem_In x l : mem x l = true <-> In x l.
Proof.
  unfold mem. rewrite existsb_exists. split.
  - intros (y & Hin & Heq). apply String.eqb_eq in Heq. now subst.
  - intros Hin. exists x. split; [exact Hin|apply String.eqb_refl].
Qed.

Lemma add_NoDup x set : List.NoDup set -> List.NoDup (add x set).
Proof.
  intros Hset. unfold add. destruct (mem x set) eqn:Hmem; [exact Hset|].
  apply List.NoDup_app; [exact Hset|repeat constructor; intros []|].
  intros a Ha [<-|[]]. apply mem_In in Ha. congruence.
Qed.

Lemma add_In x set : In x (add x set).
Proof.
  unfold add. destruct (mem x set) eqn:Hmem; [now apply mem_In|].
  apply in_or_app. right. now left.
Qed.

Lemma add_length x set : length set <= length (add x set).
Proof. unfold add. destruct (mem x set); [lia|]. rewrite length_app. simpl. lia. Qed.

Lemma add_head x y set : head (add x (y :: set)) = Some y.
Proof. unfold add. now destruct (mem x (y :: set)). Qed.

Lemma add_cons x y set : exists rest, add x (y :: set) = y :: rest.
Proof. unfold add. destruct (mem x (y :: set)); simpl; eauto. Qed.

Lemma take_NoDup {A} n (l : list A) : List.NoDup l -> List.NoDup (take n l).
Proof.
  intros Hl. rewrite <- (firstn_skipn n l) in Hl. now apply NoDup_app_remove_r in Hl.
Qed.

(** The tags collected before the base tag is added. *)
Definition collected (content : string) (vendorType : option string) : list string :=
  fold_left (fun set kv =>
               if includes (toLowerCase content) (fst kv) then add (snd kv) set else set)
            keywordMap
            (match vendorType with
             | Some v => if JsStr.truthy v then [toLowerCase v] else []
             | None => []
             end).

Lemma fold_add_NoDup {K} (f : K -> bool) (g : K -> string) (l : list K) :
  forall set, List.NoDup set ->
    List.NoDup (fold_left (fun set kv => if f kv then add (g kv) set else set) l set).
Proof.
  induction l as [|kv l IH]; intros set Hset; [exact Hset|].
  cbn [fold_left]. apply IH. destruct (f kv); [now apply add_NoDup|exact Hset].
Qed.

Lemma fold_add_head {K} (f : K -> bool) (g : K -> string) (l : list K) :
  forall y set, exists rest,
    fold_left (fun set kv => if f kv then add (g kv) set else set) l (y :: set)
    = y :: rest.
Proof.
  induction l as [|kv l IH]; intros y set; [simpl; eauto|].
  cbn [fold_left]. destruct (f kv); [|apply IH].
  destruct (add_cons (g kv) y set) as (rest & ->). apply IH.
Qed.

Lemma suggestTags_eq content vendorType :
  suggestTags content vendorType
  = take 8 (add "wedding-vendors" (collected content vendorType)).
Proof. unfold suggestTags, collected. reflexivity. Qed.

(** X7.  At most eight tags are suggested, none twice.  The base tag is
    among them unless eight other tags came before it.  A vendor type
    that is given comes first, in lower case. *)
Theorem suggestTags_limits (content : string) (vendorType : option string) :
  length (suggestTags content vendorType) <= 8
  /\ List.NoDup (suggestTags content vendorType)
  /\ (In "wedding-vendors" (suggestTags content vendorType)
      \/ (length (suggestTags content vendorType) = 8
          /\ suggestTags content vendorType = take 8 (collected content vendorType)))
  /\ match vendorType with
     | Some v =>
         if JsStr.truthy v
         then head (suggestTags content vendorType) = Some (toLowerCase v)
         else True
     | None => True
     end.
Proof.
  rewrite suggestTags_eq.
  assert (Hno : List.NoDup (collected content vendorType)).
  { apply fold_add_NoDup. destruct vendorType as [v|]; [destruct (JsStr.truthy v)|];
      repeat constructor; intros []. }
  split; [apply firstn_le_length|]. split; [now apply take_NoDup, add_NoDup|]. split.
  - clear Hno. generalize (collected content vendorType) as tags. intros tags.
    destruct (Nat.le_gt_cases (length (add "wedding-vendors" tags)) 8) as [Hle|Hgt].
    + left. rewrite take_ge by exact Hle. apply add_In.
    + right. split; [apply length_take_le; lia|].
      unfold add in *. destruct (mem "wedding-vendors" tags); [reflexivity|].
      rewrite length_app in Hgt. cbn [length] in Hgt.
      rewrite take_app_le by lia. reflexivity.
  - clear Hno. destruct vendorType as [v|]; [|exact I]. destruct (JsStr.truthy v) eqn:Hv; [|exact I].
    unfold collected. rewrite Hv.
    destruct (fold_add_head (fun kv => includes (toLowerCase content) (fst kv)) snd
                keywordMap (toLowerCase v) []) as (rest & ->).
    destruct (add_cons "wedding-vendors" (toLowerCase v) rest) as (rest' & ->).
    reflexivity.
Qed.

Lemma unique_NoDup l : List.NoDup (unique l).
Proof.
  unfold unique.
  assert (H : forall set, List.NoDup set ->
                List.NoDup (fold_left (fun set x => add x set) l set)).
  { induction l as [|x l IH]; intros set Hset; [exact Hset|].
    cbn [fold_left]. now apply IH, add_NoDup. }
  apply H. constructor.
Qed.

Lemma unique_length l : l <> [] -> 1 <= length (unique l).
Proof.
  unfold unique.
  assert (H : forall k set,
            length set <= length (fold_left (fun set x => add x set) k set)).
  { induction k as [|x k IH]; intros set; [simpl; lia|].
    cbn [fold_left]. pose proof (add_length x set). specialize (IH (add x set)). lia. }
  destruct l as [|x l]; [congruence|]. intros _. cbn [fold_left].
  specialize (H l (add x [])). unfold add at 2 in H. cbn [mem existsb app length] in H.
  exact H.
Qed.

(** X8.  The keywords derived from a topic are between one and five, none
    twice. *)
Theorem extractKeywordsFromTopic_limits (topic : string) :
  1 <= length (Generators.extractKeywordsFromTopic topic) <= 5
  /\ List.NoDup (Generators.extractKeywordsFromTopic topic).
Proof.
  unfold Generators.extractKeywordsFromTopic. cbv zeta.
  match goal with |- context [take 5 (unique ?l)] => set (keywords := l) end.
  assert (Hne : keywords <> []).
  { unfold keywords. intros H. apply app_eq_nil in H as [_ H]. discriminate. }
  pose proof (unique_length keywords Hne) as Hlen.
  split; [|apply take_NoDup, unique_NoDup].
  rewrite length_take. lia.
Qed.

End SuggestedTags.

(** ** The weekly scheduler: the search query of a week *)

Section WeeklyQuery.
Import JsStr Scheduler.

Lemma queryIndex_bound weekNumber : queryIndex weekNumber < length (queries weekNumber).
Proof.
  unfold queryIndex. apply Nat.mod_upper_bound.
  unfold queries. destruct (isVendorSpecificWeek weekNumber); discriminate.
Qed.

Lemma parity_add_10 weekNumber :
  isVendorSpecificWeek (weekNumber + 10) = isVendorSpecificWeek weekNumber.
Proof.
  unfold isVendorSpecificWeek. f_equal.
  replace (weekNumber + 10) with (weekNumber + 5 * 2) by lia.
  apply Nat.Div0.mod_add.
Qed.

Lemma half_add_10 weekNumber : (weekNumber + 10) / 2 = weekNumber / 2 + 5.
Proof.
  replace (weekNumber + 10) with (weekNumber + 5 * 2) by lia.
  apply Nat.div_add. discriminate.
Qed.

(** X9.  Every week has a search query, taken from the list of its
    parity.  Ten weeks later the parity is the same; in a vendor-specific
    (even) week the query is the same as well, and in a general (odd) week
    it is another one. *)
Theorem query_of_the_week (weekNumber : nat) :
  (exists q, query weekNumber = Some q /\ In q (queries weekNumber))
  /\ queries (weekNumber + 10) = queries weekNumber
  /\ (if isVendorSpecificWeek weekNumber
      then query (weekNumber + 10) = query weekNumber
      else query (weekNumber + 10) <> query weekNumber).
Proof.
  assert (Hq : queries (weekNumber + 10) = queries weekNumber).
  { unfold queries. now rewrite parity_add_10. }
  split; [|split; [exact Hq|]].
  - unfold query. pose proof (queryIndex_bound weekNumber) as Hlt.
    destruct (nth_error (queries weekNumber) (queryIndex weekNumber)) as [q|] eqn:Hnth.
    + exists q. split; [reflexivity|]. eapply nth_error_In, Hnth.
    + apply nth_error_None in Hnth. lia.
  - unfold query, queryIndex. rewrite Hq, half_add_10.
    unfold queries. destruct (isVendorSpecificWeek weekNumber).
    + change (length vendorQueries) with 5.
      replace (weekNumber / 2 + 5) with (weekNumber / 2 + 1 * 5) by lia.
      now rewrite Nat.Div0.mod_add.
    + change (length generalQueries) with 6.
      rewrite Nat.Div0.add_mod.
      pose proof (Nat.mod_upper_bound (weekNumber / 2) 6) as Hlt.
      destruct ((weekNumber / 2) mod 6) as [|[|[|[|[|[|r]]]]]]; try discriminate.
      lia.
Qed.

End WeeklyQuery.

(** ** The daily scheduler: key terms, and the articles that match them *)

Section KeyTerms.
Import JsStr Regex DailyScheduler.

Lemma allIn_rev_app q a b :
  allIn q a = true -> allIn q b = true -> allIn q (String.rev_app a b) = true.
Proof.
  revert b. induction a as [|c a IH]; intros b Ha Hb; [exact Hb|].
  cbn [allIn] in Ha. apply andb_true_iff in Ha as [Hc Ha].
  cbn [String.rev_app]. apply IH; [exact Ha|]. cbn [allIn]. now rewrite Hc, Hb.
Qed.

Lemma allIn_rev q a : allIn q a = true -> allIn q (String.rev a) = true.
Proof. intros Ha. now apply allIn_rev_app. Qed.

(** The pieces of a string split at the runs of a class hold no character
    of the class, and otherwise only characters of the string. *)
Lemma split_go_plus p q s :
  allIn q s = true ->
  (forall pos prev cur,
     allIn (fun c => negb (p c) && q c) cur = true ->
     Forall (fun piece => allIn (fun c => negb (p c) && q c) piece = true)
            (split_go (re1 [plus p]) 0 pos prev cur s))
  /\ (forall pos prev cur,
        allIn (fun c => negb (p c) && q c) cur = true ->
        Forall (fun piece => allIn (fun c => negb (p c) && q c) piece = true)
               (split_go (re1 [plus p]) (run p s) pos prev cur s)).
Proof.
  induction s as [|c s IH]; intros Hs.
  - split; intros pos prev cur Hcur; cbn [run split_go]; repeat constructor;
      now apply allIn_rev.
  - cbn [allIn] in Hs. apply andb_true_iff in Hs as [Hc Hs].
    destruct (IH Hs) as [IH0 IH1].
    assert (H0 : forall pos prev cur,
      allIn (fun c => negb (p c) && q c) cur = true ->
      Forall (fun piece => allIn (fun c => negb (p c) && q c) piece = true)
             (split_go (re1 [plus p]) 0 pos prev cur (String c s))).
    { intros pos prev cur Hcur. cbn [split_go]. rewrite match_plus. cbn [run].
      destruct (p c) eqn:Hp.
      - cbn [Nat.leb]. replace (pos + S (run p s) - pos) with (S (run p s)) by lia.
        constructor; [now apply allIn_rev|]. now apply IH1.
      - cbn [Nat.leb]. apply IH0. cbn [allIn]. now rewrite Hp, Hc, Hcur. }
    split; [exact H0|]. intros pos prev cur Hcur. cbn [run].
    destruct (p c) eqn:Hp.
    + cbn [split_go]. now apply IH1.
    + now apply H0.
Qed.

Lemma split_plus_pieces p q s :
  allIn q s = true ->
  Forall (fun piece => allIn (fun c => negb (p c) && q c) piece = true)
         (split s (re1 [plus p])).
Proof. intros Hs. now apply (proj1 (split_go_plus p q s Hs)). Qed.

(** The characters of a key term: no white space, no bracket, no hyphen,
    no upper-case letter. *)
Definition termChar (c : ascii) : bool :=
  negb (is_space c) && negb (oneof "()-" c) && negb (is_upper c).

Lemma substitute_class p q (r0 : ascii) s :
  q r0 = true -> (forall c, p c = false -> q c = true) ->
  allIn q (substitute p (String r0 EmptyString) s) = true.
Proof.
  intros Hr Hq. induction s as [|c s IH]; [reflexivity|]. cbn [substitute].
  destruct (p c) eqn:Hp.
  - rewrite append_cons, append_nil. cbn [allIn]. now rewrite Hr, IH.
  - cbn [allIn]. now rewrite (Hq c Hp), IH.
Qed.

Lemma substitute_keeps p q (r0 : ascii) s :
  q r0 = true -> allIn q s = true ->
  allIn q (substitute p (String r0 EmptyString) s) = true.
Proof.
  intros Hr. induction s as [|c s IH]; [reflexivity|]. cbn [substitute allIn].
  intros H. apply andb_true_iff in H as [Hc Hs]. destruct (p c).
  - rewrite append_cons, append_nil. cbn [allIn]. now rewrite Hr, IH.
  - cbn [allIn]. now rewrite Hc, IH.
Qed.

Lemma toLowerCase_class q q' s :
  (forall c, q c = true -> q' (lower_char c) = true) ->
  allIn q s = true -> allIn q' (toLowerCase s) = true.
Proof.
  intros Hq. induction s as [|c s IH]; [reflexivity|]. cbn [toLowerCase allIn].
  intros H. apply andb_true_iff in H as [Hc Hs]. now rewrite (Hq c Hc), IH.
Qed.

Definition noBracketHyphen (c : ascii) : bool := negb (oneof "()-" c).

Lemma cleaned_class ideaTitle :
  allIn (fun c => noBracketHyphen c && negb (is_upper c))
        (toLowerCase (replace_all (replace_all ideaTitle re_parens " ") re_dashes " "))
  = true.
Proof.
  unfold re_parens, re_dashes. rewrite !replace_one.
  apply (toLowerCase_class (fun c => negb (oneof "()" c) && negb (ch "-" c))).
  - intros c Hc.
    assert (H : implb (negb (oneof "()" c) && negb (ch "-" c))
                  (noBracketHyphen (lower_char c) && negb (is_upper (lower_char c))) = true).
    { clear. revert c. apply forall_ascii. vm_compute. reflexivity. }
    now rewrite Hc in H.
  - apply allIn_and.
    + apply substitute_keeps; [reflexivity|].
      apply substitute_class; [reflexivity|]. intros c ->. reflexivity.
    + apply substitute_class; [reflexivity|]. intros c ->. reflexivity.
Qed.

(** X10.  Every key term of an idea is longer than two characters, is no
    stop word, and holds no white space, bracket, hyphen or upper-case
    letter.  An article matches the key terms of an idea when its
    lower-cased title contains at least half of them: with no key terms
    every article matches, so an idea without key terms counts as written
    as soon as the blog holds an article; an interview without key terms
    never counts as written. *)
Theorem idea_key_terms_and_matches (ideaTitle articleTitle : string)
    (keyTerms : list string) (existingArticles : list ExistingArticle.t) :
  Forall (fun term =>
            2 < String.length term /\ ~ In term stopWords
            /\ allIn termChar term = true)
         (extractIdeaKeyTerms ideaTitle)
  /\ (articleMatchesIdea articleTitle keyTerms = true <->
      length keyTerms
      <= 2 * length (List.filter (fun term => includes (toLowerCase articleTitle) term)
                                 keyTerms))
  /\ articleMatchesIdea articleTitle [] = true
  /\ ideaHasExistingArticle existingArticles []
     = match existingArticles with [] => false | _ => true end
  /\ interviewHasExistingArticle existingArticles [] = false.
Proof.
  split; [|split; [|split; [|split]]].
  - unfold extractIdeaKeyTerms. cbv zeta. unfold re_spaces.
    pose proof (split_plus_pieces is_space _ _ (cleaned_class ideaTitle)) as Hpieces.
    induction Hpieces as [|piece pieces Hpiece _ IH]; [constructor|].
    cbn [List.filter].
    destruct (2 <? String.length piece) eqn:Hlen; cbn [andb]; [|exact IH].
    destruct (mem piece stopWords) eqn:Hstop; cbn [negb]; [exact IH|].
    constructor; [|exact IH]. split; [now apply Nat.ltb_lt|]. split.
    + intros Hin. apply mem_In in Hin. congruence.
    + eapply allIn_weaken; [|exact Hpiece]. intros c Hc. unfold termChar.
      apply andb_true_iff in Hc as [Hsp Hc]. apply andb_true_iff in Hc as [Hb Hu].
      unfold noBracketHyphen in Hb. now rewrite Hsp, Hb, Hu.
  - unfold articleMatchesIdea. cbv zeta. rewrite Nat.leb_le.
    set (m := length (List.filter _ keyTerms)).
    generalize (length keyTerms) as n. intros n.
    pose proof (Nat.div2_odd (S n)) as Hd.
    destruct (Nat.odd (S n)); cbn [Nat.b2n] in Hd; lia.
  - reflexivity.
  - unfold ideaHasExistingArticle. destruct existingArticles; reflexivity.
  - unfold interviewHasExistingArticle. induction existingArticles; [reflexivity|exact IHexistingArticles].
Qed.

End KeyTerms.

(** ** services/research: the searches *)

Section Searches.
Import JsStr Js JsNum Eff.
Context `{Collaborators}.

Lemma searchWeb_run query maxResults (s : State) :
  Research.searchWeb query maxResults s
  = match tavilyApiKey s with
    | None => (Ok [], s)
    | Some _ =>
        (Ok match (search_request query maxResults (ext s)).1 with
            | Ok found => found
            | Throw _ => []
            end,
         mkState (search_request query maxResults (ext s)).2 (ghostClient s)
                 (anthropicClient s) (tavilyApiKey s) (GOOGLE_IDEAS_FOLDER_ID s)
                 (log s ++ [EvCall "tavily.search" [query; maxResults]]))
    end.
Proof.
  unfold Research.searchWeb, Research.isResearchAvailable, bind, gets, catch, perform, ret.
  destruct (tavilyApiKey s) eqn:Hkey; simpl; [|reflexivity].
  destruct (search_request query maxResults (ext s)) as [[found|e] e']; simpl;
    rewrite ?Hkey; reflexivity.
Qed.

(** X11.  A web search never fails.  Without a search key it returns no
    results and asks nothing of the outside world; with a key it sends one
    search request, and a request that fails yields no results. *)
Theorem searchWeb_never_fails query maxResults (s : State) :
  exists results s',
    Research.searchWeb query maxResults s = (Ok results, s')
    /\ tavilyApiKey s' = tavilyApiKey s
    /\ match tavilyApiKey s with
       | None => results = [] /\ s' = s
       | Some _ =>
           log s' = log s ++ [EvCall "tavily.search" [query; maxResults]]
           /\ match (search_request query maxResults (ext s)).1 with
              | Ok found => results = found
              | Throw _ => results = []
              end
       end.
Proof.
  rewrite searchWeb_run. destruct (tavilyApiKey s) as [key|] eqn:Hkey.
  - eexists _, _. split; [reflexivity|]. split; [reflexivity|]. split; [reflexivity|].
    destruct (search_request query maxResults (ext s)).1; reflexivity.
  - exists [], s. auto.
Qed.

Lemma searchAll_run keywords :
  forall (s : State), exists results s',
    Generators.searchAll keywords s = (Ok results, s')
    /\ tavilyApiKey s' = tavilyApiKey s
    /\ match tavilyApiKey s with
       | None => results = [] /\ s' = s
       | Some _ =>
           log s' = log s ++ map (fun keyword => EvCall "tavily.search" [VStr keyword; VNum 3])
                                 keywords
       end.
Proof.
  induction keywords as [|keyword rest IH]; intros s.
  - exists [], s. split; [reflexivity|]. split; [reflexivity|].
    destruct (tavilyApiKey s); [now rewrite app_nil_r|auto].
  - cbn [Generators.searchAll]. unfold bind. rewrite searchWeb_run.
    destruct (tavilyApiKey s) as [key|] eqn:Hkey.
    + match goal with
      | |- context [Generators.searchAll rest ?st] =>
          destruct (IH st) as (more & s' & Hrun & Hkey' & Hlog); rewrite Hrun
      end.
      simpl in Hkey', Hlog.
      eexists _, s'. split; [reflexivity|]. split; [exact Hkey'|].
      rewrite Hlog, <- app_assoc. reflexivity.
    + destruct (IH s) as (more & s' & Hrun & Hkey' & Hlog). rewrite Hrun, Hkey in *.
      destruct Hlog as [-> ->]. exists [], s. rewrite Hkey. auto.
Qed.

(** X12.  The research for a list of keywords never fails.  With a search
    key it searches the first three keywords only, in order, each with a
    limit of three results; without a key it asks nothing of the outside
    world and reports that no results are available. *)
Theorem researchKeywords_searches_three (keywords : list string) (s : State) :
  exists text s',
    Generators.researchKeywords keywords s = (Ok text, s')
    /\ match tavilyApiKey s with
       | None => text = "No research results available." /\ s' = s
       | Some _ =>
           log s' = log s ++ map (fun keyword => EvCall "tavily.search" [VStr keyword; VNum 3])
                                 (take 3 keywords)
       end.
Proof.
  unfold Generators.researchKeywords, bind.
  destruct (searchAll_run (take 3 keywords) s) as (results & s' & Hrun & _ & Hlog).
  rewrite Hrun. destruct (tavilyApiKey s).
  - destruct (Generators.uniqueByUrl [] results); eexists _, s'; split;
      try reflexivity; exact Hlog.
  - destruct Hlog as [-> ->]. exists "No research results available.", s. auto.
Qed.

End Searches.


(** ** The tools [list_articles] and [create_draft] *)

Section ToolDetails.
Import JsStr Js JsNum Eff Anthropic.
Context `{Collaborators}.

Definition listed (articles : list ExistingArticle.t) : string :=
  stringify2 (VArr (map Agent.articleSummary articles)).

(** X13.  [list_articles] lists the first twenty articles when no limit is
    given, and also when the limit is zero; the first [n] for a positive
    limit [n]; and all but the last [n] for a negative limit [-n]. *)
Theorem list_articles_limit (input : gmap string JsVal) folderId ideasFolderId
    (articles : list ExistingArticle.t) (s s' : State) :
  Ghost.getExistingArticles s = (Ok articles, s') ->
  (input !! "limit" = None \/ input !! "limit" = Some (VNum 0) ->
   Agent.executeTool "list_articles" input folderId ideasFolderId s
   = (Ok (listed (take 20 articles)), s'))
  /\ (forall n : nat, 0 < n -> input !! "limit" = Some (VNum (Z.of_nat n)) ->
      Agent.executeTool "list_articles" input folderId ideasFolderId s
      = (Ok (listed (take n articles)), s'))
  /\ (forall n : nat, 0 < n -> input !! "limit" = Some (VNum (- Z.of_nat n)) ->
      Agent.executeTool "list_articles" input folderId ideasFolderId s
      = (Ok (listed (take (length articles - n) articles)), s')).
Proof.
  intros Hget.
  assert (Hrun : forall limit,
    Agent.prop input "limit" = limit ->
    Agent.executeTool "list_articles" input folderId ideasFolderId s
    = (Ok (listed (slice_to articles (or limit (VNum 20)))), s')).
  { intros limit <-. unfold Agent.executeTool. simpl. unfold bind. rewrite Hget.
    reflexivity. }
  split; [|split].
  - intros [Hnone|Hzero].
    + rewrite (Hrun VUndefined); [reflexivity|]. unfold Agent.prop. now rewrite Hnone.
    + rewrite (Hrun (VNum 0)); [reflexivity|]. unfold Agent.prop. now rewrite Hzero.
  - intros n Hn Hlimit. rewrite (Hrun (VNum (Z.of_nat n)));
      [|unfold Agent.prop; now rewrite Hlimit].
    unfold or, truthy, slice_to, toInteger, toNumber.
    destruct (Z.of_nat n =? 0)%Z eqn:Hz; [apply Z.eqb_eq in Hz; lia|]. cbn [negb].
    destruct (Z.of_nat n <? 0)%Z eqn:Hneg; [apply Z.ltb_lt in Hneg; lia|].
    now rewrite Nat2Z.id.
  - intros n Hn Hlimit. rewrite (Hrun (VNum (- Z.of_nat n)));
      [|unfold Agent.prop; now rewrite Hlimit].
    unfold or, truthy, slice_to, toInteger, toNumber.
    destruct (- Z.of_nat n =? 0)%Z eqn:Hz; [apply Z.eqb_eq in Hz; lia|]. cbn [negb].
    destruct (- Z.of_nat n <? 0)%Z eqn:Hneg; [|apply Z.ltb_ge in Hneg; lia].
    replace (Z.to_nat (Z.of_nat (length articles) + - Z.of_nat n))
      with (length articles - n) by lia.
    reflexivity.
Qed.

Lemma metaTitle_truthy title : JsStr.truthy (Metadata.generateMetaTitle title) = true.
Proof.
  unfold Metadata.generateMetaTitle.
  destruct (Metadata.truncateText title (60 - String.length " | Pretty's Perspectives"));
    [rewrite append_nil|rewrite append_cons]; reflexivity.
Qed.

(** X14.  For a title that is a string, [create_draft] sends at most one
    post, and a post it sends holds the title, the slug and the meta title
    derived from the title, the given HTML, and the status draft. *)
Theorem create_draft_payload (input : gmap string JsVal) folderId ideasFolderId
    (title : string) (s : State) :
  input !! "title" = Some (VStr title) ->
  exists evs,
    log (Agent.executeTool "create_draft" input folderId ideasFolderId s).2 = log s ++ evs
    /\ (evs = []
        \/ exists postData,
             evs = [EvPostsAdd postData]
             /\ field postData "title" = VStr title
             /\ field postData "slug" = VStr (Metadata.generateSlug title)
             /\ field postData "html" = Agent.prop input "html"
             /\ field postData "status" = VStr "draft"
             /\ field postData "meta_title" = VStr (Metadata.generateMetaTitle title))
    /\ (ghostClient s = true ->
        (exists tags, Ghost.tagsField (Agent.prop input "tags") = Ok tags) ->
        evs <> []).
Proof.
  intros Htitle.
  assert (Hprop : Agent.prop input "title" = VStr title).
  { unfold Agent.prop. now rewrite Htitle. }
  unfold Agent.executeTool. simpl. rewrite Hprop. simpl.
  unfold Ghost.createDraftArticle, Ghost.buildPostData, Ghost.slugOf, bind, gets, lift,
    perform, rbind, ret, throw. simpl.
  destruct (ghostClient s) eqn:Hclient; simpl;
    [|exists []; rewrite app_nil_r; split; [reflexivity|split; [now left|discriminate]]].
  assert (Hslug : (if JsStr.truthy (Metadata.generateSlug title)
                   then Ok (VStr (Metadata.generateSlug title))
                   else Ok (VStr (Metadata.generateSlug title)))
                  = @Ok JsVal (VStr (Metadata.generateSlug title))).
  { now destruct (JsStr.truthy (Metadata.generateSlug title)). }
  rewrite Hslug.
  destruct (Ghost.tagsField (Agent.prop input "tags")) as [tags|e] eqn:Htags; simpl.
  - match goal with
    | |- context [posts_add ?pd (ext s)] =>
        exists [EvPostsAdd pd]; destruct (posts_add pd (ext s)) as [[post|e] e']
    end; simpl; (split; [reflexivity|]); (split; [|discriminate]); right;
      eexists; (split; [reflexivity|]);
      unfold Ghost.optionalField; cbn [truthy]; rewrite metaTitle_truthy;
      destruct (truthy (Agent.prop input "excerpt")); repeat split.
  - exists []. rewrite app_nil_r. split; [reflexivity|]. split; [now left|].
    intros _ (tags & Hok). discriminate.
Qed.

End ToolDetails.

Section ToolDetailExamples.
Import JsStr Js JsNum Eff Anthropic.

Lemma list_articles_limit_witness :
  @Agent.executeTool Fixtures.blog "list_articles" {["limit" := VNum 0]} "folder" None
    Fixtures.blogStart
  = (Ok (listed (take 20 (map Ghost.toExisting Fixtures.newTopicCorpus))),
     Fixtures.blogWith [EvCall "ghost.posts.browse" []]).
Proof.
  apply (proj1 (@list_articles_limit Fixtures.blog {["limit" := VNum 0]} "folder" None
                  (map Ghost.toExisting Fixtures.newTopicCorpus) Fixtures.blogStart
                  (Fixtures.blogWith [EvCall "ghost.posts.browse" []]) eq_refl)).
  right. reflexivity.
Defined.

Lemma create_draft_payload_witness :
  exists evs,
    log (@Agent.executeTool Fixtures.blog "create_draft"
           {["title" := VStr "Hello World"]} "folder" None Fixtures.blogStart).2
    = log Fixtures.blogStart ++ evs
    /\ evs <> [].
Proof.
  assert (Htitle : ({["title" := VStr "Hello World"]} : gmap string JsVal) !! "title"
                   = Some (VStr "Hello World")) by reflexivity.
  destruct (@create_draft_payload Fixtures.blog {["title" := VStr "Hello World"]}
              "folder" None "Hello World" Fixtures.blogStart Htitle)
    as (evs & Hlog & _ & Hsome).
  exists evs. split; [exact Hlog|]. apply Hsome; [reflexivity|]. now exists [].
Defined.

End ToolDetailExamples.
